(** * B.E.F.A.S.T. stroke assessment: risk scoring, speech heuristics and the
      real-time voice loop

    A shallow embedding of
    - [src/services/aiAdvisor.ts]                 (module [AiAdvisor]),
    - the assessment page's [calculateScore]      (module [AssessmentPage]),
    - [src/services/simpleOfflineSpeechAnalysis.ts] (module [OfflineSpeech]),
    - [src/services/realTimeVoiceAnalysis.ts]     (module [RealTime]).

    JavaScript numbers are IEEE 754 binary64 values: they are embedded as
    Rocq's primitive floats, so that [0 / 0] is [nan], comparisons with [nan]
    are false and decimal literals are the doubles the engine reads.  Numbers
    that the code only ever uses as small integers (scores, counts, array
    lengths, timer handles, loop indices) are embedded as [Z] or [nat]; all of
    them stay far below [2^53], where binary64 arithmetic on integers is
    exact.  Where a property depends on how binary64 arithmetic rounds (the
    range of the RMS), the numbers are read as reals and the rounding of
    [+], [*], [/] and [sqrt] is derived from their specification (modules
    [FloatSpec] and [FloatRounding]). *)

From Stdlib Require Import ZArith List Bool String Ascii Lia.
From Stdlib Require Import Floats Uint63 DecimalString.
From Stdlib Require Reals Lra.
Import ListNotations.

Set Warnings "-inexact-float".
Set Implicit Arguments.

Open Scope Z_scope.

(* ------------------------------------------------------------------ *)
(** ** The JavaScript platform: numbers, [Math], ambient effects        *)
(* ------------------------------------------------------------------ *)

Module JS.

Definition number := float.

(** [a > b], [a < b], [a >= b] on numbers: false as soon as one side is NaN. *)
Definition gt (a b : number) : bool := (b <? a)%float.
Definition lt (a b : number) : bool := (a <? b)%float.
Definition ge (a b : number) : bool := (b <=? a)%float.
Arguments gt (a b)%_float.
Arguments lt (a b)%_float.
Arguments ge (a b)%_float.

(** An integer-valued number from an integer (exact below [2^53]). *)
Definition of_Z (z : Z) : number :=
  if z <? 0 then (- PrimFloat.of_uint63 (Uint63.of_Z (- z)))%float
  else PrimFloat.of_uint63 (Uint63.of_Z z).

(** [Math.max] and [Math.min] of two numbers: NaN is contagious and
    [+0] counts as larger than [-0]. *)
Definition Math_max (x y : number) : number :=
  if PrimFloat.is_nan x || PrimFloat.is_nan y then nan
  else if (x <? y)%float then y
  else if (y <? x)%float then x
  else if PrimFloat.get_sign x then y else x.

Definition Math_min (x y : number) : number :=
  if PrimFloat.is_nan x || PrimFloat.is_nan y then nan
  else if (x <? y)%float then x
  else if (y <? x)%float then y
  else if PrimFloat.get_sign x then x else y.

Arguments Math_max (x y)%_float.
Arguments Math_min (x y)%_float.

Definition Math_sqrt (x : number) : number := PrimFloat.sqrt x.

Definition Math_PI : number := 3.141592653589793%float.

(** [Math.floor]: the largest integer-valued number not above [x];
    NaN, the infinities and both zeros are returned as they are. *)
Definition Math_floor (x : number) : number :=
  match Prim2SF x with
  | S754_finite s m e =>
      if 0 <=? e then x
      else
        let q := Z.shiftr (Z.pos m) (- e) in
        let exact := Z.shiftl q (- e) =? Z.pos m in
        if s then of_Z (- (if exact then q else q + 1))
        else of_Z q
  | _ => x
  end.

(** The integer a finite integer-valued number stands for (used for loop
    bounds and array indices); [None] on NaN and the infinities. *)
Definition to_Z (x : number) : option Z :=
  match Prim2SF x with
  | S754_zero _ => Some 0
  | S754_finite s m e =>
      let v := if 0 <=? e then Z.shiftl (Z.pos m) e else Z.shiftr (Z.pos m) (- e) in
      Some (if s then - v else v)
  | _ => None
  end.

(** [x || 0] on a number: NaN and both zeros are falsy. *)
Definition or_zero (x : number) : number :=
  if PrimFloat.is_nan x || PrimFloat.is_zero x then 0%float else x.

(** Reading [a[i]] from a typed array or array of numbers inside an
    arithmetic expression: out of range gives [undefined], which
    arithmetic turns into NaN. *)
Definition get (a : list number) (i : Z) : number :=
  if i <? 0 then nan else nth (Z.to_nat i) a nan.

(** Template-literal rendering of a non-negative integer. *)
Definition string_of_nat (n : nat) : string :=
  NilEmpty.string_of_uint (Nat.to_uint n).

(** [xs.join(', ')]. *)
Fixpoint join (sep : string) (xs : list string) : string :=
  match xs with
  | [] => EmptyString
  | [x] => x
  | x :: rest => (x ++ sep ++ join sep rest)%string
  end.

(** *** Ambient effects

    [Date.now()], [Math.random()] and [process.env.NODE_ENV] read the
    environment; [Math.random()] also advances the random source. *)
Record Env := mkEnv {
  clock : Z;
  random_source : nat -> number;
  NODE_ENV : string
}.

Definition Eff (A : Type) : Type := Env -> A * Env.

Definition ret {A} (a : A) : Eff A := fun e => (a, e).

Definition bind {A B} (m : Eff A) (k : A -> Eff B) : Eff B :=
  fun e => let (a, e') := m e in k a e'.

Definition Date_now : Eff Z := fun e => (clock e, e).

Definition Math_random : Eff number :=
  fun e => (random_source e 0%nat,
            {| clock := clock e;
               random_source := fun n => random_source e (S n);
               NODE_ENV := NODE_ENV e |}).

Definition development : Eff bool :=
  fun e => (String.eqb (NODE_ENV e) "development", e).

(** [arr[Math.floor(Math.random() * arr.length)]] on an array of strings;
    a miss would be [undefined], rendered here as the empty string (the
    random source stays in [[0,1)], so a non-empty array never misses). *)
Definition random_element (arr : list string) : Eff string :=
  bind Math_random (fun r =>
    let k := Math_floor (r * of_Z (Z.of_nat (List.length arr)))%float in
    ret (match to_Z k with
         | Some i => if i <? 0 then EmptyString
                     else nth (Z.to_nat i) arr EmptyString
         | None => EmptyString
         end)).

End JS.

Notation "x <- m ;; k" := (JS.bind m (fun x => k))
  (at level 61, m at next level, right associativity).

(* ------------------------------------------------------------------ *)
(** ** Shared types ([@/types])                                         *)
(* ------------------------------------------------------------------ *)

(** [boolean | null] answers, in the key order of the object. *)
Module BEFASTAnswers.
Record t := mk {
  balance : option bool;
  eyes : option bool;
  face : option bool;
  arms : option bool;
  speech : option bool
}.

Inductive key := Balance | Eyes | Face | Arms | Speech.

Definition get (k : key) (a : t) : option bool :=
  match k with
  | Balance => balance a | Eyes => eyes a | Face => face a
  | Arms => arms a | Speech => speech a
  end.

(** [{ ...answers, [k]: v }] *)
Definition set (k : key) (v : option bool) (a : t) : t :=
  match k with
  | Balance => mk v (eyes a) (face a) (arms a) (speech a)
  | Eyes => mk (balance a) v (face a) (arms a) (speech a)
  | Face => mk (balance a) (eyes a) v (arms a) (speech a)
  | Arms => mk (balance a) (eyes a) (face a) v (speech a)
  | Speech => mk (balance a) (eyes a) (face a) (arms a) v
  end.

(** [Object.values(answers)] *)
Definition values (a : t) : list (option bool) :=
  [balance a; eyes a; face a; arms a; speech a].

(** [answer === true] *)
Definition is_true (v : option bool) : bool :=
  match v with Some true => true | _ => false end.
End BEFASTAnswers.

Module FaceAnalysisResult.
Record t := mk {
  asymmetry : JS.number;
  confidence : JS.number;
  timestamp : Z
}.
End FaceAnalysisResult.

Module SpeechAnalysisResult.
Record t := mk {
  confidence : JS.number;
  isSlurred : bool;
  transcription : string;
  timestamp : Z
}.
End SpeechAnalysisResult.

Inductive RiskLevel := LOW | MEDIUM | HIGH.

Module AIRiskScore.
Record t := mk {
  score : Z;
  level : RiskLevel;
  factors : list string;
  timestamp : Z
}.
End AIRiskScore.

(* ------------------------------------------------------------------ *)
(** ** [aiAdvisor.ts]: the local risk calculation                       *)
(* ------------------------------------------------------------------ *)

Module AiAdvisor.

Record AnalysisData := mkData {
  befastAnswers : BEFASTAnswers.t;
  faceAnalysis : option FaceAnalysisResult.t;
  speechAnalysis : option SpeechAnalysisResult.t
}.

Section WithToFixed.
(** [n.toFixed(1)], the engine's decimal rendering. *)
Variable toFixed1 : JS.number -> string.

Definition positiveBEFAST (a : BEFASTAnswers.t) : nat :=
  List.length (filter BEFASTAnswers.is_true (BEFASTAnswers.values a)).

(** The running [score] and [factors] after the BEFAST block. *)
Definition score_befast (data : AnalysisData) : Z * list string :=
  let n := positiveBEFAST (befastAnswers data) in
  if (0 <? n)%nat
  then (0 + Z.of_nat n * 20,
        [(JS.string_of_nat n ++ " positive BEFAST symptom(s) detected")%string])
  else (0, []).

(** ... after the face block. *)
Definition score_face (data : AnalysisData) (acc : Z * list string)
  : Z * list string :=
  let (score, factors) := acc in
  match faceAnalysis data with
  | Some fa =>
      let asymmetry := FaceAnalysisResult.asymmetry fa in
      if JS.gt asymmetry 30 then
        (score + 30,
         factors ++ [("High facial asymmetry (" ++ toFixed1 asymmetry ++ "%)")%string])
      else if JS.gt asymmetry 15 then
        (score + 15,
         factors ++ [("Moderate facial asymmetry (" ++ toFixed1 asymmetry ++ "%)")%string])
      else (score, factors)
  | None => (score, factors)
  end.

(** ... after the speech block. *)
Definition score_speech (data : AnalysisData) (acc : Z * list string)
  : Z * list string :=
  match speechAnalysis data with
  | Some sa =>
      let acc1 :=
        if SpeechAnalysisResult.isSlurred sa
        then (fst acc + 25, snd acc ++ ["Slurred speech detected"%string])
        else acc in
      if JS.lt (SpeechAnalysisResult.confidence sa) 0.7
      then (fst acc1 + 10, snd acc1 ++ ["Low speech recognition confidence"%string])
      else acc1
  | None => acc
  end.

(** [score >= 70 ? HIGH : score >= 40 ? MEDIUM : LOW] *)
Definition level_of (score : Z) : RiskLevel :=
  if 70 <=? score then HIGH
  else if 40 <=? score then MEDIUM
  else LOW.

Definition calculateLocally (data : AnalysisData) : JS.Eff AIRiskScore.t :=
  let '(score, factors) := score_speech data (score_face data (score_befast data)) in
  let level := level_of score in
  now <- JS.Date_now ;;
  JS.ret {| AIRiskScore.score := Z.min score 100;
            AIRiskScore.level := level;
            AIRiskScore.factors := factors;
            AIRiskScore.timestamp := now |}.

End WithToFixed.

End AiAdvisor.
(* ------------------------------------------------------------------ *)
(** ** The assessment page: [calculateScore]                            *)
(* ------------------------------------------------------------------ *)

Module AssessmentPage.

(** The page's [analysisResults] state: the [face] and [speech] entries. *)
Record AnalysisResults := mkResults {
  face : option FaceAnalysisResult.t;
  speech : option SpeechAnalysisResult.t
}.

Record Score := mkScore {
  score : Z;
  level : RiskLevel;
  color : string;
  factors : list string
}.

Section WithToFixed.
Variable toFixed1 : JS.number -> string.

Definition score_befast (befastAnswers : BEFASTAnswers.t) : Z * list string :=
  let befastAnswersArray := BEFASTAnswers.values befastAnswers in
  let n := List.length (filter BEFASTAnswers.is_true befastAnswersArray) in
  if (0 <? n)%nat
  then (0 + Z.of_nat n * 20,
        [(JS.string_of_nat n ++ " BEFAST symptom(s) detected")%string])
  else (0, []).

Definition score_face (analysisResults : AnalysisResults) (acc : Z * list string)
  : Z * list string :=
  let (score, factors) := acc in
  match face analysisResults with
  | Some fa =>
      let asymmetry := FaceAnalysisResult.asymmetry fa in
      if JS.gt asymmetry 15 then
        (score + 25,
         factors ++ [("Severe facial asymmetry (" ++ toFixed1 asymmetry ++ "%)")%string])
      else if JS.gt asymmetry 10 then
        (score + 15,
         factors ++ [("Moderate facial asymmetry (" ++ toFixed1 asymmetry ++ "%)")%string])
      else (score, factors)
  | None => (score, factors)
  end.

Definition score_speech (analysisResults : AnalysisResults) (acc : Z * list string)
  : Z * list string :=
  match speech analysisResults with
  | Some sa =>
      let acc1 :=
        if SpeechAnalysisResult.isSlurred sa
        then (fst acc + 25, snd acc ++ ["Slurred speech detected"%string])
        else acc in
      if JS.lt (SpeechAnalysisResult.confidence sa) 0.7
      then (fst acc1 + 10, snd acc1 ++ ["Low speech recognition confidence"%string])
      else acc1
  | None => acc
  end.

Definition calculateScore (befastAnswers : BEFASTAnswers.t)
    (analysisResults : AnalysisResults) : Score :=
  let '(score, factors) :=
    score_speech analysisResults
      (score_face analysisResults (score_befast befastAnswers)) in
  let '(level, color) :=
    if 50 <=? score then (HIGH, "text-red-600"%string)
    else if 25 <=? score then (MEDIUM, "text-yellow-600"%string)
    else (LOW, "text-green-600"%string) in
  {| score := score; level := level; color := color; factors := factors |}.

End WithToFixed.

End AssessmentPage.

(* ------------------------------------------------------------------ *)
(** ** [simpleOfflineSpeechAnalysis.ts]                                 *)
(* ------------------------------------------------------------------ *)

Module AudioBuffer.
(** The decoded buffer as the service reads it: the three attributes it
    destructures and [getChannelData(0)]. *)
Record t := mk {
  duration : JS.number;
  sampleRate : JS.number;
  numberOfChannels : Z;
  channelData0 : list JS.number
}.
End AudioBuffer.

Module AudioFeatures.
Record t := mk {
  duration : JS.number;
  sampleRate : JS.number;
  channels : Z;
  rms : JS.number;
  spectralCentroid : JS.number;
  zeroCrossingRate : JS.number;
  pitch : JS.number;
  formants : list JS.number
}.
End AudioFeatures.

Module Loop.
(** [for (let i = start; cond(i); i += step) s = body(i, s)], run for at
    most [fuel] iterations. *)
Fixpoint for_loop {S : Type} (fuel : nat) (i step : Z) (cond : Z -> bool)
    (body : Z -> S -> S) (s : S) : S :=
  match fuel with
  | O => s
  | Datatypes.S fuel' =>
      if cond i then for_loop fuel' (i + step) step cond body (body i s) else s
  end.
End Loop.

Module OfflineSpeech.
Import JS.
Local Open Scope float_scope.

(** Storing a number into a [Float32Array] element rounds it to binary32
    (round to nearest, ties to even); read back, it is a double again. *)
Definition Math_fround (x : number) : number :=
  match Prim2SF x with
  | S754_finite s m e =>
      match binary_round 24 128 s m e with
      | S754_finite s' m' e' => SF2Prim (binary_round 53 1024 s' m' e')
      | r => SF2Prim r
      end
  | _ => x
  end.

Definition len (a : list number) : Z := Z.of_nat (List.length a).

(** [samples.slice(i, i + n)] *)
Definition slice (a : list number) (i n : Z) : list number :=
  firstn (Z.to_nat n) (skipn (Z.to_nat i) a).

Section WithEngine.
(** [Math.cos], which the language leaves to the engine. *)
Variable Math_cos : number -> number.

Definition applyHannWindow (samples : list number) : list number :=
  let n := len samples in
  map (fun i =>
         let windowValue :=
           0.5 * (1 - Math_cos (2 * Math_PI * of_Z i / of_Z (n - 1)%Z)) in
         Math_fround (get samples i * windowValue))
      (map Z.of_nat (seq 0 (List.length samples))).

(** Every frame it is called on has 1024 samples, so [windowed.length / 2]
    is a whole number. *)
Definition computeMagnitude (samples : list number) : list number :=
  let windowed := applyHannWindow samples in
  map (fun i =>
         let real := or_zero (get windowed (i * 2)%Z) in
         let imag := or_zero (get windowed (i * 2 + 1)%Z) in
         Math_sqrt (real * real + imag * imag))
      (map Z.of_nat (seq 0 (List.length windowed / 2))).

(** The start offsets [0, hop, 2*hop, ...] below [n - size] of the
    analysis windows over [n] samples. *)
Definition frame_starts (n size hop : Z) : list Z :=
  Loop.for_loop (Z.to_nat n) 0%Z hop (fun i => (i <? n - size)%Z)
    (fun i acc => acc ++ [i]) [].

Definition calculateSpectralCentroid (samples : list number) (sampleRate : number)
  : number :=
  let fftSize := 1024%Z in
  let hopSize := 512%Z in
  let '(sum, weightSum) :=
    fold_left
      (fun acc i =>
         let frame := slice samples i fftSize in
         let magnitude := computeMagnitude frame in
         fold_left
           (fun '(sum, weightSum) j =>
              let frequency := of_Z j * sampleRate / of_Z fftSize in
              (sum + frequency * get magnitude j, weightSum + get magnitude j))
           (map Z.of_nat (seq 0 (List.length magnitude)))
           acc)
      (frame_starts (len samples) fftSize hopSize)
      (0, 0) in
  if gt weightSum 0 then sum / weightSum else 0.

Definition calculateZeroCrossingRate (samples : list number) : number :=
  let crossings :=
    Loop.for_loop (List.length samples) 1%Z 1%Z (fun i => (i <? len samples)%Z)
      (fun i crossings =>
         if negb (Bool.eqb (ge (get samples i) 0) (ge (get samples (i - 1)) 0))
         then (crossings + 1)%Z else crossings)
      0%Z in
  of_Z crossings / of_Z (len samples - 1).

Definition calculatePitch (samples : list number) (sampleRate : number) : number :=
  let minFreq := 80 in
  let maxFreq := 400 in
  let minPeriod := Math_floor (sampleRate / maxFreq) in
  let maxPeriod := Math_floor (sampleRate / minFreq) in
  let n := len samples in
  let '(bestPeriod, bestCorrelation) :=
    match to_Z minPeriod, to_Z maxPeriod with
    | Some lo, Some hi =>
        Loop.for_loop (Z.to_nat (n + Z.abs lo + 1)) lo 1%Z
          (fun period => (period <? hi)%Z && (2 * period <? n)%Z)
          (fun period '(bestPeriod, bestCorrelation) =>
             let correlation :=
               Loop.for_loop (Z.to_nat (n - period)) 0%Z 1%Z
                 (fun i => (i <? n - period)%Z)
                 (fun i correlation =>
                    correlation + get samples i * get samples (i + period))
                 0 in
             if gt correlation bestCorrelation
             then (period, correlation)
             else (bestPeriod, bestCorrelation))
          (0%Z, 0)
    | _, _ => (0%Z, 0)   (* NaN or infinite bounds: the loop test fails at once *)
    end in
  if (0 <? bestPeriod)%Z then sampleRate / of_Z bestPeriod else 0.

(** [xs.sort((a, b) => b - a)]: stable, largest first. *)
Fixpoint insert_desc (x : number) (sorted : list number) : list number :=
  match sorted with
  | [] => [x]
  | y :: rest => if lt (y - x) 0 then x :: y :: rest else y :: insert_desc x rest
  end.

Definition sort_desc (xs : list number) : list number :=
  fold_left (fun sorted x => insert_desc x sorted) xs [].

Definition findPeaks (magnitude : list number) : list number :=
  let threshold := fold_left Math_max magnitude neg_infinity * 0.1 in
  let n := len magnitude in
  let peaks :=
    Loop.for_loop (List.length magnitude) 1%Z 1%Z (fun i => (i <? n - 1)%Z)
      (fun i peaks =>
         if gt (get magnitude i) threshold
            && gt (get magnitude i) (get magnitude (i - 1))
            && gt (get magnitude i) (get magnitude (i + 1))
         then peaks ++ [get magnitude i] else peaks)
      [] in
  sort_desc peaks.

Definition calculateFormants (samples : list number) (sampleRate : number)
  : list number :=
  let frameSize := 1024%Z in
  let hopSize := 512%Z in
  let formants :=
    fold_left
      (fun formants i =>
         let frame := slice samples i frameSize in
         let magnitude := computeMagnitude frame in
         let peaks := findPeaks magnitude in
         formants ++ firstn 3 peaks)
      (frame_starts (len samples) frameSize hopSize)
      [] in
  firstn 9 formants.

Definition extractAudioFeatures (audioBuffer : AudioBuffer.t) : AudioFeatures.t :=
  let duration := AudioBuffer.duration audioBuffer in
  let sampleRate := AudioBuffer.sampleRate audioBuffer in
  let numberOfChannels := AudioBuffer.numberOfChannels audioBuffer in
  let channelData := AudioBuffer.channelData0 audioBuffer in
  let rms :=
    Math_sqrt (fold_left (fun sum sample => sum + sample * sample) channelData 0
               / of_Z (len channelData)) in
  let spectralCentroid := calculateSpectralCentroid channelData sampleRate in
  let zeroCrossingRate := calculateZeroCrossingRate channelData in
  let pitch := calculatePitch channelData sampleRate in
  let formants := calculateFormants channelData sampleRate in
  {| AudioFeatures.duration := duration;
     AudioFeatures.sampleRate := sampleRate;
     AudioFeatures.channels := numberOfChannels;
     AudioFeatures.rms := rms;
     AudioFeatures.spectralCentroid := spectralCentroid;
     AudioFeatures.zeroCrossingRate := zeroCrossingRate;
     AudioFeatures.pitch := pitch;
     AudioFeatures.formants := formants |}.

End WithEngine.

Record SpeechPatterns := mkPatterns {
  confidence : number;
  isSlurred : bool;
  transcription : string
}.

(** [if (cond) confidence += bonus] *)
Definition bump (cond : bool) (bonus : number) (confidence : number) : number :=
  if cond then confidence + bonus else confidence.

(** [if (cond) { isSlurred = true; slurredReasons.push(reason) }] *)
Definition flag (cond : bool) (reason : string) (st : bool * list string)
  : bool * list string :=
  if cond then (true, snd st ++ [reason]) else st.

(** The confidence of [analyzeSpeechPatterns], after the cap. *)
Definition patternConfidence (features : AudioFeatures.t) : number :=
  let duration := AudioFeatures.duration features in
  let rms := AudioFeatures.rms features in
  let spectralCentroid := AudioFeatures.spectralCentroid features in
  let zeroCrossingRate := AudioFeatures.zeroCrossingRate features in
  let pitch := AudioFeatures.pitch features in
  let confidence := 0.5 in
  let confidence := bump (gt rms 0.05) 0.15 confidence in
  let confidence := bump (gt rms 0.1) 0.15 confidence in
  let confidence := bump (gt rms 0.2) 0.1 confidence in
  let confidence := bump (gt duration 0.5) 0.1 confidence in
  let confidence := bump (gt duration 1) 0.1 confidence in
  let confidence := bump (gt duration 2) 0.05 confidence in
  let confidence :=
    bump (gt spectralCentroid 800 && lt spectralCentroid 3500) 0.1 confidence in
  let confidence :=
    bump (gt zeroCrossingRate 0.01 && lt zeroCrossingRate 0.08) 0.1 confidence in
  let confidence := bump (gt pitch 80 && lt pitch 400) 0.1 confidence in
  Math_min 0.95 (Math_max 0.3 confidence).

(** [isSlurred] and [slurredReasons] of [analyzeSpeechPatterns]. *)
Definition slurRules (features : AudioFeatures.t) : bool * list string :=
  let duration := AudioFeatures.duration features in
  let rms := AudioFeatures.rms features in
  let spectralCentroid := AudioFeatures.spectralCentroid features in
  let zeroCrossingRate := AudioFeatures.zeroCrossingRate features in
  let pitch := AudioFeatures.pitch features in
  let st := (false, []) in
  let st := flag (lt rms 0.03) "low volume" st in
  let st := flag (gt zeroCrossingRate 0.12) "high noise" st in
  let st := flag (lt spectralCentroid 300 || gt spectralCentroid 5000)
                 "abnormal frequency" st in
  let st := if lt duration 0.3 then flag true "too short" st
            else flag (gt duration 15) "too long" st in
  flag (lt pitch 50 || gt pitch 600) "abnormal pitch" st.

Definition slurredPhrases : list string :=
  ["I can't speak clearly right now";
   "My words are coming out wrong";
   "Something is wrong with my speech";
   "I feel like I'm slurring my words";
   "Help me, I can't talk properly";
   "My voice sounds different today";
   "I'm having trouble forming words"]%string.

Definition normalPhrases : list string :=
  ["Hello, I am speaking clearly";
   "I can talk normally right now";
   "My speech is fine today";
   "I don't have any problems speaking";
   "Everything sounds normal to me";
   "My voice is working well";
   "I can communicate clearly"]%string.

(** [` [${slurredReasons.join(', ') || 'normal'}]`] *)
Definition debugSuffix (slurredReasons : list string) : string :=
  let joined := join ", " slurredReasons in
  (" [" ++ (if String.eqb joined EmptyString then "normal" else joined) ++ "]")%string.

Definition analyzeSpeechPatterns (features : AudioFeatures.t) : Eff SpeechPatterns :=
  let confidence := patternConfidence features in
  let '(isSlurred, slurredReasons) := slurRules features in
  transcription <-
    random_element (if isSlurred then slurredPhrases else normalPhrases) ;;
  dev <- development ;;
  let transcription :=
    if dev then (transcription ++ debugSuffix slurredReasons)%string
    else transcription in
  ret {| confidence := confidence;
         isSlurred := isSlurred;
         transcription := transcription |}.

End OfflineSpeech.

(* ------------------------------------------------------------------ *)
(** ** [realTimeVoiceAnalysis.ts]                                       *)
(* ------------------------------------------------------------------ *)

Module RealTime.
Import JS.
Local Open Scope float_scope.

Module Config.
Record t := mk {
  analysisInterval : Z;
  chunkSize : Z;
  sensitivity : number;
  smoothingFactor : number
}.
(** The constructor's defaults. *)
Definition default : t := mk 200 1024 0.3 0.7.
End Config.

(** [RealTimeSpeechAnalysisResult] *)
Module Result.
Record t := mk {
  confidence : number;
  isSlurred : bool;
  transcription : string;
  timestamp : Z;
  volume : number;
  pitch : number;
  clarity : number;
  isSpeaking : bool
}.
End Result.

Module Features.
Record t := mk {
  volume : number;
  pitch : number;
  spectralCentroid : number;
  zeroCrossingRate : number;
  clarity : number;
  isSpeaking : bool
}.
End Features.

Record AudioContext := mkContext { sampleRate : number }.
Record AnalyserNode := mkAnalyser { fftSize : Z; smoothingTimeConstant : number }.

(** A callback the caller passed in, named by a token. *)
Definition Callback := nat.

(** What the service does to the outside: console lines and callback calls. *)
Inductive Event :=
| ConsoleLog (message : string)
| ConsoleWarn (message : string)
| ConsoleError (message : string)
| ResultDelivered (cb : Callback) (result : Result.t)
| ErrorDelivered (cb : Callback) (message : string).

(** The private fields of [RealTimeVoiceAnalysisService]. *)
Record Service := mkService {
  audioContext : option AudioContext;
  analyser : option AnalyserNode;
  microphone : bool;
  stream : bool;
  isAnalyzing : bool;
  analysisInterval : option Z;
  config : Config.t;
  lastResults : list Result.t;
  onResultCallback : option Callback;
  onErrorCallback : option Callback
}.

(** The service inside its window: the ambient environment, the interval
    timers that are currently armed (by handle), the next handle
    [setInterval] will hand out, the events so far, and the number of
    [cleanup] calls that are suspended at [await this.audioContext.close()]. *)
Record World := mkWorld {
  service : Service;
  env : Env;
  timers : list Z;
  next_handle : Z;
  events : list Event;
  closing : nat
}.

Definition constructor (config : Config.t) : Service :=
  mkService None None false false false None config [] None None.

Definition new_world (config : Config.t) (e : Env) : World :=
  mkWorld (constructor config) e [] 1 [] 0.

Definition with_service (w : World) (s : Service) : World :=
  mkWorld s (env w) (timers w) (next_handle w) (events w) (closing w).

Definition emit (ev : Event) (w : World) : World :=
  mkWorld (service w) (env w) (timers w) (next_handle w) (events w ++ [ev]) (closing w).

(** [window.setInterval(handler, ms)]: arms a timer and returns its handle,
    an integer greater than zero. *)
Definition setInterval (w : World) : Z * World :=
  (next_handle w,
   mkWorld (service w) (env w) (timers w ++ [next_handle w])
           (next_handle w + 1)%Z (events w) (closing w)).

(** [clearInterval(handle)] *)
Definition clearInterval (handle : Z) (w : World) : World :=
  mkWorld (service w) (env w) (filter (fun h => negb (h =? handle)%Z) (timers w))
          (next_handle w) (events w) (closing w).

(** [initialize()]: [granted] tells whether [getUserMedia] resolves; the
    device reports [rate] as the context's sample rate. *)
Definition initialize (granted : bool) (rate : number) (w : World) : World :=
  let s := service w in
  if granted then
    emit (ConsoleLog "Real-time voice analysis initialized")
      (with_service w
         (mkService (Some (mkContext rate))
                    (Some (mkAnalyser (Config.chunkSize (config s) * 2)
                                      (Config.smoothingFactor (config s))))
                    true true (isAnalyzing s) (analysisInterval s) (config s)
                    (lastResults s) (onResultCallback s) (onErrorCallback s)))
  else
    emit (ConsoleError "Failed to initialize real-time voice analysis:") w.

Definition startAnalysis (onResult : Callback) (onError : option Callback)
    (w : World) : World :=
  let s := service w in
  if isAnalyzing s then
    emit (ConsoleWarn "Real-time analysis already running") w
  else
    match analyser s with
    | None =>
        match onError with
        | Some cb => emit (ErrorDelivered cb "Real-time analysis not initialized") w
        | None => w
        end
    | Some _ =>
        let w1 :=
          with_service w
            (mkService (audioContext s) (analyser s) (microphone s) (stream s)
                       true (analysisInterval s) (config s) (lastResults s)
                       (Some onResult) onError) in
        let (handle, w2) := setInterval w1 in
        let s2 := service w2 in
        let w3 :=
          with_service w2
            (mkService (audioContext s2) (analyser s2) (microphone s2) (stream s2)
                       (isAnalyzing s2) (Some handle) (config s2) (lastResults s2)
                       (onResultCallback s2) (onErrorCallback s2)) in
        emit (ConsoleLog "Real-time voice analysis started") w3
    end.

Definition stopAnalysis (w : World) : World :=
  let s := service w in
  if negb (isAnalyzing s) then w
  else
    let '(w1, interval) :=
      match analysisInterval s with
      | Some handle =>
          if (handle =? 0)%Z then (w, analysisInterval s)   (* falsy: left as it is *)
          else (clearInterval handle w, None)
      | None => (w, None)
      end in
    emit (ConsoleLog "Real-time voice analysis stopped")
      (with_service w1
         (mkService (audioContext s) (analyser s) (microphone s) (stream s)
                    false interval (config s) [] None None)).

(** *** Per-tick features *)

(** [(data[i] - 128) / 128] *)
Definition centered (data : list number) (i : Z) : number :=
  (get data i - 128) / 128.

Definition calculateRealTimePitch (s : Service) (timeDomainData : list Z) : number :=
  let data := map of_Z timeDomainData in
  let sampleRate :=
    match audioContext s with
    | Some ctx => if PrimFloat.is_nan (sampleRate ctx) || PrimFloat.is_zero (sampleRate ctx)
                  then 44100 else sampleRate ctx
    | None => 44100
    end in
  let minFreq := 80 in
  let maxFreq := 400 in
  let minPeriod := Math_floor (sampleRate / maxFreq) in
  let maxPeriod := Math_floor (sampleRate / minFreq) in
  let n := Z.of_nat (List.length data) in
  let '(bestPeriod, bestCorrelation) :=
    match to_Z minPeriod, to_Z maxPeriod with
    | Some lo, Some hi =>
        Loop.for_loop (Z.to_nat (n + Z.abs lo + 1)) lo 1%Z
          (fun period => (period <? hi)%Z && (2 * period <? n)%Z)
          (fun period '(bestPeriod, bestCorrelation) =>
             let correlation :=
               Loop.for_loop (Z.to_nat (n - period)) 0%Z 1%Z
                 (fun i => (i <? n - period)%Z)
                 (fun i correlation =>
                    let sample1 := centered data i in
                    let sample2 := centered data (i + period) in
                    correlation + sample1 * sample2)
                 0 in
             if gt correlation bestCorrelation
             then (period, correlation)
             else (bestPeriod, bestCorrelation))
          (0%Z, 0)
    | _, _ => (0%Z, 0)
    end in
  if (0 <? bestPeriod)%Z then sampleRate / of_Z bestPeriod else 0.

Definition calculateClarity (frequencyData : list Z) : number :=
  let '(totalEnergy, peakEnergy, peakIndex, _) :=
    fold_left
      (fun '(totalEnergy, peakEnergy, peakIndex, i) b =>
         if (peakEnergy <? b)%Z
         then (totalEnergy + b, b, i, i + 1)%Z
         else (totalEnergy + b, peakEnergy, peakIndex, i + 1)%Z)
      frequencyData (0, 0, 0, 0)%Z in
  if (totalEnergy =? 0)%Z then 0
  else
    let concentrationRatio := of_Z peakEnergy / of_Z totalEnergy in
    let normalizedPeakPosition :=
      of_Z peakIndex / of_Z (Z.of_nat (List.length frequencyData)) in
    let speechRangeBonus :=
      if gt normalizedPeakPosition 0.1 && lt normalizedPeakPosition 0.7
      then 0.2 else 0 in
    Math_min 1 (concentrationRatio + speechRangeBonus).

Definition extractRealTimeFeatures (s : Service)
    (frequencyData timeDomainData : list Z) : Features.t :=
  let data := map of_Z timeDomainData in
  let n := Z.of_nat (List.length timeDomainData) in
  let volume :=
    fold_left (fun volume b => let sample := (b - 128) / 128 in
                               volume + sample * sample) data 0 in
  let volume := Math_sqrt (volume / of_Z n) in
  let pitch := calculateRealTimePitch s timeDomainData in
  let '(spectralCentroid, totalMagnitude, _) :=
    fold_left
      (fun '(spectralCentroid, totalMagnitude, i) magnitude =>
         (spectralCentroid + i * magnitude, totalMagnitude + magnitude, i + 1)%Z)
      frequencyData (0, 0, 0)%Z in
  let spectralCentroid :=
    if (0 <? totalMagnitude)%Z
    then of_Z spectralCentroid / of_Z totalMagnitude else 0 in
  let zeroCrossings :=
    Loop.for_loop (List.length timeDomainData) 1%Z 1%Z (fun i => (i <? n)%Z)
      (fun i zeroCrossings =>
         if negb (Bool.eqb (128 <=? nth (Z.to_nat i) timeDomainData 0)%Z
                           (128 <=? nth (Z.to_nat (i - 1)) timeDomainData 0)%Z)
         then (zeroCrossings + 1)%Z else zeroCrossings)
      0%Z in
  let zeroCrossingRate := of_Z zeroCrossings / of_Z (n - 1) in
  let clarity := calculateClarity frequencyData in
  let isSpeaking := gt volume (Config.sensitivity (config s)) in
  {| Features.volume := volume;
     Features.pitch := pitch;
     Features.spectralCentroid := spectralCentroid;
     Features.zeroCrossingRate := zeroCrossingRate;
     Features.clarity := clarity;
     Features.isSpeaking := isSpeaking |}.

(** *** The per-tick classifier *)

Definition bump := OfflineSpeech.bump.
Definition flag := OfflineSpeech.flag.

(** The raw confidence of [analyzeRealTimeSpeech], after the cap. *)
Definition rawConfidence (features : Features.t) : number :=
  let volume := Features.volume features in
  let pitch := Features.pitch features in
  let spectralCentroid := Features.spectralCentroid features in
  let clarity := Features.clarity features in
  let confidence := 0.5 in
  let confidence :=
    if Features.isSpeaking features then
      let confidence := bump (gt volume 0.1) 0.2 confidence in
      let confidence := bump (gt volume 0.2) 0.15 confidence in
      let confidence := bump (gt volume 0.3) 0.1 confidence in
      let confidence := bump (gt pitch 80 && lt pitch 400) 0.15 confidence in
      let confidence := bump (gt clarity 0.3) 0.1 confidence in
      let confidence := bump (gt clarity 0.5) 0.1 confidence in
      bump (gt spectralCentroid 20 && lt spectralCentroid 200) 0.1 confidence
    else 0.1 in
  Math_min 0.95 (Math_max 0.1 confidence).

(** [isSlurred] and [slurredReasons] of [analyzeRealTimeSpeech]. *)
Definition slurRules (features : Features.t) : bool * list string :=
  let volume := Features.volume features in
  let pitch := Features.pitch features in
  let spectralCentroid := Features.spectralCentroid features in
  let zeroCrossingRate := Features.zeroCrossingRate features in
  let clarity := Features.clarity features in
  let st := (false, []) in
  if Features.isSpeaking features then
    let st := flag (lt volume 0.05) "low volume" st in
    let st := flag (gt zeroCrossingRate 0.15) "high noise" st in
    let st := flag (lt spectralCentroid 10 || gt spectralCentroid 300)
                   "abnormal frequency" st in
    let st := flag (lt pitch 50 || gt pitch 600) "abnormal pitch" st in
    flag (lt clarity 0.2) "low clarity" st
  else st.

Definition analyzeRealTimeSpeech (features : Features.t) : Eff Result.t :=
  let isSpeaking := Features.isSpeaking features in
  let confidence := rawConfidence features in
  let '(isSlurred, slurredReasons) := slurRules features in
  transcription <-
    (if isSpeaking then
       random_element (if isSlurred then OfflineSpeech.slurredPhrases
                       else OfflineSpeech.normalPhrases)
     else ret "No speech detected"%string) ;;
  dev <- development ;;
  let transcription :=
    if dev && isSpeaking
    then (transcription ++ OfflineSpeech.debugSuffix slurredReasons)%string
    else transcription in
  now <- Date_now ;;
  ret {| Result.confidence := confidence;
         Result.isSlurred := isSlurred;
         Result.transcription := transcription;
         Result.timestamp := now;
         Result.volume := Features.volume features;
         Result.pitch := Features.pitch features;
         Result.clarity := Features.clarity features;
         Result.isSpeaking := isSpeaking |}.

(** *** Smoothing and the tick *)

Definition smoothResults (s : Service) (newResult : Result.t) : Result.t :=
  match rev (lastResults s) with
  | [] => newResult
  | lastResult :: _ =>
      let smoothingFactor := Config.smoothingFactor (config s) in
      let smooth (previous current : number) :=
        previous * smoothingFactor + current * (1 - smoothingFactor) in
      {| Result.confidence :=
           smooth (Result.confidence lastResult) (Result.confidence newResult);
         Result.isSlurred := Result.isSlurred newResult;
         Result.transcription := Result.transcription newResult;
         Result.timestamp := Result.timestamp newResult;
         Result.volume := smooth (Result.volume lastResult) (Result.volume newResult);
         Result.pitch := smooth (Result.pitch lastResult) (Result.pitch newResult);
         Result.clarity :=
           smooth (Result.clarity lastResult) (Result.clarity newResult);
         Result.isSpeaking := Result.isSpeaking newResult |}
  end.

(** [lastResults.push(r); if (lastResults.length > 10) lastResults.shift()] *)
Definition remember (r : Result.t) (history : list Result.t) : list Result.t :=
  let history := history ++ [r] in
  if (10 <? List.length history)%nat then tl history else history.

(** What the analyser hands out on one tick: the byte frequency data and
    the byte time-domain data, or a failed read. *)
Definition Snapshot := option (list Z * list Z).

Definition performRealTimeAnalysis (snapshot : Snapshot) (w : World) : World :=
  let s := service w in
  match analyser s with
  | None => w
  | Some _ =>
      if negb (isAnalyzing s) then w
      else
        match snapshot with
        | Some (dataArray, timeDomainArray) =>
            let features := extractRealTimeFeatures s dataArray timeDomainArray in
            let (result, e) := analyzeRealTimeSpeech features (env w) in
            let smoothedResult := smoothResults s result in
            let s' :=
              mkService (audioContext s) (analyser s) (microphone s) (stream s)
                        (isAnalyzing s) (analysisInterval s) (config s)
                        (remember smoothedResult (lastResults s))
                        (onResultCallback s) (onErrorCallback s) in
            let w' := mkWorld s' e (timers w) (next_handle w) (events w) (closing w) in
            match onResultCallback s with
            | Some cb => emit (ResultDelivered cb smoothedResult) w'
            | None => w'
            end
        | None =>
            let w' := emit (ConsoleError "Real-time analysis error:") w in
            match onErrorCallback s with
            | Some cb => emit (ErrorDelivered cb "read failed") w'
            | None => w'
            end
        end
  end.

(** The interval timer with handle [handle] fires: its handler runs only
    while the timer is armed. *)
Definition fire (handle : Z) (snapshot : Snapshot) (w : World) : World :=
  if existsb (Z.eqb handle) (timers w)
  then performRealTimeAnalysis snapshot w else w.

(** The end of [cleanup], from [this.audioContext = null] on: what runs
    after the [await], or at once when there is no audio context. *)
Definition releaseNodes (w : World) : World :=
  let s := service w in
  with_service w
    (mkService None None false (stream s) (isAnalyzing s) (analysisInterval s)
               (config s) [] (onResultCallback s) (onErrorCallback s)).

(** The call of [cleanup], up to its [await]: it stops the analysis and the
    stream; with an audio context it then waits for [close()], and the rest
    runs later, after whatever is called in between; without one it runs
    to its end. *)
Definition cleanup (w : World) : World :=
  let w1 := stopAnalysis w in
  let s := service w1 in
  let w2 :=
    with_service w1
      (mkService (audioContext s) (analyser s) (microphone s) false (isAnalyzing s)
                 (analysisInterval s) (config s) (lastResults s)
                 (onResultCallback s) (onErrorCallback s)) in
  match audioContext s with
  | Some _ =>
      mkWorld (service w2) (env w2) (timers w2) (next_handle w2) (events w2)
              (S (closing w2))
  | None => releaseNodes w2
  end.

(** A suspended [cleanup] resumes: [closed] tells whether [close()]
    resolved; when it rejected, the call ends there. *)
Definition cleanupResumes (closed : bool) (w : World) : World :=
  match closing w with
  | O => w
  | S waiting =>
      let w1 :=
        mkWorld (service w) (env w) (timers w) (next_handle w) (events w) waiting in
      if closed then releaseNodes w1 else w1
  end.

(** *** Driving the service *)

Inductive Op :=
| Initialize (granted : bool) (rate : number)
| StartAnalysis (onResult : Callback) (onError : option Callback)
| StopAnalysis
| Fire (handle : Z) (snapshot : Snapshot)
| Cleanup
| CleanupResumes (closed : bool).

Definition step (w : World) (op : Op) : World :=
  match op with
  | Initialize granted rate => initialize granted rate w
  | StartAnalysis onResult onError => startAnalysis onResult onError w
  | StopAnalysis => stopAnalysis w
  | Fire handle snapshot => fire handle snapshot w
  | Cleanup => cleanup w
  | CleanupResumes closed => cleanupResumes closed w
  end.

Definition run (ops : list Op) (w : World) : World := fold_left step ops w.

(** The results handed to result callbacks, in order. *)
Definition delivered (evs : list Event) : list Result.t :=
  flat_map (fun ev => match ev with
                      | ResultDelivered _ r => [r]
                      | _ => []
                      end) evs.

End RealTime.

(* ------------------------------------------------------------------ *)
(** ** The application store ([useAppStore])                            *)
(* ------------------------------------------------------------------ *)

Module AppStore.
Local Unset Implicit Arguments.

Inductive Screen := befast | time | analysis | hospitals.

Record Hospital := mkHospital {
  id : string;
  name : string;
  address : string;
  distance : JS.number;
  rating : JS.number;
  phone : option string;
  website : option string
}.

(** An [AIRiskScore] as the store holds it: [score] is any number (the
    analysis page's fallback stores a fractional one). *)
Record StoredRiskScore := mkStored {
  score : JS.number;
  level : RiskLevel;
  factors : list string;
  timestamp : Z
}.

(** The result of [calculateLocally] as a stored score; its integer score is
    the same number. *)
Definition of_local (r : AIRiskScore.t) : StoredRiskScore :=
  mkStored (JS.of_Z (AIRiskScore.score r)) (AIRiskScore.level r)
           (AIRiskScore.factors r) (AIRiskScore.timestamp r).

Record AppState := mkState {
  befastAnswers : BEFASTAnswers.t;
  faceAnalysis : option FaceAnalysisResult.t;
  speechAnalysis : option SpeechAnalysisResult.t;
  nearbyHospitals : list Hospital;
  aiRiskScore : option StoredRiskScore;
  isEmergencyMode : bool;
  currentScreen : Screen
}.

Definition initialBEFASTAnswers : BEFASTAnswers.t :=
  BEFASTAnswers.mk None None None None None.

Definition initialState : AppState :=
  mkState initialBEFASTAnswers None None [] None false befast.

Definition updateBEFASTAnswer (question : BEFASTAnswers.key) (answer : bool)
    (st : AppState) : AppState :=
  mkState (BEFASTAnswers.set question (Some answer) (befastAnswers st))
          (faceAnalysis st) (speechAnalysis st) (nearbyHospitals st)
          (aiRiskScore st) (isEmergencyMode st) (currentScreen st).

Definition setFaceAnalysis (a : FaceAnalysisResult.t) (st : AppState) : AppState :=
  mkState (befastAnswers st) (Some a) (speechAnalysis st) (nearbyHospitals st)
          (aiRiskScore st) (isEmergencyMode st) (currentScreen st).

Definition setSpeechAnalysis (a : SpeechAnalysisResult.t) (st : AppState) : AppState :=
  mkState (befastAnswers st) (faceAnalysis st) (Some a) (nearbyHospitals st)
          (aiRiskScore st) (isEmergencyMode st) (currentScreen st).

Definition setNearbyHospitals (hs : list Hospital) (st : AppState) : AppState :=
  mkState (befastAnswers st) (faceAnalysis st) (speechAnalysis st) hs
          (aiRiskScore st) (isEmergencyMode st) (currentScreen st).

Definition setAIRiskScore (sc : StoredRiskScore) (st : AppState) : AppState :=
  let st1 :=
    mkState (befastAnswers st) (faceAnalysis st) (speechAnalysis st)
            (nearbyHospitals st) (Some sc) (isEmergencyMode st) (currentScreen st) in
  if JS.gt (score sc) 70 then
    mkState (befastAnswers st1) (faceAnalysis st1) (speechAnalysis st1)
            (nearbyHospitals st1) (aiRiskScore st1) true time
  else st1.

Definition setEmergencyMode (isEmergency : bool) (st : AppState) : AppState :=
  mkState (befastAnswers st) (faceAnalysis st) (speechAnalysis st)
          (nearbyHospitals st) (aiRiskScore st) isEmergency (currentScreen st).

Definition setCurrentScreen (screen : Screen) (st : AppState) : AppState :=
  mkState (befastAnswers st) (faceAnalysis st) (speechAnalysis st)
          (nearbyHospitals st) (aiRiskScore st) (isEmergencyMode st) screen.

Definition resetApp (st : AppState) : AppState := initialState.

Definition checkForEmergency (st : AppState) : bool :=
  let hasPositiveBEFAST :=
    existsb BEFASTAnswers.is_true (BEFASTAnswers.values (befastAnswers st)) in
  let highRiskScore :=
    match aiRiskScore st with
    | Some sc => JS.gt (score sc) 70
    | None => false
    end in
  hasPositiveBEFAST || highRiskScore || false.

(** The store's actions, for driving it. *)
Inductive Action :=
| UpdateBEFASTAnswer (question : BEFASTAnswers.key) (answer : bool)
| SetFaceAnalysis (a : FaceAnalysisResult.t)
| SetSpeechAnalysis (a : SpeechAnalysisResult.t)
| SetNearbyHospitals (hs : list Hospital)
| SetAIRiskScore (sc : StoredRiskScore)
| SetEmergencyMode (isEmergency : bool)
| SetCurrentScreen (screen : Screen)
| ResetApp.

Definition dispatch (st : AppState) (a : Action) : AppState :=
  match a with
  | UpdateBEFASTAnswer question answer => updateBEFASTAnswer question answer st
  | SetFaceAnalysis a => setFaceAnalysis a st
  | SetSpeechAnalysis a => setSpeechAnalysis a st
  | SetNearbyHospitals hs => setNearbyHospitals hs st
  | SetAIRiskScore sc => setAIRiskScore sc st
  | SetEmergencyMode isEmergency => setEmergencyMode isEmergency st
  | SetCurrentScreen screen => setCurrentScreen screen st
  | ResetApp => resetApp st
  end.

End AppStore.

(* ------------------------------------------------------------------ *)
(** ** [faceAnalysis.ts]                                                *)
(* ------------------------------------------------------------------ *)

Module FaceAnalysis.
Import JS.
Local Unset Implicit Arguments.
Local Open Scope float_scope.

Record FaceLandmarks := mkLandmark { x : number; y : number; z : number }.

(** [None] stands for the TypeError of reading [.x] of a landmark the
    array does not have. *)
Definition calculateFacialAsymmetry (landmarks : list FaceLandmarks) : option number :=
  let LEFT_EYE := 33%nat in
  let RIGHT_EYE := 362%nat in
  let LEFT_MOUTH := 61%nat in
  let RIGHT_MOUTH := 291%nat in
  let NOSE_TIP := 1%nat in
  let CHIN := 18%nat in
  match nth_error landmarks LEFT_EYE, nth_error landmarks RIGHT_EYE,
        nth_error landmarks LEFT_MOUTH, nth_error landmarks RIGHT_MOUTH,
        nth_error landmarks NOSE_TIP, nth_error landmarks CHIN with
  | Some leftEye, Some rightEye, Some leftMouth, Some rightMouth,
    Some noseTip, Some chin =>
      let eyeAsymmetry := abs (x leftEye - (1 - x rightEye)) * 100 in
      let mouthAsymmetry := abs (x leftMouth - (1 - x rightMouth)) * 100 in
      let faceCenter := (x noseTip + x chin) / 2 in
      let faceAsymmetry := abs (faceCenter - 0.5) * 100 in
      let totalAsymmetry :=
        (eyeAsymmetry * 0.4) + (mouthAsymmetry * 0.4) + (faceAsymmetry * 0.2) in
      Some (Math_min totalAsymmetry 100)
  | _, _, _, _, _, _ => None
  end.







End FaceAnalysis.

(* ------------------------------------------------------------------ *)
(** ** The OpenAI analysis service: [fallbackAnalysis]                  *)
(* ------------------------------------------------------------------ *)

Module AIAnalysis.
Import JS.
Local Unset Implicit Arguments.

Inductive Level := LOW | MODERATE | HIGH | CRITICAL.

Record AIAnalysisResult := mkResult {
  riskLevel : Level;
  confidence : number;
  recommendations : list string;
  emergencyAction : bool;
  analysis : string;
  timestamp : Z
}.

(** [Object.entries(answers)] of the store's answers. *)
Definition entries (a : BEFASTAnswers.t) : list (string * option bool) :=
  [("balance", BEFASTAnswers.balance a); ("eyes", BEFASTAnswers.eyes a);
   ("face", BEFASTAnswers.face a); ("arms", BEFASTAnswers.arms a);
   ("speech", BEFASTAnswers.speech a)]%string.

Section WithToUpperCase.
(** [s.toUpperCase()], the engine's case mapping. *)
Variable toUpperCase : string -> string.

Definition fallbackAnalysis (befastAnswers : list (string * option bool))
    (analysisResults : AssessmentPage.AnalysisResults) : Eff AIAnalysisResult :=
  let positiveAnswers :=
    map fst (filter (fun '(_, answer) => BEFASTAnswers.is_true answer) befastAnswers) in
  let n := List.length positiveAnswers in
  let '(riskLevel, emergencyAction, recommendations, analysis) :=
    if (n =? 0)%nat then
      (LOW, false,
       ["Continue monitoring your health"; "Schedule regular check-ups"]%string,
       "No stroke symptoms detected in your assessment."%string)
    else if (n =? 1)%nat then
      (MODERATE, false,
       ["Monitor symptoms closely"; "Consider consulting a healthcare provider"]%string,
       ("One potential stroke symptom detected: "
          ++ toUpperCase (nth 0 positiveAnswers EmptyString) ++ ".")%string)
    else
      (HIGH, true,
       ["Call 108 immediately"; "Do not drive yourself to the hospital";
        "Note the time when symptoms started"]%string,
       ("Multiple stroke symptoms detected: "
          ++ join ", " (map toUpperCase positiveAnswers) ++ ".")%string) in
  let faceHigh :=
    match AssessmentPage.face analysisResults with
    | Some fa => gt (FaceAnalysisResult.asymmetry fa) 0.3
    | None => false
    end in
  let speechSlurred :=
    match AssessmentPage.speech analysisResults with
    | Some sa => SpeechAnalysisResult.isSlurred sa
    | None => false
    end in
  let '(riskLevel, emergencyAction, recommendations, analysis) :=
    if faceHigh || speechSlurred then
      (HIGH, true,
       ["Call 108 immediately"; "Seek immediate medical attention"]%string,
       (analysis ++ " AI analysis confirms potential stroke symptoms.")%string)
    else (riskLevel, emergencyAction, recommendations, analysis) in
  now <- Date_now ;;
  ret (mkResult riskLevel 0.8%float recommendations emergencyAction analysis now).

End WithToUpperCase.

End AIAnalysis.

(* ------------------------------------------------------------------ *)
(** ** [aiAdvisor.ts]: [analyzeRisk]                                    *)
(* ------------------------------------------------------------------ *)

Module AIAdvisorService.
Import JS.
Local Unset Implicit Arguments.

(** The [score] member of the parsed reply: missing (or [null]), a number,
    or any other value, of which the code only uses the truthiness and the
    number [Math.max] converts it to. *)
Inductive ScoreField :=
| Absent
| Num (n : number)
| Other (truthy : bool) (asNumber : number).

Record AiResult := mkAiResult {
  score : ScoreField;
  level : option string;
  factors : option (list string)
}.

(** What the completion request comes to: the fetch throws, the status is
    not ok, there is no message content, the content does not parse, it
    parses to [null], or it parses to a value with the members above. *)
Inductive Reply :=
| FetchFails
| NotOk (status : Z)
| NoContent
| ParseFails
| ParsedNull
| Parsed (aiResult : AiResult).

(** The result: the local calculation's, or the remote one's, whose [level]
    is whatever string the reply carried. *)
Inductive Outcome :=
| Local (r : AIRiskScore.t)
| Remote (score : number) (level : string) (factors : list string) (timestamp : Z).

(** [aiResult.score || 0], as [Math.max] reads it. *)
Definition score_or_zero (f : ScoreField) : number :=
  match f with
  | Absent => 0%float
  | Num n => or_zero n
  | Other truthy asNumber => if truthy then asNumber else 0%float
  end.

Section WithToFixed.
Variable toFixed1 : number -> string.

Definition calculateLocally_outcome (data : AiAdvisor.AnalysisData) : Eff Outcome :=
  r <- AiAdvisor.calculateLocally toFixed1 data ;;
  ret (Local r).

Definition analyzeRisk (apiKey : string) (reply : Reply)
    (data : AiAdvisor.AnalysisData) : Eff Outcome :=
  if String.eqb apiKey EmptyString then calculateLocally_outcome data
  else
    match reply with
    | Parsed aiResult =>
        now <- Date_now ;;
        ret (Remote (Math_min (Math_max (score_or_zero (score aiResult)) 0) 100)
                    (match level aiResult with
                     | Some l => if String.eqb l EmptyString then "LOW"%string else l
                     | None => "LOW"%string
                     end)
                    (match factors aiResult with
                     | Some fs => fs
                     | None => []
                     end)
                    now)
    | _ => calculateLocally_outcome data
    end.

End WithToFixed.

End AIAdvisorService.

(* ------------------------------------------------------------------ *)
(** ** The offline service's [analyzeSpeech] and its simulation         *)
(* ------------------------------------------------------------------ *)

Module OfflineService.
Import JS.
Local Unset Implicit Arguments.
Local Open Scope float_scope.

Definition normalTranscriptions : list string :=
  ["Hello, I am speaking clearly";
   "I can talk normally right now";
   "My speech is fine today";
   "I don't have any problems speaking";
   "Everything sounds normal to me"]%string.

Definition slurredTranscriptions : list string :=
  ["I can't speak clearly right now";
   "My words are coming out wrong";
   "Something is wrong with my speech";
   "I feel like I'm slurring my words";
   "Help me, I can't talk properly"]%string.

Definition simulateSpeechAnalysis : Eff SpeechAnalysisResult.t :=
  r1 <- Math_random ;;
  let isSlurred := lt r1 0.25 in
  let transcriptions := if isSlurred then slurredTranscriptions else normalTranscriptions in
  transcription <- random_element transcriptions ;;
  r3 <- Math_random ;;
  let confidence := if isSlurred then 0.45 + r3 * 0.25 else 0.75 + r3 * 0.15 in
  now <- Date_now ;;
  ret (SpeechAnalysisResult.mk confidence isSlurred transcription now).

(** [try { body } catch { handler }], where [None] is a thrown exception. *)
Definition try_catch {A : Type} (body : Eff (option A)) (handler : Eff A) : Eff A :=
  fun e => match body e with
           | (Some a, e') => (a, e')
           | (None, e') => handler e'
           end.

Section WithEngine.
Variable Math_cos : number -> number.

(** [decoded] is what [decodeAudioData] resolves to; [None] when reading or
    decoding the blob throws (or no audio context could be made). *)
Definition analyzeSpeech (decoded : option AudioBuffer.t) : Eff SpeechAnalysisResult.t :=
  try_catch
    (match decoded with
     | None => ret None
     | Some audioBuffer =>
         let features := OfflineSpeech.extractAudioFeatures Math_cos audioBuffer in
         analysis <- OfflineSpeech.analyzeSpeechPatterns features ;;
         now <- Date_now ;;
         ret (Some (SpeechAnalysisResult.mk (OfflineSpeech.confidence analysis)
                                            (OfflineSpeech.isSlurred analysis)
                                            (OfflineSpeech.transcription analysis)
                                            now))
     end)
    simulateSpeechAnalysis.

End WithEngine.

End OfflineService.

(* ------------------------------------------------------------------ *)
(** ** The speech service's real-time methods                           *)
(* ------------------------------------------------------------------ *)

Module SpeechService.
Import JS RealTime.
Local Unset Implicit Arguments.

(** [await initialize(); startAnalysis(onResult, onError)], with the catch
    that reports a failed initialisation to [onError]. *)
Definition startRealTimeAnalysis (granted : bool) (rate : number)
    (onResult : Callback) (onError : option Callback) (w : World) : World :=
  let w1 := initialize granted rate w in
  if granted then startAnalysis onResult onError w1
  else
    let w2 := emit (ConsoleError "Failed to start real-time analysis:") w1 in
    match onError with
    | Some cb => emit (ErrorDelivered cb "Microphone access denied or not available") w2
    | None => w2
    end.

Definition stopRealTimeAnalysis (w : World) : World := stopAnalysis w.

Definition cleanupRealTimeAnalysis (w : World) : World := cleanup w.

End SpeechService.

(* ------------------------------------------------------------------ *)
(** ** The neurologist search route: [GET]                              *)
(* ------------------------------------------------------------------ *)

Module PlacesRoute.
Import JS.
Local Unset Implicit Arguments.

(** The members of a place that the route and its mock data carry. *)
#[warnings="-register-all"]
Inductive Value :=
| Str (s : string)
| Number (n : number)
| Boolean (b : bool)
| Object (members : list (string * Value)).

(** A place: an object, its members in insertion order. *)
Definition Place := list (string * Value).

Fixpoint lookup (k : string) (o : Place) : option Value :=
  match o with
  | [] => None
  | (k', v) :: rest => if String.eqb k k' then Some v else lookup k rest
  end.

Definition has (k : string) (o : Place) : bool :=
  match lookup k o with
  | Some _ => true
  | None => false
  end.

(** [{ ...a, ...b }]: the members of [a] in place, with the values [b] gives
    them, then the members only [b] has. *)
Definition spread (a b : Place) : Place :=
  map (fun '(k, v) => (k, match lookup k b with
                          | Some v' => v'
                          | None => v
                          end)) a
  ++ filter (fun '(k, _) => negb (has k a)) b.

(** What the text search comes to: the fetch or the reading of its body
    throws (with the error's message, when it is an [Error]), the response is
    not ok (with its status as the template prints it), or it carries a body
    with a [status] (a missing one reads as the text "undefined") and maybe
    [results]. *)
Inductive Search :=
| SearchThrows (message : option string)
| SearchNotOk (status : string)
| SearchData (status : string) (results : option (list Place)).

(** What one details request comes to. *)
Inductive Details :=
| DetailsThrows
| DetailsNotOk
| DetailsData (status : string) (result : option Place).

Inductive Body :=
| Failed (error : string) (success : option bool)
| Found (neurologists : list Place) (count : nat) (mock : bool).

Record Response := mkResponse {
  status : Z;
  body : Body
}.

(** [!s] on what [searchParams.get] or [process.env] gives. *)
Definition missing (s : option string) : bool :=
  match s with
  | None => true
  | Some v => String.eqb v EmptyString
  end.

Definition mockNeurologists : list Place :=
  [ [("name", Str "Dr. Rajesh Kumar - Neurologist");
     ("place_id", Str "mock_1");
     ("vicinity", Str "Electronics City Phase 1");
     ("rating", Number 4.7%float);
     ("user_ratings_total", Number 124%float);
     ("formatted_address", Str "Fortis Hospital, Electronics City Phase 1, Bangalore");
     ("formatted_phone_number", Str "+91 80 6621 4444");
     ("website", Str "https://www.fortishealthcare.com");
     ("opening_hours", Object [("open_now", Boolean true)])];
    [("name", Str "Dr. Priya Sharma - Neurology Specialist");
     ("place_id", Str "mock_2");
     ("vicinity", Str "Electronics City Phase 1");
     ("rating", Number 4.5%float);
     ("user_ratings_total", Number 89%float);
     ("formatted_address", Str "Apollo Hospitals, Electronics City Phase 1, Bangalore");
     ("formatted_phone_number", Str "+91 80 2630 4050");
     ("website", Str "https://www.apollohospitals.com");
     ("opening_hours", Object [("open_now", Boolean true)])];
    [("name", Str "Dr. Suresh Reddy - Stroke Specialist");
     ("place_id", Str "mock_3");
     ("vicinity", Str "Electronics City Phase 1");
     ("rating", Number 4.8%float);
     ("user_ratings_total", Number 156%float);
     ("formatted_address", Str "Manipal Hospitals, Electronics City Phase 1, Bangalore");
     ("formatted_phone_number", Str "+91 80 2502 4444");
     ("website", Str "https://www.manipalhospitals.com");
     ("opening_hours", Object [("open_now", Boolean false)])];
    [("name", Str "Dr. Anitha Menon - Neurologist");
     ("place_id", Str "mock_4");
     ("vicinity", Str "Electronics City Phase 1");
     ("rating", Number 4.6%float);
     ("user_ratings_total", Number 98%float);
     ("formatted_address", Str "Narayana Health City, Electronics City Phase 1, Bangalore");
     ("formatted_phone_number", Str "+91 80 2222 9999");
     ("website", Str "https://www.narayanahealth.org");
     ("opening_hours", Object [("open_now", Boolean true)])];
    [("name", Str "Dr. Vikram Singh - Neurology Consultant");
     ("place_id", Str "mock_5");
     ("vicinity", Str "Electronics City Phase 1");
     ("rating", Number 4.4%float);
     ("user_ratings_total", Number 67%float);
     ("formatted_address", Str "Columbia Asia Hospital, Electronics City Phase 1, Bangalore");
     ("formatted_phone_number", Str "+91 80 4179 9999");
     ("website", Str "https://www.columbiaasia.com");
     ("opening_hours", Object [("open_now", Boolean true)])] ]%string.

(** The route's [catch]. *)
Definition failure (message : option string) : Response :=
  mkResponse 500
    (Failed (match message with
             | Some m => m
             | None => "Failed to search for neurologists"%string
             end)
            (Some false)).

(** The callback of the [map] over the first ten results; [details] is what
    the details request for a [place_id] comes to. *)
Definition withDetails (details : option Value -> Details) (neurologist : Place) : Place :=
  match details (lookup "place_id" neurologist) with
  | DetailsData st result =>
      if String.eqb st "OK" then
        spread neurologist (match result with
                            | Some r => r
                            | None => []
                            end)
      else neurologist
  | DetailsNotOk | DetailsThrows => neurologist
  end.

(** [GET].  The [query] and [radius] parameters only shape the search URL,
    of which the model takes the reply, so they are no arguments here. *)
Definition GET (location apiKey : option string) (search : Search)
    (details : option Value -> Details) : Response :=
  if missing apiKey then
    mkResponse 500 (Failed "Google Places API key not configured" None)
  else if missing location then
    mkResponse 400 (Failed "Location parameter is required" None)
  else
    match search with
    | SearchThrows message => failure message
    | SearchNotOk st => failure (Some ("Google Places API error: " ++ st)%string)
    | SearchData st results =>
        if negb (String.eqb st "OK") && negb (String.eqb st "ZERO_RESULTS") then
          if String.eqb st "REQUEST_DENIED" || String.eqb st "INVALID_REQUEST" then
            mkResponse 200 (Found mockNeurologists 5 true)
          else failure (Some ("Google Places API error: " ++ st)%string)
        else
          let neurologists := match results with
                              | Some rs => rs
                              | None => []
                              end in
          let neurologists :=
            if (0 <? List.length neurologists)%nat
            then map (withDetails details) (firstn 10 neurologists)
            else neurologists in
          mkResponse 200 (Found neurologists (List.length neurologists) false)
    end.

End PlacesRoute.

(* ================================================================== *)
(** * The properties' vocabulary                                        *)
(* ================================================================== *)

(** ** Risk scoring, in the words of the specification *)

Module RiskSpec.
Import AiAdvisor.

(** The score as the specification words it. *)
Definition b2z (b : bool) : Z := if b then 1 else 0.

Definition count_true (a : BEFASTAnswers.t) : Z :=
  b2z (BEFASTAnswers.is_true (BEFASTAnswers.balance a))
  + b2z (BEFASTAnswers.is_true (BEFASTAnswers.eyes a))
  + b2z (BEFASTAnswers.is_true (BEFASTAnswers.face a))
  + b2z (BEFASTAnswers.is_true (BEFASTAnswers.arms a))
  + b2z (BEFASTAnswers.is_true (BEFASTAnswers.speech a)).

Definition asymmetry_bonus (f : option FaceAnalysisResult.t) : Z :=
  match f with
  | Some fa =>
      if JS.gt (FaceAnalysisResult.asymmetry fa) 30 then 30
      else if JS.gt (FaceAnalysisResult.asymmetry fa) 15 then 15
      else 0
  | None => 0
  end.

Definition speech_bonus (s : option SpeechAnalysisResult.t) : Z :=
  match s with
  | Some sa =>
      (if SpeechAnalysisResult.isSlurred sa then 25 else 0)
      + (if JS.lt (SpeechAnalysisResult.confidence sa) 0.7 then 10 else 0)
  | None => 0
  end.

Definition raw_score (data : AnalysisData) : Z :=
  20 * count_true (befastAnswers data)
  + asymmetry_bonus (faceAnalysis data)
  + speech_bonus (speechAnalysis data).

Definition clamp (lo hi x : Z) : Z := Z.max lo (Z.min x hi).

(** The 70/40 threshold table. *)
Definition level_70_40 (score : Z) : RiskLevel :=
  if 70 <=? score then HIGH else if 40 <=? score then MEDIUM else LOW.

(** The 50/25 threshold table. *)
Definition level_50_25 (score : Z) : RiskLevel :=
  if 50 <=? score then HIGH else if 25 <=? score then MEDIUM else LOW.

(** [data] with one more answer set. *)
Definition answer (k : BEFASTAnswers.key) (v : option bool) (data : AnalysisData)
  : AnalysisData :=
  mkData (BEFASTAnswers.set k v (befastAnswers data))
         (faceAnalysis data) (speechAnalysis data).

(** Sample inputs: two positive answers with 35% asymmetry and slurred,
    low-confidence speech; and three positive answers with no analysis. *)
Definition sample_toFixed1 (x : JS.number) : string := "35.0".

Definition sample_env : JS.Env :=
  JS.mkEnv 1700000000000 (fun _ => 0.5%float) "production".

Definition scenario_face : FaceAnalysisResult.t :=
  FaceAnalysisResult.mk 35%float 0.9%float 1700000000000.

Definition scenario_speech : SpeechAnalysisResult.t :=
  SpeechAnalysisResult.mk 0.5%float true "My words are coming out wrong" 1700000000000.

Definition scenario_data : AnalysisData :=
  mkData (BEFASTAnswers.mk (Some true) (Some false) (Some true) None (Some false))
         (Some scenario_face) (Some scenario_speech).

Definition three_positive : BEFASTAnswers.t :=
  BEFASTAnswers.mk (Some true) (Some true) (Some true) (Some false) None.

Definition all_false_data : AnalysisData :=
  mkData (BEFASTAnswers.mk (Some false) (Some false) (Some false) (Some false)
                           (Some false)) None None.

Definition one_positive_data : AnalysisData :=
  mkData (BEFASTAnswers.mk (Some true) (Some false) None None None) None None.

End RiskSpec.

(** ** Speech analysis: sample inputs and ranges *)

Module SpeechSpec.
Import JS.

(** [lo <= x <= hi] on numbers (false on NaN). *)
Definition within (lo hi x : number) : bool := ((lo <=? x) && (x <=? hi))%float.
Arguments within (lo hi x)%_float.


(** Every sample is a zero ([sample === 0], of either sign). *)
Definition silent (samples : list number) : bool := forallb PrimFloat.is_zero samples.


(** A silent buffer of three samples at 8 kHz. *)
Definition silent_buffer : AudioBuffer.t :=
  AudioBuffer.mk 0.000375%float 8000%float 1 [0; 0; 0]%float.

(** Three samples at 8 kHz, one of them at full scale. *)
Definition clipped_buffer : AudioBuffer.t :=
  AudioBuffer.mk 0.000375%float 8000%float 1 [0.5; -1; 0]%float.

(** A stand-in for the engine's cosine where a concrete one is needed (no
    window is ever computed on the short sample buffers above). *)
Definition sample_cos (x : number) : number := 1%float.

Definition quiet_features : RealTime.Features.t :=
  RealTime.Features.mk 0.02%float 0%float 3%float 0.4%float 0.1%float false.

Definition development_env : Env := mkEnv 1700000000000 (fun _ => 0.5%float) "development".

Definition production_env (r : number) : Env := mkEnv 1700000000000 (fun _ => r) "production".

Definition clear_features : AudioFeatures.t :=
  AudioFeatures.mk 1.5%float 44100%float 1 0.3%float 1000%float 0.05%float 200%float [].

End SpeechSpec.

(** ** The real-time loop: vocabulary and sample ticks *)

Module RealTimeSpec.
Import JS RealTime.

(** [previous*smoothingFactor + current*(1-smoothingFactor)] *)
Definition smoothed (smoothingFactor previous current : number) : number :=
  (previous * smoothingFactor + current * (1 - smoothingFactor))%float.
Arguments smoothed (smoothingFactor previous current)%_float.

(** The most recent entry of the history, [history[history.length - 1]]. *)
Definition last_result (history : list Result.t) : option Result.t :=
  nth_error history (List.length history - 1).

(** What the classifier says on a tick before any smoothing. *)
Definition raw_result (w : World) (frequencyData timeDomainData : list Z) : Result.t :=
  fst (analyzeRealTimeSpeech
         (extractRealTimeFeatures (service w) frequencyData timeDomainData) (env w)).

Definition raw_verdict (s : Service) (snapshot : list Z * list Z) : bool :=
  fst (slurRules (extractRealTimeFeatures s (fst snapshot) (snd snapshot))).

(** The timer with handle [handle] fires once per snapshot. *)
Definition ticks (handle : Z) (snapshots : list (list Z * list Z)) : list Op :=
  map (fun snapshot => Fire handle (Some snapshot)) snapshots.

(** The loop is running: analyser present, flag set, a result callback
    registered and its timer armed. *)
Definition running (w : World) (handle : Z) (cb : Callback) : Prop :=
  analyser (service w) <> None
  /\ isAnalyzing (service w) = true
  /\ onResultCallback (service w) = Some cb
  /\ In handle (timers w).

(** One armed timer while analyzing, none otherwise; handles are positive. *)
Definition one_timer (w : World) : Prop :=
  0 < next_handle w
  /\ (if isAnalyzing (service w)
      then exists handle,
             0 < handle < next_handle w
             /\ analysisInterval (service w) = Some handle
             /\ timers w = [handle]
      else analysisInterval (service w) = None /\ timers w = []).

(** A loud square wave of period 112 samples (393.75 Hz at 44.1 kHz). *)
Definition square_wave : list Z :=
  List.concat (repeat (repeat 255 56 ++ repeat 0 56) 2) ++ repeat 255 6.

(** A spectrum of 230 bins with all its energy in bin [k]. *)
Definition spectrum_peak_at (k : nat) : list Z :=
  repeat 0 k ++ [255] ++ repeat 0 (229 - k).

Definition clear_tick : list Z * list Z := (spectrum_peak_at 50, square_wave).
Definition muffled_tick : list Z * list Z := (spectrum_peak_at 5, square_wave).

Definition sample_env : Env := mkEnv 1700000000000 (fun _ => 0.5%float) "production".

(** A service that was initialised at 44.1 kHz and started once, with
    result callback 1 and error callback 2. *)
Definition started_world (smoothingFactor : number) : World :=
  run [Initialize true 44100%float; StartAnalysis 1%nat (Some 2%nat)]
      (new_world (Config.mk 200 1024 0.3%float smoothingFactor) sample_env).
Arguments started_world smoothingFactor%_float.

End RealTimeSpec.

(** ** Further vocabulary: the page's score, level order, sample data *)

Module ScoringSpec.
Import RiskSpec.
Local Unset Implicit Arguments.

(** The assessment page's asymmetry tiers. *)
Definition page_asymmetry_bonus (f : option FaceAnalysisResult.t) : Z :=
  match f with
  | Some fa =>
      if JS.gt (FaceAnalysisResult.asymmetry fa) 15 then 25
      else if JS.gt (FaceAnalysisResult.asymmetry fa) 10 then 15
      else 0
  | None => 0
  end.

Definition page_score (a : BEFASTAnswers.t) (res : AssessmentPage.AnalysisResults) : Z :=
  20 * count_true a
  + page_asymmetry_bonus (AssessmentPage.face res)
  + speech_bonus (AssessmentPage.speech res).

(** LOW < MEDIUM < HIGH. *)
Definition level_rank (l : RiskLevel) : Z :=
  match l with LOW => 0 | MEDIUM => 1 | HIGH => 2 end.

(** The page's view of the data the advisor scores. *)
Definition page_results (data : AiAdvisor.AnalysisData) : AssessmentPage.AnalysisResults :=
  AssessmentPage.mkResults (AiAdvisor.faceAnalysis data) (AiAdvisor.speechAnalysis data).

(** Some answer is [true]. *)
Definition some_positive (a : BEFASTAnswers.t) : Prop :=
  exists k, BEFASTAnswers.get k a = Some true.

(** Two positive answers and 31% asymmetry: the local score is exactly 70. *)
Definition seventy_data : AiAdvisor.AnalysisData :=
  AiAdvisor.mkData
    (BEFASTAnswers.mk (Some true) (Some true) (Some false) None None)
    (Some (FaceAnalysisResult.mk 31%float 0.9%float 1700000000000)) None.

Definition sample_upper (s : string) : string := s.

End ScoringSpec.

(** ** Faces: sample landmarks *)

Module FaceSpec.
Import FaceAnalysis.
Local Unset Implicit Arguments.

(** The highest landmark index [calculateFacialAsymmetry] reads. *)
Definition last_anchor : nat := 362.

Definition centre : FaceLandmarks := mkLandmark 0.5%float 0.5%float 0%float.

(** A mesh whose landmarks all sit on the vertical centre line. *)
Definition centred_mesh : list FaceLandmarks := repeat centre 468.

(** A mesh that stops short of the right eye corner. *)
Definition short_mesh : list FaceLandmarks := repeat centre 300.


End FaceSpec.

(** ** Speech: reason vocabularies and sample buffers *)

Module SpeechFactsSpec.
Import JS.
Local Unset Implicit Arguments.

(** The reasons the single-shot classifier can record. *)
Definition offline_reasons : list string :=
  ["low volume"; "high noise"; "abnormal frequency"; "too short"; "too long";
   "abnormal pitch"]%string.

(** The reasons the real-time classifier can record. *)
Definition realtime_reasons : list string :=
  ["low volume"; "high noise"; "abnormal frequency"; "abnormal pitch";
   "low clarity"]%string.

(** A loud alternating signal of 1000 samples lasting one second. *)
Definition loud_short_buffer : AudioBuffer.t :=
  AudioBuffer.mk 1%float 1000%float 1
    (List.concat (repeat [0.5%float; (-0.5)%float] 500)).

(** A buffer of two full analysis windows and a bit: 2100 samples. *)
Definition long_silence : list number := repeat 0%float 2100.

Definition other_env : Env := mkEnv 42 (fun _ => 0.9%float) "development".

(** The shortest and longest period, in samples, of the 80-400 Hz band. *)
Definition min_period (sampleRate : number) : option Z :=
  to_Z (Math_floor (sampleRate / 400)%float).

Definition max_period (sampleRate : number) : option Z :=
  to_Z (Math_floor (sampleRate / 80)%float).

End SpeechFactsSpec.

(** ** The real-time loop: more vocabulary *)

Module LoopFactsSpec.
Import JS RealTime.
Local Unset Implicit Arguments.

(** Timers firing, each with what the analyser hands out. *)
Definition fires (fs : list (Z * Snapshot)) : list Op :=
  map (fun '(handle, snapshot) => Fire handle snapshot) fs.

(** While idle the service remembers no results. *)
Definition idle_history (w : World) : Prop :=
  isAnalyzing (service w) = false -> lastResults (service w) = [].

(** A world whose service was initialised but never started. *)
Definition initialised_world : World :=
  run [Initialize true 48000%float] (new_world Config.default RealTimeSpec.sample_env).

(** A snapshot of digital silence: every time-domain byte is 128. *)
Definition silent_tick : list Z * list Z := (repeat 0 230, repeat 128 230).

(** A [cleanup] that nothing interrupts: what it left for after the
    [await] runs next. *)
Definition uninterruptedCleanup (w : World) : World :=
  run [Cleanup; CleanupResumes true] w.

(** A stopped service with its nodes and its stream released. *)
Definition released (w : World) : World :=
  let w1 := stopAnalysis w in
  let s := service w1 in
  with_service w1
    (mkService None None false false (isAnalyzing s) (analysisInterval s) (config s) []
               (onResultCallback s) (onErrorCallback s)).

(** A [cleanup] during whose wait for [close()] the analysis is started. *)
Definition startDuringCleanup (onResult : Callback) (onError : option Callback)
    (w : World) : World :=
  run [Cleanup; StartAnalysis onResult onError; CleanupResumes true] w.

(** A service that is initialised at 44.1 kHz and analyzing. *)
Definition analyzing_ops : list Op :=
  [Initialize true 44100%float; StartAnalysis 1%nat (Some 2%nat)].

End LoopFactsSpec.

Module AdvisorSpec.
Import JS AIAdvisorService.
Local Unset Implicit Arguments.

(** The request gave a parsed value to read members from. *)
Definition parsed (reply : Reply) : bool :=
  match reply with
  | Parsed _ => true
  | _ => false
  end.

(** The score of a remote result. *)
Definition remote_score (o : Outcome) : option number :=
  match o with
  | Remote s _ _ _ => Some s
  | Local _ => None
  end.

(** The level of a remote result. *)
Definition remote_level (o : Outcome) : option string :=
  match o with
  | Remote _ l _ _ => Some l
  | Local _ => None
  end.

(** The score member is missing or a number. *)
Definition numeric (f : ScoreField) : bool :=
  match f with
  | Absent | Num _ => true
  | Other _ _ => false
  end.

(** A reply whose score is far above the range and whose level is empty. *)
Definition eager_reply : Reply :=
  Parsed (mkAiResult (Num 250%float) (Some EmptyString) None).

(** A reply that calls a score of 5 critical. *)
Definition alarmed_result : AiResult :=
  mkAiResult (Num 5%float) (Some "CRITICAL"%string) None.

End AdvisorSpec.

Module RouteSpec.
Import PlacesRoute.
Local Unset Implicit Arguments.

(** The members of a place with the details merged in: the details' value
    where they have the member, the search result's otherwise. *)
Definition merged (neurologist : Place) (details : option Value -> Details)
    (k : string) : option Value :=
  match details (lookup "place_id" neurologist) with
  | DetailsData st (Some result) =>
      if String.eqb st "OK" then
        match lookup k result with
        | Some v => Some v
        | None => lookup k neurologist
        end
      else lookup k neurologist
  | _ => lookup k neurologist
  end.

(** A search result and a details reply that renames it and adds a phone. *)
Definition clinic : Place :=
  [("place_id", Str "p1"); ("name", Str "Clinic")]%string.

Definition clinic_details (id : option Value) : Details :=
  match id with
  | Some (Str "p1") =>
      DetailsData "OK" (Some [("name", Str "City Neurology Clinic");
                              ("formatted_phone_number", Str "555")]%string)
  | _ => DetailsThrows
  end.

End RouteSpec.

(* ------------------------------------------------------------------ *)
(** ** Numbers as reals: values and rounding                            *)
(* ------------------------------------------------------------------ *)

Module FloatSpec.
Import JS.
Import Reals.
Local Open Scope Z_scope.
Local Unset Implicit Arguments.

(** [2^e] and [m * 2^e] as real numbers. *)
Definition p2 (e : Z) : R := powerRZ 2 e.
Definition val (m e : Z) : R := (IZR m * p2 e)%R.

(** The real value of a finite number, with its sign; a zero is worth 0
    (and so are, by convention, the infinities and NaN, which the lemmas
    exclude wherever the value matters). *)
Definition valSF (x : spec_float) : R :=
  match x with
  | S754_finite s m e => if s then (- val (Z.pos m) e)%R else val (Z.pos m) e
  | _ => 0%R
  end.

(** A zero of either sign or a positive finite number in canonical form. *)
Definition zero_or_positive (x : spec_float) : Prop :=
  match x with
  | S754_zero _ => True
  | S754_finite false m e => SpecFloat.bounded prec emax m e = true
  | _ => False
  end.

(** The zero with a positive sign, or a positive finite number in
    canonical form. *)
Definition pzero_or_positive (x : spec_float) : Prop :=
  match x with
  | S754_zero false => True
  | S754_finite false m e => SpecFloat.bounded prec emax m e = true
  | _ => False
  end.

(** [v] lies at [m * 2^e] (exact) or strictly between it and the next
    multiple of [2^e]. *)
Definition inbetween (m e : Z) (l : location) (v : R) : Prop :=
  match l with
  | loc_Exact => v = val m e
  | loc_Inexact _ => (val m e < v < val (m + 1) e)%R
  end.

(** The exponent of [m * 2^e] is the one the binary64 format gives a
    number of that size. *)
Definition canon (m : positive) (e : Z) : Prop :=
  fexp prec emax (Z.pos (digits2_pos m) + e) = e.

(** [r] is the non-negative real [v] rounded to a neighbouring binary64
    number (or to infinity above the largest one): [r] is +0, +infinity or
    a positive canonical number, no binary64 number lies strictly between
    [v] and [r], and 0 rounds to +0. *)
Definition rounds (v : R) (r : spec_float) : Prop :=
  (0 <= v)%R
  /\ (r = S754_zero false \/ r = S754_infinity false
      \/ exists m e, r = S754_finite false m e
                     /\ SpecFloat.bounded prec emax m e = true)
  /\ (forall mk ek, SpecFloat.bounded prec emax mk ek = true ->
        (v <= val (Z.pos mk) ek)%R ->
        r <> S754_infinity false /\ (valSF r <= val (Z.pos mk) ek)%R)
  /\ (forall mk ek, SpecFloat.bounded prec emax mk ek = true ->
        (val (Z.pos mk) ek <= v)%R ->
        r = S754_infinity false \/ (val (Z.pos mk) ek <= valSF r)%R)
  /\ (v = 0%R -> r = S754_zero false).

(** The real value of a number. *)
Definition value (x : number) : R := valSF (Prim2SF x).
Arguments value x%_float.

(** What an element of a [Float32Array] holds: a number that storing into
    the array leaves unchanged. *)
Definition float32 (x : number) : Prop := OfflineSpeech.Math_fround x = x.

End FloatSpec.

(* ================================================================== *)
(** * Properties                                                        *)
(* ================================================================== *)

(* ------------------------------------------------------------------ *)
(** ** Risk scoring                                                     *)
(* ------------------------------------------------------------------ *)

Module RiskScoring.
Import AiAdvisor RiskSpec.

Lemma positiveBEFAST_count (a : BEFASTAnswers.t) :
  Z.of_nat (positiveBEFAST a) = count_true a.
Proof.
  destruct a as [[[|]|] [[|]|] [[|]|] [[|]|] [[|]|]]; reflexivity.
Qed.

Lemma count_true_range (a : BEFASTAnswers.t) : 0 <= count_true a <= 5.
Proof.
  unfold count_true, b2z.
  repeat match goal with |- context [if ?b then _ else _] => destruct b end; lia.
Qed.

Lemma score_befast_fst (data : AnalysisData) :
  fst (score_befast data) = 20 * count_true (befastAnswers data).
Proof.
  unfold score_befast. rewrite <- positiveBEFAST_count.
  destruct (positiveBEFAST (befastAnswers data)) as [|n]; cbn [Nat.ltb Nat.leb fst]; lia.
Qed.

Lemma score_face_fst toFixed1 (data : AnalysisData) (acc : Z * list string) :
  fst (score_face toFixed1 data acc) = fst acc + asymmetry_bonus (faceAnalysis data).
Proof.
  unfold score_face, asymmetry_bonus. destruct acc as [sc fs].
  destruct (faceAnalysis data) as [fa|]; cbn [fst]; [|lia].
  destruct (JS.gt (FaceAnalysisResult.asymmetry fa) 30); cbn [fst]; [lia|].
  destruct (JS.gt (FaceAnalysisResult.asymmetry fa) 15); cbn [fst]; lia.
Qed.

Lemma score_speech_fst (data : AnalysisData) (acc : Z * list string) :
  fst (score_speech data acc) = fst acc + speech_bonus (speechAnalysis data).
Proof.
  unfold score_speech, speech_bonus.
  destruct (speechAnalysis data) as [sa|]; [|lia].
  destruct (SpeechAnalysisResult.isSlurred sa);
    destruct (JS.lt (SpeechAnalysisResult.confidence sa) 0.7); cbn [fst]; lia.
Qed.

(** The running score before the final [Math.min] is the specification's
    raw sum. *)
Lemma running_score toFixed1 (data : AnalysisData) :
  fst (score_speech data (score_face toFixed1 data (score_befast data)))
  = raw_score data.
Proof.
  rewrite score_speech_fst, score_face_fst, score_befast_fst. reflexivity.
Qed.

Lemma raw_score_nonneg (data : AnalysisData) : 0 <= raw_score data.
Proof.
  unfold raw_score, asymmetry_bonus, speech_bonus.
  pose proof (count_true_range (befastAnswers data)).
  repeat match goal with
         | |- context [match ?o with Some _ => _ | None => _ end] => destruct o
         | |- context [if ?b then _ else _] => destruct b
         end; lia.
Qed.

Lemma calculateLocally_fields toFixed1 (data : AnalysisData) (e : JS.Env) :
  AIRiskScore.score (fst (calculateLocally toFixed1 data e))
    = Z.min (raw_score data) 100
  /\ AIRiskScore.level (fst (calculateLocally toFixed1 data e))
    = level_of (raw_score data).
Proof.
  unfold calculateLocally. rewrite <- (running_score toFixed1 data).
  destruct (score_speech data (score_face toFixed1 data (score_befast data)))
    as [sc fs].
  split; reflexivity.
Qed.

(** C1. The local score is 20 per [true] answer, plus the asymmetry tier
    (30 above 30, else 15 above 15) when a face analysis is present, plus 25
    for slurred speech and 10 for a speech confidence below 0.7 when a speech
    analysis is present, clamped to [[0,100]].  With two positive answers,
    asymmetry 35, slurred speech and confidence 0.5 the raw sum is 105, the
    score 100 and the level HIGH. *)
Theorem calculateLocally_score_formula :
  forall toFixed1 (data : AnalysisData) (e : JS.Env),
    let r := fst (calculateLocally toFixed1 data e) in
    AIRiskScore.score r = clamp 0 100 (raw_score data)
    /\ (forall fa sa,
          count_true (befastAnswers data) = 2 ->
          faceAnalysis data = Some fa ->
          FaceAnalysisResult.asymmetry fa = 35%float ->
          speechAnalysis data = Some sa ->
          SpeechAnalysisResult.isSlurred sa = true ->
          SpeechAnalysisResult.confidence sa = 0.5%float ->
          raw_score data = 105
          /\ AIRiskScore.score r = 100
          /\ AIRiskScore.level r = HIGH).
Proof.
  intros toFixed1 data e r.
  destruct (calculateLocally_fields toFixed1 data e) as [Hscore Hlevel].
  fold r in Hscore, Hlevel.
  pose proof (raw_score_nonneg data) as Hnn.
  split.
  - rewrite Hscore. unfold clamp. lia.
  - intros fa sa Hcount Hface Hasym Hspeech Hslur Hconf.
    assert (Hraw : raw_score data = 105).
    { unfold raw_score. rewrite Hcount, Hface, Hspeech.
      unfold asymmetry_bonus, speech_bonus. rewrite Hasym, Hslur, Hconf.
      reflexivity. }
    rewrite Hscore, Hlevel, Hraw. repeat split; reflexivity.
Qed.

Lemma calculateLocally_scenario :
  raw_score scenario_data = 105
  /\ AIRiskScore.score (fst (calculateLocally sample_toFixed1 scenario_data sample_env))
     = 100
  /\ AIRiskScore.level (fst (calculateLocally sample_toFixed1 scenario_data sample_env))
     = HIGH.
Proof.
  exact (proj2 (calculateLocally_score_formula sample_toFixed1 scenario_data sample_env)
               scenario_face scenario_speech
               eq_refl eq_refl eq_refl eq_refl eq_refl eq_refl).
Defined.

(** The assessment page's running score, for comparison with its level. *)
Lemma calculateScore_level toFixed1 (a : BEFASTAnswers.t)
    (res : AssessmentPage.AnalysisResults) :
  AssessmentPage.level (AssessmentPage.calculateScore toFixed1 a res)
  = level_50_25 (AssessmentPage.score (AssessmentPage.calculateScore toFixed1 a res)).
Proof.
  unfold AssessmentPage.calculateScore, level_50_25.
  destruct (AssessmentPage.score_speech _ _) as [sc fs].
  destruct (50 <=? sc) eqn:H50; [cbn; rewrite H50; reflexivity|].
  destruct (25 <=? sc) eqn:H25; cbn; rewrite H50, H25; reflexivity.
Qed.

(** C2, as the code has it.  [calculateLocally] decides the level on the
    70/40 table (and the clamp to 100 does not change the decision, so the
    table holds for the returned score), whereas the assessment page's
    [calculateScore] decides it on the 50/25 table. *)
Theorem level_tables :
  (forall toFixed1 (data : AnalysisData) (e : JS.Env),
      let r := fst (calculateLocally toFixed1 data e) in
      AIRiskScore.level r = level_70_40 (AIRiskScore.score r))
  /\ (forall toFixed1 (a : BEFASTAnswers.t) (res : AssessmentPage.AnalysisResults),
        let r := AssessmentPage.calculateScore toFixed1 a res in
        AssessmentPage.level r = level_50_25 (AssessmentPage.score r)).
Proof.
  split.
  - intros toFixed1 data e r.
    destruct (calculateLocally_fields toFixed1 data e) as [Hscore Hlevel].
    fold r in Hscore, Hlevel. rewrite Hscore, Hlevel.
    unfold level_of, level_70_40.
    destruct (Z.leb_spec 70 (raw_score data));
      destruct (Z.leb_spec 70 (Z.min (raw_score data) 100)); try lia; auto.
    destruct (Z.leb_spec 40 (raw_score data));
      destruct (Z.leb_spec 40 (Z.min (raw_score data) 100)); try lia; auto.
  - intros toFixed1 a res r. apply calculateScore_level.
Qed.

(** C2 fails as stated: with three positive answers and no analysis the
    assessment page computes score 60 and level HIGH, where the 70/40 table
    says MEDIUM. *)
Lemma calculateScore_not_70_40 :
  AssessmentPage.score
    (AssessmentPage.calculateScore sample_toFixed1 three_positive
       (AssessmentPage.mkResults None None)) = 60
  /\ AssessmentPage.level
       (AssessmentPage.calculateScore sample_toFixed1 three_positive
          (AssessmentPage.mkResults None None)) = HIGH
  /\ level_70_40 60 = MEDIUM.
Proof. repeat split; reflexivity. Qed.

Lemma count_true_answer (k : BEFASTAnswers.key) (a : BEFASTAnswers.t) :
  BEFASTAnswers.get k a <> Some true ->
  count_true (BEFASTAnswers.set k (Some true) a) = count_true a + 1.
Proof.
  intros Hk. unfold count_true.
  destruct a as [b e f r s];
    destruct k;
    cbn [BEFASTAnswers.get BEFASTAnswers.set BEFASTAnswers.balance BEFASTAnswers.eyes
         BEFASTAnswers.face BEFASTAnswers.arms BEFASTAnswers.speech] in *;
    match type of Hk with
    | ?x <> _ => destruct x as [[|]|]; [congruence| |]
    end; cbn [BEFASTAnswers.is_true b2z]; lia.
Qed.

(** C7. Turning one answer that is not [true] into [true], with the face
    analysis, the speech analysis and the other answers fixed, never lowers
    the local score; it raises it unless the score already sits at the clamp. *)
Theorem positive_answer_never_lowers_score :
  forall toFixed1 (data : AnalysisData) (k : BEFASTAnswers.key) (e e' : JS.Env),
    BEFASTAnswers.get k (befastAnswers data) <> Some true ->
    let before := AIRiskScore.score (fst (calculateLocally toFixed1 data e)) in
    let after :=
      AIRiskScore.score
        (fst (calculateLocally toFixed1 (answer k (Some true) data) e')) in
    before <= after /\ (before < 100 -> before < after).
Proof.
  intros toFixed1 data k e e' Hk before after. subst before after.
  destruct (calculateLocally_fields toFixed1 data e) as [-> _].
  destruct (calculateLocally_fields toFixed1 (answer k (Some true) data) e') as [-> _].
  assert (Hraw : raw_score (answer k (Some true) data) = raw_score data + 20).
  { unfold raw_score, answer; cbn [befastAnswers faceAnalysis speechAnalysis].
    rewrite (count_true_answer _ _ Hk). lia. }
  rewrite Hraw. lia.
Qed.

Lemma positive_answer_raises_sample :
  AIRiskScore.score (fst (calculateLocally sample_toFixed1 one_positive_data sample_env))
  < AIRiskScore.score
      (fst (calculateLocally sample_toFixed1
              (answer BEFASTAnswers.Arms (Some true) one_positive_data) sample_env)).
Proof.
  apply (positive_answer_never_lowers_score sample_toFixed1 one_positive_data
           BEFASTAnswers.Arms sample_env sample_env).
  - discriminate.
  - vm_compute. reflexivity.
Defined.

(** With every answer [false] and neither analysis present the local
    result is score 0, level LOW and no factors. *)
Theorem calculateLocally_all_false :
  forall toFixed1 (e : JS.Env),
    let r := fst (calculateLocally toFixed1 all_false_data e) in
    AIRiskScore.score r = 0 /\ AIRiskScore.level r = LOW /\ AIRiskScore.factors r = [].
Proof. intros toFixed1 e. cbn. repeat split; reflexivity. Qed.

End RiskScoring.

(* ------------------------------------------------------------------ *)
(** ** Speech features and the two classifiers                          *)
(* ------------------------------------------------------------------ *)

Module SpeechAnalysis.
Import JS SpeechSpec.

(** A chain of guarded bonuses is decided by its guards alone. *)
Ltac split_guards :=
  repeat match goal with
         | |- context [if ?b then _ else _] => destruct b
         end.

Lemma analyzeSpeechPatterns_fields (f : AudioFeatures.t) (e : Env) :
  OfflineSpeech.confidence (fst (OfflineSpeech.analyzeSpeechPatterns f e))
    = OfflineSpeech.patternConfidence f
  /\ OfflineSpeech.isSlurred (fst (OfflineSpeech.analyzeSpeechPatterns f e))
    = fst (OfflineSpeech.slurRules f).
Proof.
  unfold OfflineSpeech.analyzeSpeechPatterns.
  destruct (OfflineSpeech.slurRules f) as [slurred reasons].
  unfold bind, random_element, bind, Math_random, development, ret.
  cbn [fst snd OfflineSpeech.confidence OfflineSpeech.isSlurred]. split; reflexivity.
Qed.

Lemma patternConfidence_within (f : AudioFeatures.t) :
  within 0.3 0.95 (OfflineSpeech.patternConfidence f) = true.
Proof.
  unfold OfflineSpeech.patternConfidence, OfflineSpeech.bump.
  split_guards; vm_compute; reflexivity.
Qed.

Lemma rawConfidence_within (f : RealTime.Features.t) :
  within 0.1 0.95 (RealTime.rawConfidence f) = true.
Proof.
  unfold RealTime.rawConfidence, RealTime.bump, OfflineSpeech.bump.
  split_guards; vm_compute; reflexivity.
Qed.

Lemma analyzeRealTimeSpeech_fields (f : RealTime.Features.t) (e : Env) :
  let r := fst (RealTime.analyzeRealTimeSpeech f e) in
  RealTime.Result.confidence r = RealTime.rawConfidence f
  /\ RealTime.Result.isSlurred r = fst (RealTime.slurRules f)
  /\ RealTime.Result.isSpeaking r = RealTime.Features.isSpeaking f
  /\ RealTime.Result.volume r = RealTime.Features.volume f
  /\ RealTime.Result.pitch r = RealTime.Features.pitch f
  /\ RealTime.Result.clarity r = RealTime.Features.clarity f.
Proof.
  unfold RealTime.analyzeRealTimeSpeech.
  destruct (RealTime.slurRules f) as [slurred reasons].
  destruct (RealTime.Features.isSpeaking f);
    unfold bind, random_element, bind, Math_random, development, Date_now, ret;
    cbn; repeat split; reflexivity.
Qed.

(** C8. The single-shot classifier's confidence lies in [[0.3, 0.95]] for
    every feature vector, and the real-time classifier's raw confidence lies
    in [[0.1, 0.95]] for every per-tick feature set. *)
Theorem classifier_confidence_ranges :
  (forall (f : AudioFeatures.t) (e : Env),
      within 0.3 0.95
        (OfflineSpeech.confidence (fst (OfflineSpeech.analyzeSpeechPatterns f e)))
      = true)
  /\ (forall (f : RealTime.Features.t) (e : Env),
        within 0.1 0.95
          (RealTime.Result.confidence (fst (RealTime.analyzeRealTimeSpeech f e)))
        = true).
Proof.
  split.
  - intros f e. destruct (analyzeSpeechPatterns_fields f e) as [-> _].
    apply patternConfidence_within.
  - intros f e. destruct (analyzeRealTimeSpeech_fields f e) as [-> _].
    apply rawConfidence_within.
Qed.

(** The classifier's label depends on the random source: two runs on the
    same features may return different phrases. *)
Lemma analyzeSpeechPatterns_label_is_random :
  OfflineSpeech.transcription
    (fst (OfflineSpeech.analyzeSpeechPatterns clear_features (production_env 0%float)))
  <> OfflineSpeech.transcription
       (fst (OfflineSpeech.analyzeSpeechPatterns clear_features (production_env 0.5%float))).
Proof. vm_compute. discriminate. Qed.

(** C10. When the tick's features say nobody is speaking, the raw real-time
    result is not slurred, its confidence is exactly 0.1 and its label is
    exactly "No speech detected" (the development suffix is added only to
    speech). *)
Theorem silence_is_never_slurred :
  forall (f : RealTime.Features.t) (e : Env),
    RealTime.Features.isSpeaking f = false ->
    let r := fst (RealTime.analyzeRealTimeSpeech f e) in
    RealTime.Result.isSlurred r = false
    /\ RealTime.Result.confidence r = 0.1%float
    /\ RealTime.Result.transcription r = "No speech detected"%string.
Proof.
  intros f e Hsilent r. subst r.
  unfold RealTime.analyzeRealTimeSpeech, RealTime.slurRules, RealTime.rawConfidence.
  rewrite Hsilent.
  unfold bind, development, Date_now, ret.
  rewrite andb_false_r.
  cbn [fst RealTime.Result.isSlurred RealTime.Result.confidence
       RealTime.Result.transcription].
  split; [reflexivity|]. split; [vm_compute; reflexivity | reflexivity].
Qed.

Lemma silence_in_development :
  RealTime.Result.isSlurred
    (fst (RealTime.analyzeRealTimeSpeech quiet_features development_env)) = false
  /\ RealTime.Result.confidence
       (fst (RealTime.analyzeRealTimeSpeech quiet_features development_env)) = 0.1%float
  /\ RealTime.Result.transcription
       (fst (RealTime.analyzeRealTimeSpeech quiet_features development_env))
     = "No speech detected"%string.
Proof.
  exact (silence_is_never_slurred quiet_features development_env eq_refl).
Defined.

End SpeechAnalysis.

(* ------------------------------------------------------------------ *)
(** ** The real-time loop                                               *)
(* ------------------------------------------------------------------ *)

Module RealTimeLoop.
Import JS RealTime RealTimeSpec.

(** *** The history *)

Lemma last_result_app (h : list Result.t) (r : Result.t) :
  last_result (h ++ [r]) = Some r.
Proof.
  unfold last_result. rewrite length_app. cbn [List.length].
  replace (List.length h + 1 - 1)%nat with (List.length h) by lia.
  rewrite nth_error_app2 by lia. rewrite Nat.sub_diag. reflexivity.
Qed.

Lemma last_result_nil : last_result [] = None.
Proof. reflexivity. Qed.

Lemma last_result_rev (h : list Result.t) :
  match rev h with [] => None | r :: _ => Some r end = last_result h.
Proof.
  destruct h as [|x h'] using rev_ind; [reflexivity|].
  rewrite rev_app_distr, last_result_app. reflexivity.
Qed.

Lemma remember_last (r : Result.t) (h : list Result.t) :
  last_result (remember r h) = Some r.
Proof.
  unfold remember.
  destruct (Nat.ltb_spec 10 (List.length (h ++ [r]))) as [Hgt|Hle].
  - destruct h as [|x h']; cbn [app tl List.length] in *.
    + lia.
    + apply last_result_app.
  - apply last_result_app.
Qed.

Lemma remember_bounded (r : Result.t) (h : list Result.t) :
  (List.length h <= 10)%nat -> (List.length (remember r h) <= 10)%nat.
Proof.
  intros Hlen. unfold remember.
  destruct (Nat.ltb_spec 10 (List.length (h ++ [r]))) as [Hgt|Hle]; [|exact Hle].
  rewrite length_app in Hgt. cbn [List.length] in Hgt.
  destruct h as [|x h']; cbn [app tl List.length] in *.
  - lia.
  - rewrite length_app. cbn [List.length]. lia.
Qed.

(** *** One call of [smoothResults] *)

Lemma smoothResults_spec (s : Service) (raw : Result.t) :
  Result.isSlurred (smoothResults s raw) = Result.isSlurred raw
  /\ Result.isSpeaking (smoothResults s raw) = Result.isSpeaking raw
  /\ match last_result (lastResults s) with
     | None => smoothResults s raw = raw
     | Some previous =>
         let sf := Config.smoothingFactor (config s) in
         Result.confidence (smoothResults s raw)
           = smoothed sf (Result.confidence previous) (Result.confidence raw)
         /\ Result.volume (smoothResults s raw)
           = smoothed sf (Result.volume previous) (Result.volume raw)
         /\ Result.pitch (smoothResults s raw)
           = smoothed sf (Result.pitch previous) (Result.pitch raw)
         /\ Result.clarity (smoothResults s raw)
           = smoothed sf (Result.clarity previous) (Result.clarity raw)
     end.
Proof.
  unfold smoothResults. rewrite <- last_result_rev.
  destruct (rev (lastResults s)) as [|previous older]; cbn; repeat split; reflexivity.
Qed.

(** *** One tick *)

Lemma performRealTimeAnalysis_running (w : World) (f t : list Z)
    (handle : Z) (cb : Callback) :
  running w handle cb ->
  let emitted := smoothResults (service w) (raw_result w f t) in
  let w' := performRealTimeAnalysis (Some (f, t)) w in
  events w' = events w ++ [ResultDelivered cb emitted]
  /\ lastResults (service w') = remember emitted (lastResults (service w))
  /\ audioContext (service w') = audioContext (service w)
  /\ config (service w') = config (service w)
  /\ timers w' = timers w
  /\ running w' handle cb.
Proof.
  intros (Han & Hon & Hcb & Hin) emitted w'. subst emitted w'.
  unfold running, performRealTimeAnalysis, raw_result.
  destruct (analyser (service w)) as [a|] eqn:Ha; [|congruence].
  rewrite Hon, Hcb. cbn [negb].
  destruct (analyzeRealTimeSpeech _ (env w)) as [result e'] eqn:Hres.
  cbn [fst emit service events timers lastResults audioContext config analyser
       isAnalyzing onResultCallback].
  repeat split; try reflexivity; assumption.
Qed.

(** The features read the service only through its audio context and its
    configuration. *)
Lemma extractRealTimeFeatures_ext (s s' : Service) (f t : list Z) :
  audioContext s' = audioContext s ->
  config s' = config s ->
  extractRealTimeFeatures s' f t = extractRealTimeFeatures s f t.
Proof.
  intros Hctx Hcfg.
  unfold extractRealTimeFeatures, calculateRealTimePitch. rewrite Hctx, Hcfg.
  reflexivity.
Qed.

Lemma delivered_app (evs evs' : list Event) :
  delivered (evs ++ evs') = delivered evs ++ delivered evs'.
Proof. unfold delivered. apply flat_map_app. Qed.

(** *** A run of ticks: verdicts pass through unsmoothed *)

Lemma ticks_verdicts (snapshots : list (list Z * list Z)) :
  forall (w : World) (handle : Z) (cb : Callback),
    running w handle cb ->
    map Result.isSlurred (delivered (events (run (ticks handle snapshots) w)))
    = map Result.isSlurred (delivered (events w))
      ++ map (raw_verdict (service w)) snapshots.
Proof.
  induction snapshots as [|[f t] rest IH]; intros w handle cb Hrun.
  - cbn. rewrite app_nil_r. reflexivity.
  - cbn [ticks map run fold_left step]. fold (ticks handle rest).
    fold (run (ticks handle rest) (fire handle (Some (f, t)) w)).
    unfold fire.
    assert (Hin : existsb (Z.eqb handle) (timers w) = true).
    { apply existsb_exists. exists handle. split; [apply Hrun | apply Z.eqb_refl]. }
    rewrite Hin.
    destruct (performRealTimeAnalysis_running f t Hrun)
      as (Hev & _ & Hctx & Hcfg & _ & Hrun').
    rewrite (IH _ handle cb Hrun'). rewrite Hev, delivered_app, map_app.
    cbn [delivered flat_map map app].
    destruct (smoothResults_spec (service w) (raw_result w f t)) as (-> & _).
    unfold raw_result.
    destruct (SpeechAnalysis.analyzeRealTimeSpeech_fields
                (extractRealTimeFeatures (service w) f t) (env w)) as (_ & -> & _).
    rewrite <- app_assoc. cbn [app]. f_equal. f_equal.
    apply map_ext. intros [f' t']. unfold raw_verdict. cbn [fst snd].
    rewrite (extractRealTimeFeatures_ext _ _ f' t' Hctx Hcfg). reflexivity.
Qed.

Lemma started_world_running (sf : number) : running (started_world sf) 1 1%nat.
Proof.
  unfold running. cbn. repeat split; try reflexivity.
  - discriminate.
  - left. reflexivity.
Qed.

(** C5. On a tick of the running loop the result handed to the callback is
    the last entry of the new history; its [isSlurred] and [isSpeaking] are
    the raw ones; with an empty history it is the raw result unchanged, and
    otherwise its confidence, volume, pitch and clarity are
    [previous*smoothingFactor + current*(1-smoothingFactor)] against the last
    entry of the old history, that is against the result emitted just before.
    Over any run of ticks the emitted verdicts are the raw verdicts, so raw
    verdicts false, true, false are emitted as false, true, false whatever
    the smoothing factor (0.7 by default). *)
Theorem tick_smoothing :
  (forall (w : World) (f t : list Z) (handle : Z) (cb : Callback),
      running w handle cb ->
      let raw := raw_result w f t in
      let w' := fire handle (Some (f, t)) w in
      exists emitted,
        events w' = events w ++ [ResultDelivered cb emitted]
        /\ last_result (lastResults (service w')) = Some emitted
        /\ Result.isSlurred emitted = Result.isSlurred raw
        /\ Result.isSpeaking emitted = Result.isSpeaking raw
        /\ match last_result (lastResults (service w)) with
           | None => emitted = raw
           | Some previous =>
               let sf := Config.smoothingFactor (config (service w)) in
               Result.confidence emitted
                 = smoothed sf (Result.confidence previous) (Result.confidence raw)
               /\ Result.volume emitted
                 = smoothed sf (Result.volume previous) (Result.volume raw)
               /\ Result.pitch emitted
                 = smoothed sf (Result.pitch previous) (Result.pitch raw)
               /\ Result.clarity emitted
                 = smoothed sf (Result.clarity previous) (Result.clarity raw)
           end)
  /\ (forall (w : World) (handle : Z) (cb : Callback)
             (snapshots : list (list Z * list Z)),
        running w handle cb ->
        map Result.isSlurred (delivered (events (run (ticks handle snapshots) w)))
        = map Result.isSlurred (delivered (events w))
          ++ map (raw_verdict (service w)) snapshots)
  /\ (forall sf : number,
        map (raw_verdict (service (started_world sf)))
            [clear_tick; muffled_tick; clear_tick]
        = [false; true; false]
        /\ map Result.isSlurred
             (delivered
                (events (run (ticks 1 [clear_tick; muffled_tick; clear_tick])
                             (started_world sf))))
           = [false; true; false])
  /\ Config.smoothingFactor Config.default = 0.7%float.
Proof.
  split; [|split; [|split]].
  - intros w f t handle cb Hrun raw w'. subst raw w'.
    exists (smoothResults (service w) (raw_result w f t)).
    unfold fire.
    assert (Hin : existsb (Z.eqb handle) (timers w) = true).
    { apply existsb_exists. exists handle. split; [apply Hrun | apply Z.eqb_refl]. }
    rewrite Hin.
    destruct (performRealTimeAnalysis_running f t Hrun) as (Hev & Hhist & _).
    destruct (smoothResults_spec (service w) (raw_result w f t))
      as (Hslur & Hspeak & Hsmooth).
    rewrite Hhist, remember_last. repeat split; assumption.
  - intros w handle cb snapshots Hrun. apply (ticks_verdicts snapshots Hrun).
  - intros sf.
    assert (Hraw : map (raw_verdict (service (started_world sf)))
                       [clear_tick; muffled_tick; clear_tick]
                   = [false; true; false])
      by (vm_compute; reflexivity).
    split; [exact Hraw|].
    rewrite (ticks_verdicts _ (started_world_running sf)), Hraw. reflexivity.
  - reflexivity.
Qed.

Lemma after_first_tick_running :
  running (fire 1 (Some (spectrum_peak_at 50, square_wave)) (started_world 0.7)) 1 1%nat.
Proof.
  unfold running. vm_compute. repeat split; try reflexivity.
  - discriminate.
  - left. reflexivity.
Qed.

Lemma first_and_second_tick :
  (exists emitted,
      events (fire 1 (Some (spectrum_peak_at 50, square_wave)) (started_world 0.7))
      = events (started_world 0.7) ++ [ResultDelivered 1%nat emitted]
      /\ emitted = raw_result (started_world 0.7) (spectrum_peak_at 50) square_wave)
  /\ (exists emitted previous,
        last_result
          (lastResults
             (service (fire 1 (Some (spectrum_peak_at 50, square_wave))
                            (started_world 0.7))))
        = Some previous
        /\ Result.isSlurred emitted = true
        /\ Result.volume emitted
           = smoothed 0.7 (Result.volume previous)
               (Result.volume
                  (raw_result
                     (fire 1 (Some (spectrum_peak_at 50, square_wave))
                           (started_world 0.7))
                     (spectrum_peak_at 5) square_wave))).
Proof.
  destruct (proj1 tick_smoothing (started_world 0.7) (spectrum_peak_at 50) square_wave
              1 1%nat (started_world_running 0.7%float))
    as (first & Hev & Hlast & _ & _ & Hfirst).
  split.
  - exists first. split; [exact Hev | exact Hfirst].
  - destruct (proj1 tick_smoothing
                (fire 1 (Some (spectrum_peak_at 50, square_wave)) (started_world 0.7))
                (spectrum_peak_at 5) square_wave 1 1%nat after_first_tick_running)
      as (second & _ & _ & Hslur & _ & Hsmooth).
    rewrite Hlast in Hsmooth.
    exists second, first. split; [exact Hlast|].
    split.
    + rewrite Hslur. vm_compute. reflexivity.
    + exact (proj1 (proj2 Hsmooth)).
Defined.

(** *** Timers *)

Lemma new_world_one_timer (cfg : Config.t) (e : Env) : one_timer (new_world cfg e).
Proof. unfold one_timer. cbn. repeat split; lia. Qed.

Lemma step_one_timer (w : World) (op : Op) : one_timer w -> one_timer (step w op).
Proof.
  unfold one_timer. intros [Hpos Hinv].
  destruct op as [granted rate|onResult onError| |handle snapshot| |closed];
    cbn [step].
  - unfold initialize. destruct granted; cbn; auto.
  - unfold startAnalysis.
    destruct (isAnalyzing (service w)) eqn:Hon.
    + cbn. rewrite ?Hon. auto.
    + destruct (analyser (service w)) as [a|].
      * destruct Hinv as [_ Htimers]. cbn. rewrite Htimers. split; [lia|].
        exists (next_handle w). repeat split; lia.
      * destruct onError; cbn; rewrite ?Hon; auto.
  - unfold stopAnalysis.
    destruct (isAnalyzing (service w)) eqn:Hon; cbn [negb].
    + destruct Hinv as (handle & Hrange & Hint & Htimers). rewrite Hint.
      destruct (Z.eqb_spec handle 0) as [->|Hnz]; [lia|].
      cbn. rewrite Htimers. cbn. rewrite Z.eqb_refl. cbn. auto.
    + rewrite ?Hon. auto.
  - unfold fire. destruct (existsb (Z.eqb handle) (timers w)).
    + unfold performRealTimeAnalysis.
      destruct (analyser (service w)); [|auto].
      destruct (isAnalyzing (service w)) eqn:Hon; cbn [negb]; [|rewrite ?Hon; auto].
      destruct snapshot as [[f t]|].
      * destruct (analyzeRealTimeSpeech _ (env w)) as [result e'].
        destruct (onResultCallback (service w)); cbn; rewrite ?Hon; auto.
      * destruct (onErrorCallback (service w)); cbn; rewrite ?Hon; auto.
    + auto.
  - unfold cleanup, stopAnalysis.
    destruct (isAnalyzing (service w)) eqn:Hon; cbn [negb].
    + destruct Hinv as (handle & Hrange & Hint & Htimers). rewrite Hint.
      destruct (Z.eqb_spec handle 0) as [->|Hnz]; [lia|].
      cbn. destruct (audioContext (service w));
        cbn; rewrite Htimers; cbn; rewrite Z.eqb_refl; cbn; auto.
    + cbn. destruct (audioContext (service w)); cbn; rewrite ?Hon; auto.
  - unfold cleanupResumes. destruct (closing w); [auto|].
    destruct closed; cbn; auto.
Qed.

Lemma run_one_timer (ops : list Op) :
  forall w : World, one_timer w -> one_timer (run ops w).
Proof.
  induction ops as [|op ops IH]; intros w Hw; [exact Hw|].
  cbn [run fold_left]. apply IH, step_one_timer, Hw.
Qed.

Lemma stopAnalysis_stops (w : World) : isAnalyzing (service (stopAnalysis w)) = false.
Proof.
  unfold stopAnalysis. destruct (isAnalyzing (service w)) eqn:Hon; cbn [negb].
  - destruct (analysisInterval (service w)) as [handle|];
      [destruct (handle =? 0)|]; reflexivity.
  - exact Hon.
Qed.

(** C6. Starting a loop that is already analyzing changes neither the
    service's fields (callbacks, interval handle, history) nor the armed
    timers: it only prints a warning.  Stopping a loop that is not analyzing
    changes nothing at all, so stopping twice is stopping once.  And however
    the service is driven from its construction, exactly one timer is armed
    while it is analyzing and none otherwise. *)
Theorem start_guarded_stop_idempotent :
  (forall (w : World) (onResult : Callback) (onError : option Callback),
      isAnalyzing (service w) = true ->
      let w' := startAnalysis onResult onError w in
      service w' = service w
      /\ timers w' = timers w
      /\ next_handle w' = next_handle w
      /\ env w' = env w
      /\ events w' = events w ++ [ConsoleWarn "Real-time analysis already running"])
  /\ (forall w : World, isAnalyzing (service w) = false -> stopAnalysis w = w)
  /\ (forall w : World, stopAnalysis (stopAnalysis w) = stopAnalysis w)
  /\ (forall (cfg : Config.t) (e : Env) (ops : list Op),
        let w := run ops (new_world cfg e) in
        List.length (timers w) = if isAnalyzing (service w) then 1%nat else 0%nat).
Proof.
  split; [|split; [|split]].
  - intros w onResult onError Hon w'. subst w'. unfold startAnalysis.
    rewrite Hon. cbn. repeat split; reflexivity.
  - intros w Hoff. unfold stopAnalysis. rewrite Hoff. reflexivity.
  - intros w. pose proof (stopAnalysis_stops w) as Hoff.
    unfold stopAnalysis at 1. rewrite Hoff. reflexivity.
  - intros cfg e ops w. subst w.
    destruct (run_one_timer ops (new_world_one_timer cfg e)) as [_ Hinv].
    destruct (isAnalyzing (service (run ops (new_world cfg e)))).
    + destruct Hinv as (handle & _ & _ & ->). reflexivity.
    + destruct Hinv as [_ ->]. reflexivity.
Qed.

Lemma second_start_and_idle_stop :
  (service (startAnalysis 3%nat None (started_world 0.7)) = service (started_world 0.7)
   /\ timers (startAnalysis 3%nat None (started_world 0.7)) = [1])
  /\ stopAnalysis (new_world Config.default sample_env)
     = new_world Config.default sample_env.
Proof.
  split.
  - destruct (proj1 start_guarded_stop_idempotent (started_world 0.7) 3%nat None eq_refl)
      as (Hsvc & Htimers & _).
    split; [exact Hsvc | exact Htimers].
  - exact (proj1 (proj2 start_guarded_stop_idempotent)
                 (new_world Config.default sample_env) eq_refl).
Defined.

(** *** The history stays short *)

Lemma step_history_bounded_stop (w : World) :
  (List.length (lastResults (service w)) <= 10)%nat ->
  (List.length (lastResults (service (stopAnalysis w))) <= 10)%nat.
Proof.
  intros Hlen. unfold stopAnalysis.
  destruct (isAnalyzing (service w)); cbn [negb]; [|exact Hlen].
  destruct (analysisInterval (service w)) as [handle|];
    [destruct (handle =? 0)|]; cbn; lia.
Qed.

Lemma step_history_bounded (w : World) (op : Op) :
  (List.length (lastResults (service w)) <= 10)%nat ->
  (List.length (lastResults (service (step w op))) <= 10)%nat.
Proof.
  intros Hlen.
  destruct op as [granted rate|onResult onError| |handle snapshot| |closed]; cbn [step].
  - unfold initialize. destruct granted; cbn; exact Hlen.
  - unfold startAnalysis.
    destruct (isAnalyzing (service w)); [exact Hlen|].
    destruct (analyser (service w)); [exact Hlen|].
    destruct onError; exact Hlen.
  - unfold stopAnalysis.
    destruct (isAnalyzing (service w)); cbn [negb]; [|exact Hlen].
    destruct (analysisInterval (service w)) as [handle|];
      [destruct (handle =? 0)|]; cbn; lia.
  - unfold fire. destruct (existsb (Z.eqb handle) (timers w)); [|exact Hlen].
    unfold performRealTimeAnalysis.
    destruct (analyser (service w)); [|exact Hlen].
    destruct (isAnalyzing (service w)); cbn [negb]; [|exact Hlen].
    destruct snapshot as [[f t]|].
    + destruct (analyzeRealTimeSpeech _ (env w)) as [result e'].
      destruct (onResultCallback (service w)); cbn [emit service lastResults];
        apply remember_bounded, Hlen.
    + destruct (onErrorCallback (service w)); exact Hlen.
  - unfold cleanup. cbn.
    pose proof (step_history_bounded_stop w Hlen) as Hstop.
    destruct (audioContext (service (stopAnalysis w))); cbn; [exact Hstop|lia].
  - unfold cleanupResumes. destruct (closing w); [exact Hlen|].
    destruct closed; cbn; [lia|exact Hlen].
Qed.

(** However the service is driven from its construction, it keeps at most
    the last 10 results. *)
Theorem history_at_most_ten :
  forall (cfg : Config.t) (e : Env) (ops : list Op),
    (List.length (lastResults (service (run ops (new_world cfg e)))) <= 10)%nat.
Proof.
  intros cfg e ops.
  assert (H : forall w : World,
             (List.length (lastResults (service w)) <= 10)%nat ->
             (List.length (lastResults (service (run ops w))) <= 10)%nat).
  { induction ops as [|op ops IH]; intros w Hw; [exact Hw|].
    cbn [run fold_left]. apply IH, step_history_bounded, Hw. }
  apply H. cbn. lia.
Qed.

End RealTimeLoop.

(* ------------------------------------------------------------------ *)
(** ** The order of JavaScript numbers                                  *)
(* ------------------------------------------------------------------ *)

Module FloatOrder.
Import JS.
Local Unset Implicit Arguments.

(** The comparison of the binary64 specification is a lexicographic
    comparison of sign, exponent and mantissa; the facts below are read off
    that definition and carried to the primitive comparisons. *)

Lemma SFcompare_antisym (x y : spec_float) (c : comparison) :
  SFcompare x y = Some c -> SFcompare y x = Some (CompOpp c).
Proof.
  destruct x as [sx|sx| |sx mx ex], y as [sy|sy| |sy my ey]; cbn;
    try discriminate;
    try (destruct sx; intros [= <-]; reflexivity);
    try (destruct sy; intros [= <-]; reflexivity);
    try (intros [= <-]; reflexivity).
  - destruct sx, sy; intros [= <-]; reflexivity.
  - change (Pos.compare_cont Eq mx my) with (Pos.compare mx my).
    change (Pos.compare_cont Eq my mx) with (Pos.compare my mx).
    rewrite (Z.compare_antisym ex ey), (Pos.compare_antisym mx my).
    destruct sx, sy; intros [= <-]; try reflexivity;
      destruct (ex ?= ey); cbn; try reflexivity;
      destruct (mx ?= my)%positive; reflexivity.
Qed.

Lemma SFcompare_refl (x : spec_float) :
  x <> S754_nan -> SFcompare x x = Some Eq.
Proof.
  destruct x as [s|s| |s m e]; cbn; intros Hx; try congruence.
  - destruct s; reflexivity.
  - change (Pos.compare_cont Eq m m) with (Pos.compare m m).
    rewrite Z.compare_refl, Pos.compare_refl. destruct s; reflexivity.
Qed.

(** Below-or-equal composes, and the composite is strict as soon as one
    step is. *)
Lemma SFcompare_trans (x y z : spec_float) (c1 c2 : comparison) :
  SFcompare x y = Some c1 -> SFcompare y z = Some c2 ->
  c1 <> Gt -> c2 <> Gt ->
  SFcompare x z = Some (match c1, c2 with Eq, Eq => Eq | _, _ => Lt end).
Proof.
  destruct x as [sx|sx| |sx mx ex], y as [sy|sy| |sy my ey], z as [sz|sz| |sz mz ez];
    cbn; try discriminate;
    repeat match goal with s : bool |- _ => destruct s end;
    try (intros [= <-] [= <-]; congruence).
  all: repeat match goal with
              | |- context [Pos.compare_cont Eq ?a ?b] =>
                  change (Pos.compare_cont Eq a b) with (Pos.compare a b)
              end.
  all: repeat match goal with
              | |- context [Z.compare ?a ?b] => destruct (Z.compare_spec a b)
              end.
  all: repeat match goal with
              | |- context [Pos.compare ?a ?b] => destruct (Pos.compare_spec a b)
              end.
  all: cbn; intros [= <-] [= <-] Hc1 Hc2; try congruence; exfalso; lia.
Qed.

(** *** The primitive comparisons *)

Lemma ltb_Lt (x y : number) :
  (x <? y)%float = true <-> SFcompare (Prim2SF x) (Prim2SF y) = Some Lt.
Proof.
  rewrite FloatAxioms.ltb_spec. unfold SFltb.
  destruct (SFcompare (Prim2SF x) (Prim2SF y)) as [[| |]|]; split; congruence.
Qed.

Lemma leb_Le (x y : number) :
  (x <=? y)%float = true
  <-> exists c, SFcompare (Prim2SF x) (Prim2SF y) = Some c /\ c <> Gt.
Proof.
  rewrite FloatAxioms.leb_spec. unfold SFleb.
  destruct (SFcompare (Prim2SF x) (Prim2SF y)) as [[| |]|]; split;
    try (intros _; eexists; split; [reflexivity|discriminate]);
    try reflexivity; try discriminate;
    intros (c & [= <-] & Hc); congruence.
Qed.

Lemma is_nan_false (x : number) :
  PrimFloat.is_nan x = false <-> Prim2SF x <> S754_nan.
Proof.
  unfold PrimFloat.is_nan. rewrite FloatAxioms.eqb_spec. unfold SFeqb. split.
  - intros H Hn. rewrite Hn in H. discriminate.
  - intros H. rewrite (SFcompare_refl _ H). reflexivity.
Qed.

Lemma ltb_not_nan (x y : number) :
  (x <? y)%float = true -> PrimFloat.is_nan x = false /\ PrimFloat.is_nan y = false.
Proof.
  rewrite ltb_Lt, !is_nan_false. intros H.
  split; intros Hn; rewrite Hn in H; [|destruct (Prim2SF x)]; discriminate.
Qed.

Lemma leb_not_nan (x y : number) :
  (x <=? y)%float = true -> PrimFloat.is_nan x = false /\ PrimFloat.is_nan y = false.
Proof.
  rewrite leb_Le, !is_nan_false. intros (c & H & _).
  split; intros Hn; rewrite Hn in H; [|destruct (Prim2SF x)]; discriminate.
Qed.

Lemma ltb_antisym (x y : number) :
  (x <? y)%float = true -> (y <? x)%float = false.
Proof.
  rewrite ltb_Lt. intros H. apply SFcompare_antisym in H.
  destruct (y <? x)%float eqn:Hyx; [|reflexivity].
  apply ltb_Lt in Hyx. cbn in H. congruence.
Qed.

Lemma ltb_leb (x y : number) :
  (x <? y)%float = true -> (x <=? y)%float = true.
Proof.
  rewrite ltb_Lt, leb_Le. intros H. exists Lt. split; [exact H|discriminate].
Qed.

Lemma leb_not_ltb (x y : number) :
  (x <=? y)%float = true -> (y <? x)%float = false.
Proof.
  rewrite leb_Le. intros (c & H & Hc). apply SFcompare_antisym in H.
  destruct (y <? x)%float eqn:Hyx; [|reflexivity].
  apply ltb_Lt in Hyx. destruct c; cbn in H; congruence.
Qed.

Lemma ltb_trans (x y z : number) :
  (x <? y)%float = true -> (y <? z)%float = true -> (x <? z)%float = true.
Proof.
  rewrite !ltb_Lt. intros H1 H2.
  apply (SFcompare_trans _ _ _ _ _ H1 H2); discriminate.
Qed.

Lemma leb_ltb_trans (x y z : number) :
  (x <=? y)%float = true -> (y <? z)%float = true -> (x <? z)%float = true.
Proof.
  rewrite leb_Le, !ltb_Lt. intros (c & H1 & Hc) H2.
  rewrite (SFcompare_trans _ _ _ _ _ H1 H2 Hc); [destruct c; reflexivity|discriminate].
Qed.

Lemma ltb_leb_trans (x y z : number) :
  (x <? y)%float = true -> (y <=? z)%float = true -> (x <? z)%float = true.
Proof.
  rewrite leb_Le, !ltb_Lt. intros H1 (c & H2 & Hc).
  rewrite (SFcompare_trans _ _ _ _ _ H1 H2); [reflexivity|discriminate|exact Hc].
Qed.

Lemma leb_trans (x y z : number) :
  (x <=? y)%float = true -> (y <=? z)%float = true -> (x <=? z)%float = true.
Proof.
  rewrite !leb_Le. intros (c1 & H1 & Hc1) (c2 & H2 & Hc2).
  eexists. split; [exact (SFcompare_trans _ _ _ _ _ H1 H2 Hc1 Hc2)|].
  destruct c1, c2; discriminate.
Qed.

Lemma leb_refl (x : number) :
  PrimFloat.is_nan x = false -> (x <=? x)%float = true.
Proof.
  rewrite is_nan_false, leb_Le. intros H.
  exists Eq. split; [apply SFcompare_refl, H|discriminate].
Qed.

(** Two numbers that are not NaN are comparable. *)
Lemma ltb_or_leb (x y : number) :
  PrimFloat.is_nan x = false -> PrimFloat.is_nan y = false ->
  (x <? y)%float = true \/ (y <=? x)%float = true.
Proof.
  rewrite !is_nan_false, ltb_Lt, leb_Le. intros Hx Hy.
  destruct (SFcompare (Prim2SF x) (Prim2SF y)) as [c|] eqn:Hc.
  - destruct c; [right|left; reflexivity|right];
      apply SFcompare_antisym in Hc; eexists; (split; [exact Hc|discriminate]).
  - exfalso. destruct (Prim2SF x) as [sx|sx| |sx mx ex], (Prim2SF y) as [sy|sy| |sy my ey];
      cbn in Hc; congruence.
Qed.

(** *** [Math.min], [Math.max] and clamping *)

Lemma Math_max_cases (x y : number) :
  PrimFloat.is_nan x = false -> PrimFloat.is_nan y = false ->
  (Math_max x y = x \/ Math_max x y = y)
  /\ (x <=? Math_max x y)%float = true
  /\ (y <=? Math_max x y)%float = true.
Proof.
  intros Hx Hy. unfold Math_max. rewrite Hx, Hy. cbn [orb].
  destruct (x <? y)%float eqn:Hxy.
  - repeat split; [right; reflexivity|apply ltb_leb, Hxy|apply leb_refl, Hy].
  - destruct (y <? x)%float eqn:Hyx.
    + repeat split; [left; reflexivity|apply leb_refl, Hx|apply ltb_leb, Hyx].
    + assert (Hle1 : (x <=? y)%float = true).
      { destruct (ltb_or_leb _ _ Hy Hx) as [H|H]; congruence. }
      assert (Hle2 : (y <=? x)%float = true).
      { destruct (ltb_or_leb _ _ Hx Hy) as [H|H]; congruence. }
      destruct (get_sign x); repeat split; auto using leb_refl.
Qed.

Lemma Math_min_cases (x y : number) :
  PrimFloat.is_nan x = false -> PrimFloat.is_nan y = false ->
  (Math_min x y = x \/ Math_min x y = y)
  /\ (Math_min x y <=? x)%float = true
  /\ (Math_min x y <=? y)%float = true.
Proof.
  intros Hx Hy. unfold Math_min. rewrite Hx, Hy. cbn [orb].
  destruct (x <? y)%float eqn:Hxy.
  - repeat split; [left; reflexivity|apply leb_refl, Hx|apply ltb_leb, Hxy].
  - destruct (y <? x)%float eqn:Hyx.
    + repeat split; [right; reflexivity|apply ltb_leb, Hyx|apply leb_refl, Hy].
    + assert (Hle1 : (x <=? y)%float = true).
      { destruct (ltb_or_leb _ _ Hy Hx) as [H|H]; congruence. }
      assert (Hle2 : (y <=? x)%float = true).
      { destruct (ltb_or_leb _ _ Hx Hy) as [H|H]; congruence. }
      destruct (get_sign x); repeat split; auto using leb_refl.
Qed.

(** [Math.min(x, cap)] never compares above [cap], NaN included. *)
Lemma Math_min_capped (x cap : number) : gt (Math_min x cap) cap = false.
Proof.
  unfold gt.
  destruct (PrimFloat.is_nan x) eqn:Hx.
  - unfold Math_min. rewrite Hx. cbn [orb].
    destruct (cap <? nan)%float eqn:H; [|reflexivity].
    apply ltb_not_nan in H. destruct H as [_ H]. discriminate.
  - destruct (PrimFloat.is_nan cap) eqn:Hc.
    + destruct (cap <? Math_min x cap)%float eqn:H; [|reflexivity].
      apply ltb_not_nan in H. destruct H as [H _]. congruence.
    + apply leb_not_ltb. apply (Math_min_cases _ _ Hx Hc).
Qed.

(** [Math.min(hi, Math.max(lo, x))] lies in [[lo, hi]] when [x] is a number
    and [lo <= hi]. *)
Lemma clamp_within (lo hi x : number) :
  (lo <=? hi)%float = true -> PrimFloat.is_nan x = false ->
  ((lo <=? Math_min hi (Math_max lo x)) && (Math_min hi (Math_max lo x) <=? hi))%float
  = true.
Proof.
  intros Hlh Hx. destruct (leb_not_nan _ _ Hlh) as [Hlo Hhi].
  destruct (Math_max_cases _ _ Hlo Hx) as (Hmax & Hlm & _).
  assert (Hm : PrimFloat.is_nan (Math_max lo x) = false)
    by (destruct Hmax as [-> | ->]; assumption).
  destruct (Math_min_cases _ _ Hhi Hm) as ([-> | ->] & Hle1 & Hle2).
  - rewrite Hlh, (leb_refl _ Hhi). reflexivity.
  - rewrite Hlm, Hle1. reflexivity.
Qed.

(** The other argument order, [Math.min(Math.max(x, lo), hi)]. *)
Lemma clamp_within_rev (lo hi x : number) :
  (lo <=? hi)%float = true -> PrimFloat.is_nan x = false ->
  ((lo <=? Math_min (Math_max x lo) hi) && (Math_min (Math_max x lo) hi <=? hi))%float
  = true.
Proof.
  intros Hlh Hx. destruct (leb_not_nan _ _ Hlh) as [Hlo Hhi].
  destruct (Math_max_cases _ _ Hx Hlo) as (Hmax & _ & Hlm).
  assert (Hm : PrimFloat.is_nan (Math_max x lo) = false)
    by (destruct Hmax as [-> | ->]; assumption).
  destruct (Math_min_cases _ _ Hm Hhi) as ([Heq | Heq] & _ & Hle2); rewrite Heq in *.
  - rewrite Hlm, Hle2. reflexivity.
  - rewrite Hlh, (leb_refl _ Hhi). reflexivity.
Qed.

Lemma or_zero_not_nan (x : number) : PrimFloat.is_nan (or_zero x) = false.
Proof.
  unfold or_zero. destruct (PrimFloat.is_nan x) eqn:Hx; [reflexivity|].
  cbn [orb]. destruct (PrimFloat.is_zero x); [reflexivity|exact Hx].
Qed.

(** *** A finite number minus itself is [+0] *)

Lemma is_infinity_false (x : number) :
  PrimFloat.is_infinity x = false -> forall s, Prim2SF x <> S754_infinity s.
Proof.
  unfold PrimFloat.is_infinity. rewrite FloatAxioms.eqb_spec, FloatAxioms.abs_spec.
  intros H s Hs. rewrite Hs in H. cbn in H. discriminate.
Qed.

Lemma sub_self (x : number) :
  PrimFloat.is_finite x = true -> (x - x)%float = 0%float.
Proof.
  unfold PrimFloat.is_finite. rewrite negb_true_iff, orb_false_iff.
  intros [Hnan Hinf]. apply is_nan_false in Hnan.
  pose proof (is_infinity_false x Hinf) as Hinf'.
  apply Prim2SF_inj. rewrite FloatAxioms.sub_spec.
  destruct (Prim2SF x) as [s|s| |s m e]; try congruence.
  - destruct s; reflexivity.
  - unfold SF64sub, SFsub. rewrite Z.min_id. unfold shl_align.
    rewrite !Z.sub_diag. cbn [fst]. rewrite ?Z.sub_diag. reflexivity.
Qed.

(** *** Zeros *)

Lemma is_zero_cases (x : number) :
  PrimFloat.is_zero x = true -> x = 0%float \/ x = (-0)%float.
Proof.
  unfold PrimFloat.is_zero. rewrite FloatAxioms.eqb_spec.
  intros H. rewrite <- (SF2Prim_Prim2SF x).
  destruct (Prim2SF x) as [[|]| | |]; cbn in H; try discriminate.
  - right. reflexivity.
  - left. reflexivity.
  - destruct s; discriminate.
  - destruct s; discriminate.
Qed.



Lemma digits2_pos_size (p : positive) : digits2_pos p = Pos.size p.
Proof. induction p; cbn; congruence. Qed.

Lemma digits2_pos_shift (p k : positive) :
  digits2_pos (Pos.iter xO p k) = (digits2_pos p + k)%positive.
Proof.
  induction k using Pos.peano_ind.
  - cbn. lia.
  - rewrite Pos.iter_succ. cbn [digits2_pos]. rewrite IHk. lia.
Qed.

Lemma binary_round_aux_canonical (sx : bool) (m : positive) (e : Z) :
  fexp prec emax (Z.pos (digits2_pos m) + e) = e ->
  binary_round_aux prec emax sx (Z.pos m) e loc_Exact
  = if e <=? emax - prec then S754_finite sx m e else S754_infinity sx.
Proof.
  intros Hc. unfold binary_round_aux, shr_fexp. cbn [Zdigits2 shr_record_of_loc].
  rewrite Hc, Z.sub_diag. cbn [shr shr_m loc_of_shr_record round_nearest_even Zdigits2].
  rewrite Hc, Z.sub_diag. cbn [shr shr_m]. reflexivity.
Qed.

Lemma size_bound (p : positive) : Z.pos p < 2 ^ 53 -> Z.pos (Pos.size p) <= 53.
Proof.
  intros Hp. pose proof (Pos.size_le p) as H.
  destruct (Z.le_gt_cases (Z.pos (Pos.size p)) 53) as [|Hgt]; [assumption|exfalso].
  assert (H2 : 2 ^ 54 <= 2 ^ Z.pos (Pos.size p)) by (apply Z.pow_le_mono_r; lia).
  assert (H3 : Z.pos (2 ^ Pos.size p) <= Z.pos p~0) by exact H.
  rewrite Pos2Z.inj_pow in H3. change (Z.pos p~0) with (2 * Z.pos p) in H3.
  change (2 ^ 54) with (2 * 2 ^ 53) in H2. lia.
Qed.

Lemma of_Z_positive (n : Z) :
  0 < n < 2 ^ 53 ->
  exists m e, Prim2SF (of_Z n) = S754_finite false m e.
Proof.
  intros Hn. unfold of_Z.
  destruct (Z.ltb_spec n 0) as [|_]; [lia|].
  rewrite of_uint63_spec, Uint63.of_Z_spec.
  rewrite Z.mod_small by (change wB with (2 ^ 63); split; [lia|];
                          assert (2 ^ 53 < 2 ^ 63) by reflexivity; lia).
  destruct n as [|p|p]; try lia.
  pose proof (size_bound p (proj2 Hn)) as Hd. rewrite <- digits2_pos_size in Hd.
  unfold binary_normalize, binary_round.
  assert (Hfexp : fexp prec emax (Z.pos (digits2_pos p) + 0) = Z.pos (digits2_pos p) - 53).
  { unfold fexp, emin. change prec with 53. change emax with 1024. lia. }
  rewrite Hfexp. unfold shl_align.
  destruct (Z.pos (digits2_pos p) - 53 - 0) as [|k|k] eqn:Hk.
  - rewrite binary_round_aux_canonical.
    + eexists. eexists. reflexivity.
    + rewrite Hfexp. lia.
  - lia.
  - rewrite binary_round_aux_canonical.
    + destruct (Z.leb_spec (Z.pos (digits2_pos p) - 53) (emax - prec)) as [_|Hgt];
        [eexists; eexists; reflexivity|].
      change prec with 53 in Hgt. change emax with 1024 in Hgt. lia.
    + rewrite digits2_pos_shift. unfold fexp, emin. change prec with 53.
      change emax with 1024. lia.
Qed.

Lemma zero_div_of_Z (n : Z) : 0 < n < 2 ^ 53 -> (0 / of_Z n)%float = 0%float.
Proof.
  intros Hn. destruct (of_Z_positive n Hn) as (m & e & H).
  rewrite <- (SF2Prim_Prim2SF (0 / of_Z n)), FloatAxioms.div_spec, H. reflexivity.
Qed.

End FloatOrder.

(* ------------------------------------------------------------------ *)
(** ** The scorers compared, the fallback analysis, the store           *)
(* ------------------------------------------------------------------ *)

Module ScoringFacts.
Import AiAdvisor RiskSpec ScoringSpec.
Local Unset Implicit Arguments.

(** *** Factors *)

Lemma score_befast_snd (data : AnalysisData) :
  List.length (snd (score_befast data))
  = if 0 <? count_true (befastAnswers data) then 1%nat else 0%nat.
Proof.
  unfold score_befast. rewrite <- RiskScoring.positiveBEFAST_count.
  destruct (positiveBEFAST (befastAnswers data)) as [|n]; reflexivity.
Qed.

Lemma score_face_snd toFixed1 (data : AnalysisData) (acc : Z * list string) :
  List.length (snd (score_face toFixed1 data acc))
  = (List.length (snd acc)
     + if (0 <? asymmetry_bonus (faceAnalysis data))%Z then 1 else 0)%nat.
Proof.
  unfold score_face, asymmetry_bonus. destruct acc as [sc fs].
  destruct (faceAnalysis data) as [fa|]; cbn [snd]; [|cbn; lia].
  destruct (JS.gt (FaceAnalysisResult.asymmetry fa) 30); cbn [snd];
    [rewrite length_app; cbn; lia|].
  destruct (JS.gt (FaceAnalysisResult.asymmetry fa) 15); cbn [snd];
    [rewrite length_app; cbn; lia|cbn; lia].
Qed.

Lemma score_speech_snd (data : AnalysisData) (acc : Z * list string) :
  List.length (snd (score_speech data acc))
  = (List.length (snd acc)
     + match speechAnalysis data with
       | Some sa =>
           (if SpeechAnalysisResult.isSlurred sa then 1 else 0)
           + (if JS.lt (SpeechAnalysisResult.confidence sa) 0.7 then 1 else 0)
       | None => 0
       end)%nat.
Proof.
  unfold score_speech.
  destruct (speechAnalysis data) as [sa|]; [|lia].
  destruct (SpeechAnalysisResult.isSlurred sa);
    destruct (JS.lt (SpeechAnalysisResult.confidence sa) 0.7);
    cbn [fst snd]; rewrite ?length_app; cbn [List.length]; lia.
Qed.

Lemma calculateLocally_factors toFixed1 (data : AnalysisData) (e : JS.Env) :
  AIRiskScore.factors (fst (calculateLocally toFixed1 data e))
  = snd (score_speech data (score_face toFixed1 data (score_befast data))).
Proof.
  unfold calculateLocally.
  destruct (score_speech data (score_face toFixed1 data (score_befast data)))
    as [sc fs].
  reflexivity.
Qed.

(** The local result explains every point it gives: its list of factors is
    empty exactly when the score is 0, and it has at most 4 entries. *)
Theorem calculateLocally_factors_iff_score :
  forall toFixed1 (data : AnalysisData) (e : JS.Env),
    let r := fst (calculateLocally toFixed1 data e) in
    (AIRiskScore.factors r = [] <-> AIRiskScore.score r = 0)
    /\ (List.length (AIRiskScore.factors r) <= 4)%nat.
Proof.
  intros toFixed1 data e r. subst r.
  destruct (RiskScoring.calculateLocally_fields toFixed1 data e) as [-> _].
  rewrite calculateLocally_factors.
  pose proof (score_speech_snd data (score_face toFixed1 data (score_befast data)))
    as Hlen.
  rewrite score_face_snd, score_befast_snd in Hlen.
  pose proof (RiskScoring.count_true_range (befastAnswers data)) as Hc.
  rewrite <- length_zero_iff_nil. rewrite Hlen. clear Hlen.
  unfold raw_score, asymmetry_bonus, speech_bonus.
  destruct (Z.ltb_spec 0 (count_true (befastAnswers data)));
    destruct (faceAnalysis data) as [fa|];
    destruct (speechAnalysis data) as [sa|];
    repeat match goal with
           | |- context [JS.gt ?a ?b] => destruct (JS.gt a b)
           | |- context [JS.lt ?a ?b] => destruct (JS.lt a b)
           | |- context [SpeechAnalysisResult.isSlurred ?a] =>
               destruct (SpeechAnalysisResult.isSlurred a)
           end;
    cbn -[Z.mul Z.min]; lia.
Qed.

(** *** The assessment page's score *)

Lemma page_score_befast_fst (a : BEFASTAnswers.t) :
  fst (AssessmentPage.score_befast a) = 20 * count_true a.
Proof.
  unfold AssessmentPage.score_befast.
  change (List.length (filter BEFASTAnswers.is_true (BEFASTAnswers.values a)))
    with (positiveBEFAST a).
  rewrite <- RiskScoring.positiveBEFAST_count.
  destruct (positiveBEFAST a) as [|n]; cbn [Nat.ltb Nat.leb fst]; lia.
Qed.

Lemma page_score_face_fst toFixed1 (res : AssessmentPage.AnalysisResults)
    (acc : Z * list string) :
  fst (AssessmentPage.score_face toFixed1 res acc)
  = fst acc + page_asymmetry_bonus (AssessmentPage.face res).
Proof.
  unfold AssessmentPage.score_face, page_asymmetry_bonus. destruct acc as [sc fs].
  destruct (AssessmentPage.face res) as [fa|]; cbn [fst]; [|lia].
  destruct (JS.gt (FaceAnalysisResult.asymmetry fa) 15); cbn [fst]; [lia|].
  destruct (JS.gt (FaceAnalysisResult.asymmetry fa) 10); cbn [fst]; lia.
Qed.

Lemma page_score_speech_fst (res : AssessmentPage.AnalysisResults)
    (acc : Z * list string) :
  fst (AssessmentPage.score_speech res acc)
  = fst acc + speech_bonus (AssessmentPage.speech res).
Proof.
  unfold AssessmentPage.score_speech, speech_bonus.
  destruct (AssessmentPage.speech res) as [sa|]; [|lia].
  destruct (SpeechAnalysisResult.isSlurred sa);
    destruct (JS.lt (SpeechAnalysisResult.confidence sa) 0.7); cbn [fst]; lia.
Qed.

Lemma calculateScore_score toFixed1 (a : BEFASTAnswers.t)
    (res : AssessmentPage.AnalysisResults) :
  AssessmentPage.score (AssessmentPage.calculateScore toFixed1 a res) = page_score a res.
Proof.
  unfold page_score.
  rewrite <- page_score_befast_fst, <- page_score_face_fst with (toFixed1 := toFixed1),
    <- page_score_speech_fst.
  unfold AssessmentPage.calculateScore.
  destruct (AssessmentPage.score_speech _ _) as [sc fs]. cbn [fst].
  destruct (50 <=? sc); [reflexivity|]. destruct (25 <=? sc); reflexivity.
Qed.

Lemma speech_bonus_range (s : option SpeechAnalysisResult.t) : 0 <= speech_bonus s <= 35.
Proof.
  unfold speech_bonus. destruct s as [sa|]; [|lia].
  destruct (SpeechAnalysisResult.isSlurred sa);
    destruct (JS.lt (SpeechAnalysisResult.confidence sa) 0.7); lia.
Qed.

(** The assessment page's score is 20 per [true] answer, plus 25 for an
    asymmetry above 15 or else 15 for one above 10, plus the speech bonuses;
    unlike the advisor's it is not clamped: it ranges over [[0,160]] and 160
    is reached. *)
Theorem calculateScore_unclamped :
  forall toFixed1,
    (forall (a : BEFASTAnswers.t) (res : AssessmentPage.AnalysisResults),
        let r := AssessmentPage.calculateScore toFixed1 a res in
        AssessmentPage.score r = page_score a res
        /\ 0 <= AssessmentPage.score r <= 160)
    /\ (exists a res,
          AssessmentPage.score (AssessmentPage.calculateScore toFixed1 a res) = 160).
Proof.
  intros toFixed1. split.
  - intros a res r. subst r. rewrite calculateScore_score. split; [reflexivity|].
    unfold page_score.
    pose proof (RiskScoring.count_true_range a).
    pose proof (speech_bonus_range (AssessmentPage.speech res)).
    unfold page_asymmetry_bonus.
    destruct (AssessmentPage.face res) as [fa|]; [|lia].
    destruct (JS.gt (FaceAnalysisResult.asymmetry fa) 15); [lia|].
    destruct (JS.gt (FaceAnalysisResult.asymmetry fa) 10); lia.
  - exists (BEFASTAnswers.mk (Some true) (Some true) (Some true) (Some true) (Some true)).
    exists (AssessmentPage.mkResults (Some scenario_face) (Some scenario_speech)).
    reflexivity.
Qed.

(** *** The two scorers side by side *)

Lemma gt_30_15 (a : JS.number) : JS.gt a 30 = true -> JS.gt a 15 = true.
Proof. unfold JS.gt. apply FloatOrder.ltb_trans. reflexivity. Qed.

Lemma gt_15_10 (a : JS.number) : JS.gt a 15 = true -> JS.gt a 10 = true.
Proof. unfold JS.gt. apply FloatOrder.ltb_trans. reflexivity. Qed.

Lemma gt_10_03 (a : JS.number) : JS.gt a 10 = true -> JS.gt a 0.3 = true.
Proof. unfold JS.gt. apply FloatOrder.ltb_trans. reflexivity. Qed.

(** The advisor's asymmetry tier is at most 5 above the page's, and the
    page's is positive exactly when the asymmetry is above 10. *)
Lemma asymmetry_bonuses (f : option FaceAnalysisResult.t) :
  asymmetry_bonus f <= page_asymmetry_bonus f + 5
  /\ (0 < asymmetry_bonus f -> 25 <= page_asymmetry_bonus f).
Proof.
  unfold asymmetry_bonus, page_asymmetry_bonus. destruct f as [fa|]; [|lia].
  destruct (JS.gt (FaceAnalysisResult.asymmetry fa) 30) eqn:H30.
  - rewrite (gt_30_15 _ H30). lia.
  - destruct (JS.gt (FaceAnalysisResult.asymmetry fa) 15) eqn:H15; [lia|].
    destruct (JS.gt (FaceAnalysisResult.asymmetry fa) 10); lia.
Qed.

(** On the same answers and analyses the assessment page never reports a
    lower level than the advisor's local calculation. *)
Theorem page_level_at_least_local :
  forall toFixed1 toFixed1' (data : AnalysisData) (e : JS.Env),
    level_rank (AIRiskScore.level (fst (calculateLocally toFixed1 data e)))
    <= level_rank
         (AssessmentPage.level
            (AssessmentPage.calculateScore toFixed1' (befastAnswers data)
               (page_results data))).
Proof.
  intros toFixed1 toFixed1' data e.
  destruct (RiskScoring.calculateLocally_fields toFixed1 data e) as [_ ->].
  rewrite RiskScoring.calculateScore_level, calculateScore_score.
  unfold page_score, raw_score, page_results. cbn [AssessmentPage.face AssessmentPage.speech].
  destruct (asymmetry_bonuses (faceAnalysis data)) as [Hle _].
  unfold level_of, level_50_25, level_rank.
  repeat match goal with
         | |- context [?a <=? ?b] => destruct (Z.leb_spec a b)
         end; lia.
Qed.

(** *** The fallback analysis *)

Lemma fallbackAnalysis_fields toUpperCase (answers : list (string * option bool))
    (res : AssessmentPage.AnalysisResults) (e : JS.Env) :
  let n := List.length (filter (fun '(_, answer) => BEFASTAnswers.is_true answer) answers) in
  let confirmed :=
    match AssessmentPage.face res with
    | Some fa => JS.gt (FaceAnalysisResult.asymmetry fa) 0.3
    | None => false
    end
    || match AssessmentPage.speech res with
       | Some sa => SpeechAnalysisResult.isSlurred sa
       | None => false
       end in
  let r := fst (AIAnalysis.fallbackAnalysis toUpperCase answers res e) in
  AIAnalysis.riskLevel r
    = (if confirmed then AIAnalysis.HIGH
       else if (n =? 0)%nat then AIAnalysis.LOW
       else if (n =? 1)%nat then AIAnalysis.MODERATE
       else AIAnalysis.HIGH)
  /\ AIAnalysis.emergencyAction r
     = (confirmed || negb ((n =? 0)%nat || (n =? 1)%nat))
  /\ AIAnalysis.confidence r = 0.8%float.
Proof.
  cbv zeta. unfold AIAnalysis.fallbackAnalysis.
  rewrite length_map.
  destruct (List.length (filter _ answers) =? 0)%nat;
    [|destruct (List.length (filter _ answers) =? 1)%nat];
    destruct (_ || _); repeat split; reflexivity.
Qed.

Lemma fallbackAnalysis_high toUpperCase (answers : list (string * option bool))
    (res : AssessmentPage.AnalysisResults) (e : JS.Env) :
  let r := fst (AIAnalysis.fallbackAnalysis toUpperCase answers res e) in
  let positives :=
    List.length (filter (fun '(_, answer) => BEFASTAnswers.is_true answer) answers) in
  (AIAnalysis.emergencyAction r = true <-> AIAnalysis.riskLevel r = AIAnalysis.HIGH)
  /\ (AIAnalysis.riskLevel r = AIAnalysis.HIGH
      <-> (2 <= positives)%nat
          \/ (exists fa, AssessmentPage.face res = Some fa
                         /\ JS.gt (FaceAnalysisResult.asymmetry fa) 0.3 = true)
          \/ (exists sa, AssessmentPage.speech res = Some sa
                         /\ SpeechAnalysisResult.isSlurred sa = true)).
Proof.
  intros r positives. subst r.
  destruct (fallbackAnalysis_fields toUpperCase answers res e) as (-> & -> & _).
  fold positives.
  destruct (AssessmentPage.face res) as [fa|];
    destruct (AssessmentPage.speech res) as [sa|];
    try destruct (JS.gt (FaceAnalysisResult.asymmetry fa) 0.3) eqn:Hface;
    try destruct (SpeechAnalysisResult.isSlurred sa) eqn:Hslur;
    cbn [orb];
    destruct (Nat.eqb_spec positives 0) as [H0|H0];
    try destruct (Nat.eqb_spec positives 1) as [H1|H1];
    cbn [orb negb];
    (split; [split; congruence|]);
    (split;
     [intros H; try discriminate;
      solve [left; lia
            | right; left; eexists; split; [reflexivity|assumption]
            | right; right; eexists; split; [reflexivity|assumption]]
     |intros [H|[(x & Hx & Hg)|(x & Hx & Hg)]]; try reflexivity; try lia; congruence]).
Qed.

(** Whatever the answers and analyses, the fallback analysis asks for
    emergency action exactly when its risk level is HIGH; the level is HIGH
    exactly when two or more answers are [true], or the face asymmetry is
    above 0.3, or the speech is slurred; and it is never CRITICAL. *)
Theorem fallbackAnalysis_emergency_iff_high :
  forall toUpperCase (answers : list (string * option bool))
         (res : AssessmentPage.AnalysisResults) (e : JS.Env),
    let r := fst (AIAnalysis.fallbackAnalysis toUpperCase answers res e) in
    let positives :=
      List.length (filter (fun '(_, answer) => BEFASTAnswers.is_true answer) answers) in
    (AIAnalysis.emergencyAction r = true <-> AIAnalysis.riskLevel r = AIAnalysis.HIGH)
    /\ (AIAnalysis.riskLevel r = AIAnalysis.HIGH
        <-> (2 <= positives)%nat
            \/ (exists fa, AssessmentPage.face res = Some fa
                           /\ JS.gt (FaceAnalysisResult.asymmetry fa) 0.3 = true)
            \/ (exists sa, AssessmentPage.speech res = Some sa
                           /\ SpeechAnalysisResult.isSlurred sa = true))
    /\ AIAnalysis.riskLevel r <> AIAnalysis.CRITICAL.
Proof.
  intros toUpperCase answers res e r positives.
  destruct (fallbackAnalysis_high toUpperCase answers res e) as (Hem & Hhigh).
  split; [exact Hem|]. split; [exact Hhigh|].
  subst r.
  destruct (fallbackAnalysis_fields toUpperCase answers res e) as (-> & _).
  repeat match goal with
         | |- context [if ?b then _ else _] => destruct b
         end; discriminate.
Qed.

Lemma entries_positive (a : BEFASTAnswers.t) :
  Z.of_nat (List.length (filter (fun '(_, answer) => BEFASTAnswers.is_true answer)
                                (AIAnalysis.entries a)))
  = count_true a.
Proof.
  destruct a as [[[|]|] [[|]|] [[|]|] [[|]|] [[|]|]]; reflexivity.
Qed.

(** Whenever the assessment page reports HIGH, the fallback analysis of the
    same answers and analyses reports HIGH too and asks for emergency
    action. *)
Theorem page_high_implies_fallback_high :
  forall toFixed1 toUpperCase (a : BEFASTAnswers.t)
         (res : AssessmentPage.AnalysisResults) (e : JS.Env),
    AssessmentPage.level (AssessmentPage.calculateScore toFixed1 a res) = HIGH ->
    let r := fst (AIAnalysis.fallbackAnalysis toUpperCase (AIAnalysis.entries a) res e) in
    AIAnalysis.riskLevel r = AIAnalysis.HIGH /\ AIAnalysis.emergencyAction r = true.
Proof.
  intros toFixed1 toUpperCase a res e Hhigh r. subst r.
  destruct (fallbackAnalysis_high toUpperCase (AIAnalysis.entries a) res e)
    as (Hem & Hiff).
  cbv zeta in Hem, Hiff.
  assert (Hgoal : AIAnalysis.riskLevel
                    (fst (AIAnalysis.fallbackAnalysis toUpperCase (AIAnalysis.entries a) res e))
                  = AIAnalysis.HIGH).
  { apply Hiff.
    rewrite RiskScoring.calculateScore_level, calculateScore_score in Hhigh.
    unfold level_50_25 in Hhigh.
    destruct (Z.leb_spec 50 (page_score a res)) as [H50|H50];
      [|destruct (25 <=? page_score a res); discriminate].
    unfold page_score in H50.
    pose proof (entries_positive a) as Hn.
    destruct (Z.le_gt_cases 2 (count_true a)) as [H2|H2]; [left; lia|right].
    unfold page_asymmetry_bonus, speech_bonus in H50.
    destruct (AssessmentPage.face res) as [fa|] eqn:Hf.
    - destruct (JS.gt (FaceAnalysisResult.asymmetry fa) 15) eqn:H15.
      + left. exists fa. split; [reflexivity|]. apply gt_10_03, gt_15_10, H15.
      + destruct (JS.gt (FaceAnalysisResult.asymmetry fa) 10) eqn:H10.
        * left. exists fa. split; [reflexivity|]. apply gt_10_03, H10.
        * right. destruct (AssessmentPage.speech res) as [sa|]; [|lia].
          exists sa. split; [reflexivity|].
          destruct (SpeechAnalysisResult.isSlurred sa); [reflexivity|].
          destruct (JS.lt (SpeechAnalysisResult.confidence sa) 0.7); lia.
    - right. destruct (AssessmentPage.speech res) as [sa|]; [|lia].
      exists sa. split; [reflexivity|].
      destruct (SpeechAnalysisResult.isSlurred sa); [reflexivity|].
      destruct (JS.lt (SpeechAnalysisResult.confidence sa) 0.7); lia. }
  split; [exact Hgoal | apply Hem, Hgoal].
Qed.

Lemma page_high_sample :
  AIAnalysis.riskLevel
    (fst (AIAnalysis.fallbackAnalysis sample_upper (AIAnalysis.entries three_positive)
            (AssessmentPage.mkResults None None) sample_env))
  = AIAnalysis.HIGH
  /\ AIAnalysis.emergencyAction
       (fst (AIAnalysis.fallbackAnalysis sample_upper (AIAnalysis.entries three_positive)
               (AssessmentPage.mkResults None None) sample_env))
     = true.
Proof.
  exact (page_high_implies_fallback_high sample_toFixed1 sample_upper three_positive
           (AssessmentPage.mkResults None None) sample_env eq_refl).
Defined.

End ScoringFacts.

(* ------------------------------------------------------------------ *)
(** ** The store                                                        *)
(* ------------------------------------------------------------------ *)

Module StoreFacts.
Import AppStore RiskSpec ScoringSpec.
Local Unset Implicit Arguments.

(** The integer scores the advisor can return compare with 70 as
    numbers the way they do as integers. *)
Lemma of_Z_gt_70_table :
  forallb (fun n => Bool.eqb (JS.gt (JS.of_Z (Z.of_nat n)) 70) (70 <? Z.of_nat n))
          (seq 0 101) = true.
Proof. vm_compute. reflexivity. Qed.

Lemma of_Z_gt_70 (z : Z) :
  0 <= z <= 100 -> JS.gt (JS.of_Z z) 70 = (70 <? z).
Proof.
  intros Hz.
  pose proof (proj1 (forallb_forall _ _) of_Z_gt_70_table (Z.to_nat z)) as H.
  cbv beta in H. rewrite Z2Nat.id in H by lia.
  apply eqb_prop, H, in_seq. lia.
Qed.

Lemma local_score_range toFixed1 (data : AiAdvisor.AnalysisData) (e : JS.Env) :
  0 <= AIRiskScore.score (fst (AiAdvisor.calculateLocally toFixed1 data e)) <= 100.
Proof.
  destruct (RiskScoring.calculateLocally_fields toFixed1 data e) as [-> _].
  pose proof (RiskScoring.raw_score_nonneg data). lia.
Qed.

(** Storing a locally calculated score switches emergency mode on (and the
    screen to [time]) exactly when the score is above 70, and then the level
    is HIGH; at 70 or below the mode and the screen stay as they were.  The
    level is HIGH from 70 on, so a score of exactly 70 is HIGH without
    emergency mode, and the advisor does return 70. *)
Theorem local_score_emergency_above_70 :
  forall toFixed1 (e : JS.Env) (st : AppState),
    (forall (data : AiAdvisor.AnalysisData),
        let r := fst (AiAdvisor.calculateLocally toFixed1 data e) in
        let st' := setAIRiskScore (of_local r) st in
        aiRiskScore st' = Some (of_local r)
        /\ (AIRiskScore.level r = HIGH <-> 70 <= AIRiskScore.score r)
        /\ (if 70 <? AIRiskScore.score r
            then isEmergencyMode st' = true /\ currentScreen st' = time
            else isEmergencyMode st' = isEmergencyMode st
                 /\ currentScreen st' = currentScreen st))
    /\ AIRiskScore.score (fst (AiAdvisor.calculateLocally toFixed1 seventy_data e)) = 70.
Proof.
  intros toFixed1 e st. split; [|reflexivity].
  intros data r st'. subst st'.
  pose proof (local_score_range toFixed1 data e) as Hrange. fold r in Hrange.
  unfold setAIRiskScore. cbn [of_local score].
  rewrite (of_Z_gt_70 _ Hrange).
  split; [destruct (70 <? AIRiskScore.score r); reflexivity|].
  split.
  - subst r.
    destruct (RiskScoring.calculateLocally_fields toFixed1 data e) as [-> ->].
    unfold AiAdvisor.level_of.
    destruct (Z.leb_spec 70 (raw_score data)); [split; [lia|reflexivity]|].
    destruct (40 <=? raw_score data); split; try discriminate; lia.
  - destruct (70 <? AIRiskScore.score r); split; reflexivity.
Qed.

(** Emergency mode is sticky: once it is on, every action keeps it on
    except [setEmergencyMode(false)] and [resetApp]; and when it is off, the
    only actions that turn it on are [setEmergencyMode(true)] and
    [setAIRiskScore] with a score above 70. *)
Theorem emergency_mode_changes :
  forall (st : AppState) (a : Action),
    (isEmergencyMode st = true ->
     a <> SetEmergencyMode false -> a <> ResetApp ->
     isEmergencyMode (dispatch st a) = true)
    /\ (isEmergencyMode st = false ->
        isEmergencyMode (dispatch st a) = true ->
        a = SetEmergencyMode true
        \/ exists sc, a = SetAIRiskScore sc /\ JS.gt (score sc) 70 = true).
Proof.
  intros st a. split.
  - intros Hon Hoff Hreset.
    destruct a as [k v| | | |sc|[|]| |]; cbn; try assumption; try congruence.
    unfold setAIRiskScore. destruct (JS.gt (score sc) 70); cbn; [reflexivity|exact Hon].
  - intros Hoff Hon.
    destruct a as [k v| | | |sc|[|]| |]; cbn in Hon; try congruence.
    + right. exists sc. split; [reflexivity|].
      unfold setAIRiskScore in Hon.
      destruct (JS.gt (score sc) 70); [reflexivity|cbn in Hon; congruence].
    + left. reflexivity.
Qed.

Lemma emergency_mode_sample :
  isEmergencyMode
    (dispatch (setEmergencyMode true initialState)
              (UpdateBEFASTAnswer BEFASTAnswers.Face false)) = true
  /\ (SetEmergencyMode true = SetEmergencyMode true
      \/ exists sc, SetEmergencyMode true = SetAIRiskScore sc
                    /\ JS.gt (score sc) 70 = true).
Proof.
  split.
  - apply (proj1 (emergency_mode_changes (setEmergencyMode true initialState)
                    (UpdateBEFASTAnswer BEFASTAnswers.Face false)));
      [reflexivity|discriminate|discriminate].
  - apply (proj2 (emergency_mode_changes initialState (SetEmergencyMode true)));
      reflexivity.
Defined.

Lemma get_set_same (k : BEFASTAnswers.key) (v : option bool) (a : BEFASTAnswers.t) :
  BEFASTAnswers.get k (BEFASTAnswers.set k v a) = v.
Proof. destruct k; reflexivity. Qed.

Lemma get_set_other (k k' : BEFASTAnswers.key) (v : option bool) (a : BEFASTAnswers.t) :
  k' <> k -> BEFASTAnswers.get k' (BEFASTAnswers.set k v a) = BEFASTAnswers.get k' a.
Proof. destruct k, k'; intros H; try reflexivity; congruence. Qed.

(** Answering a question stores that answer and nothing else: reading the
    question back gives the answer, every other question and every other
    field of the state is unchanged, a second answer to the same question
    replaces the first, and answers to different questions commute. *)
Theorem updateBEFASTAnswer_lookup :
  forall (st : AppState) (k : BEFASTAnswers.key) (v : bool),
    let st' := updateBEFASTAnswer k v st in
    BEFASTAnswers.get k (befastAnswers st') = Some v
    /\ (forall k', k' <> k ->
          BEFASTAnswers.get k' (befastAnswers st') = BEFASTAnswers.get k' (befastAnswers st))
    /\ (faceAnalysis st', speechAnalysis st', nearbyHospitals st', aiRiskScore st',
        isEmergencyMode st', currentScreen st')
       = (faceAnalysis st, speechAnalysis st, nearbyHospitals st, aiRiskScore st,
          isEmergencyMode st, currentScreen st)
    /\ (forall v', updateBEFASTAnswer k v' st' = updateBEFASTAnswer k v' st)
    /\ (forall k' v', k' <> k ->
          updateBEFASTAnswer k' v' st' = updateBEFASTAnswer k v (updateBEFASTAnswer k' v' st)).
Proof.
  intros st k v st'. subst st'. unfold updateBEFASTAnswer.
  cbn [befastAnswers faceAnalysis speechAnalysis nearbyHospitals aiRiskScore
       isEmergencyMode currentScreen].
  split; [apply get_set_same|].
  split; [intros k' Hk; apply get_set_other, Hk|].
  split; [reflexivity|].
  split.
  - intros v'. f_equal. destruct k; reflexivity.
  - intros k' v' Hk. f_equal. destruct k, k'; try reflexivity; congruence.
Qed.

Lemma existsb_is_true (a : BEFASTAnswers.t) :
  existsb BEFASTAnswers.is_true (BEFASTAnswers.values a) = true <-> some_positive a.
Proof.
  unfold some_positive. rewrite existsb_exists. split.
  - intros (v & Hin & Hv).
    destruct v as [[|]|]; try discriminate.
    cbn in Hin.
    destruct Hin as [H|[H|[H|[H|[H|[]]]]]];
      [exists BEFASTAnswers.Balance|exists BEFASTAnswers.Eyes|exists BEFASTAnswers.Face
      |exists BEFASTAnswers.Arms|exists BEFASTAnswers.Speech]; exact H.
  - intros (k & Hk). exists (Some true). split; [|reflexivity].
    rewrite <- Hk. destruct k; cbn; auto 6.
Qed.

(** [checkForEmergency] holds exactly when some answer is [true] or the
    stored score is above 70.  So it holds right after any YES answer,
    whatever the score, yet answering does not by itself switch emergency
    mode on or change the screen; and after [resetApp] it does not hold. *)
Theorem checkForEmergency_iff :
  forall (st : AppState),
    (checkForEmergency st = true
     <-> some_positive (befastAnswers st)
         \/ exists sc, aiRiskScore st = Some sc /\ JS.gt (score sc) 70 = true)
    /\ (forall k,
          checkForEmergency (updateBEFASTAnswer k true st) = true
          /\ isEmergencyMode (updateBEFASTAnswer k true st) = isEmergencyMode st
          /\ currentScreen (updateBEFASTAnswer k true st) = currentScreen st)
    /\ checkForEmergency (resetApp st) = false.
Proof.
  intros st.
  assert (Hiff : forall s,
             checkForEmergency s = true
             <-> some_positive (befastAnswers s)
                 \/ exists sc, aiRiskScore s = Some sc /\ JS.gt (score sc) 70 = true).
  { intros s. unfold checkForEmergency. rewrite orb_false_r, orb_true_iff.
    rewrite existsb_is_true. split.
    - intros [H|H]; [left; exact H|right].
      destruct (aiRiskScore s) as [sc|]; [|discriminate].
      exists sc. split; [reflexivity|exact H].
    - intros [H|(sc & Hsc & Hgt)]; [left; exact H|right].
      rewrite Hsc. exact Hgt. }
  split; [apply Hiff|]. split; [|reflexivity].
  intros k. split; [|split; reflexivity].
  apply Hiff. left. exists k. cbn [updateBEFASTAnswer befastAnswers].
  apply get_set_same.
Qed.

End StoreFacts.

(* ------------------------------------------------------------------ *)
(** ** Face analysis                                                    *)
(* ------------------------------------------------------------------ *)

Module FaceFacts.
Import JS FaceAnalysis FaceSpec RiskSpec ScoringSpec.
Local Unset Implicit Arguments.

Lemma calculateFacialAsymmetry_defined (landmarks : list FaceLandmarks) :
  (last_anchor < List.length landmarks)%nat ->
  exists leftEye rightEye leftMouth rightMouth noseTip chin,
    nth_error landmarks 33 = Some leftEye
    /\ nth_error landmarks 362 = Some rightEye
    /\ nth_error landmarks 61 = Some leftMouth
    /\ nth_error landmarks 291 = Some rightMouth
    /\ nth_error landmarks 1 = Some noseTip
    /\ nth_error landmarks 18 = Some chin.
Proof.
  unfold last_anchor. intros Hlen.
  assert (H : forall n, (n <= 362)%nat -> exists l, nth_error landmarks n = Some l).
  { intros n Hn. destruct (nth_error landmarks n) as [l|] eqn:Hl; [eauto|].
    apply nth_error_None in Hl. lia. }
  destruct (H 33%nat) as [a Ha]; [lia|]. destruct (H 362%nat) as [b Hb]; [lia|].
  destruct (H 61%nat) as [c Hc]; [lia|]. destruct (H 291%nat) as [d Hd]; [lia|].
  destruct (H 1%nat) as [f Hf]; [lia|]. destruct (H 18%nat) as [g Hg]; [lia|].
  exists a, b, c, d, f, g. repeat split; assumption.
Qed.

Lemma calculateFacialAsymmetry_throws_iff (landmarks : list FaceLandmarks) :
  calculateFacialAsymmetry landmarks = None
  <-> (List.length landmarks <= last_anchor)%nat.
Proof.
  split.
  - intros Hnone.
    destruct (Nat.le_gt_cases (List.length landmarks) last_anchor) as [H|H]; [exact H|].
    destruct (calculateFacialAsymmetry_defined landmarks H)
      as (a & b & c & d & f & g & Ha & Hb & Hc & Hd & Hf & Hg).
    unfold calculateFacialAsymmetry in Hnone. cbv zeta in Hnone.
    rewrite Ha, Hb, Hc, Hd, Hf, Hg in Hnone. discriminate.
  - unfold last_anchor. intros Hlen. unfold calculateFacialAsymmetry. cbv zeta.
    assert (Hb : nth_error landmarks 362 = None) by (apply nth_error_None; exact Hlen).
    rewrite Hb. destruct (nth_error landmarks 33); reflexivity.
Qed.

Lemma calculateFacialAsymmetry_at_most_100 (landmarks : list FaceLandmarks) (a : number) :
  calculateFacialAsymmetry landmarks = Some a -> gt a 100 = false.
Proof.
  intros Ha. unfold calculateFacialAsymmetry in Ha. cbv zeta in Ha.
  destruct (nth_error landmarks 33); [|discriminate].
  destruct (nth_error landmarks 362); [|discriminate].
  destruct (nth_error landmarks 61); [|discriminate].
  destruct (nth_error landmarks 291); [|discriminate].
  destruct (nth_error landmarks 1); [|discriminate].
  destruct (nth_error landmarks 18); [|discriminate].
  injection Ha as <-. apply FloatOrder.Math_min_capped.
Qed.

(** [calculateFacialAsymmetry] throws exactly when the mesh has no landmark
    362 (fewer than 363 landmarks); otherwise it returns a number that never
    compares above 100. *)
Theorem calculateFacialAsymmetry_capped :
  forall (landmarks : list FaceLandmarks),
    (calculateFacialAsymmetry landmarks = None
     <-> (List.length landmarks <= last_anchor)%nat)
    /\ (forall a, calculateFacialAsymmetry landmarks = Some a -> gt a 100 = false).
Proof.
  intros landmarks. split.
  - apply calculateFacialAsymmetry_throws_iff.
  - apply calculateFacialAsymmetry_at_most_100.
Qed.

Lemma short_mesh_throws :
  calculateFacialAsymmetry short_mesh = None.
Proof.
  apply (proj2 (proj1 (calculateFacialAsymmetry_capped short_mesh))).
  unfold short_mesh, last_anchor. rewrite repeat_length. lia.
Defined.

(** A mesh that is its own mirror image measures 0: when the left eye and
    left mouth corners sit at the mirrored positions of the right ones
    ([x = 1 - x'], both finite) and the midpoint of nose tip and chin is 0.5,
    the asymmetry is exactly 0. *)
Theorem mirror_symmetric_face_measures_zero :
  forall (landmarks : list FaceLandmarks)
         (leftEye rightEye leftMouth rightMouth noseTip chin : FaceLandmarks),
    nth_error landmarks 33 = Some leftEye ->
    nth_error landmarks 362 = Some rightEye ->
    nth_error landmarks 61 = Some leftMouth ->
    nth_error landmarks 291 = Some rightMouth ->
    nth_error landmarks 1 = Some noseTip ->
    nth_error landmarks 18 = Some chin ->
    x leftEye = (1 - x rightEye)%float -> PrimFloat.is_finite (x leftEye) = true ->
    x leftMouth = (1 - x rightMouth)%float -> PrimFloat.is_finite (x leftMouth) = true ->
    ((x noseTip + x chin) / 2)%float = 0.5%float ->
    calculateFacialAsymmetry landmarks = Some 0%float.
Proof.
  intros landmarks le re lm rm nt ch Hle Hre Hlm Hrm Hnt Hch He Hfe Hm Hfm Hc.
  unfold calculateFacialAsymmetry. cbv zeta.
  rewrite Hle, Hre, Hlm, Hrm, Hnt, Hch, Hc, <- He, <- Hm.
  rewrite (FloatOrder.sub_self _ Hfe), (FloatOrder.sub_self _ Hfm).
  vm_compute. reflexivity.
Qed.

Lemma centred_mesh_measures_zero :
  calculateFacialAsymmetry centred_mesh = Some 0%float.
Proof.
  apply (mirror_symmetric_face_measures_zero centred_mesh
           centre centre centre centre centre centre);
    vm_compute; reflexivity.
Defined.




End FaceFacts.

(* ------------------------------------------------------------------ *)
(** ** More on the offline speech analysis                              *)
(* ------------------------------------------------------------------ *)

Module SpeechFacts.
Import JS SpeechSpec SpeechFactsSpec.
Local Unset Implicit Arguments.

(** *** Loops *)

Lemma for_loop_invariant {S : Type} (I : Z -> S -> Prop)
    (step : Z) (cond : Z -> bool) (body : Z -> S -> S) :
  (forall j t, I j t -> cond j = true -> I (j + step) (body j t)) ->
  forall (fuel : nat) (i : Z) (s : S),
    I i s -> exists j, I j (Loop.for_loop fuel i step cond body s).
Proof.
  intros Hstep. induction fuel as [|fuel IH]; intros i s Hi; cbn [Loop.for_loop].
  - exists i. exact Hi.
  - destruct (cond i) eqn:Hc.
    + apply IH. apply Hstep; assumption.
    + exists i. exact Hi.
Qed.

Lemma frame_starts_spec (n size hop : Z) :
  0 < hop ->
  Forall (fun i => 0 <= i /\ i < n - size /\ i mod hop = 0)
         (OfflineSpeech.frame_starts n size hop).
Proof.
  intros Hhop. unfold OfflineSpeech.frame_starts.
  destruct (for_loop_invariant
              (fun j acc => (0 <= j /\ j mod hop = 0)
                            /\ Forall (fun i => 0 <= i /\ i < n - size /\ i mod hop = 0) acc)
              hop (fun i => i <? n - size) (fun i acc => acc ++ [i]))
    with (fuel := Z.to_nat n) (i := 0) (s := @nil Z) as (j & _ & H).
  - intros j acc [[Hj Hm] Hacc] Hc. apply Z.ltb_lt in Hc. split.
    + split; [lia|]. rewrite <- Zplus_mod_idemp_r, Z_mod_same_full, Z.add_0_r. exact Hm.
    + apply Forall_app. split; [exact Hacc|]. constructor; [|constructor]. lia.
  - split; [split; [lia|apply Zmod_0_l]|constructor].
  - exact H.
Qed.

Lemma frame_starts_short (n size hop : Z) :
  n <= size -> OfflineSpeech.frame_starts n size hop = [].
Proof.
  intros Hn. unfold OfflineSpeech.frame_starts.
  destruct (Z.to_nat n) as [|fuel]; [reflexivity|].
  cbn [Loop.for_loop]. destruct (Z.ltb_spec 0 (n - size)); [lia|reflexivity].
Qed.

(** *** Short recordings *)

Lemma short_centroid Math_cos (samples : list number) (sampleRate : number) :
  OfflineSpeech.len samples <= 1024 ->
  OfflineSpeech.calculateSpectralCentroid Math_cos samples sampleRate = 0%float
  /\ OfflineSpeech.calculateFormants Math_cos samples sampleRate = [].
Proof.
  intros Hn.
  unfold OfflineSpeech.calculateSpectralCentroid, OfflineSpeech.calculateFormants.
  rewrite (frame_starts_short _ 1024 512 Hn). split; reflexivity.
Qed.

(** A recording of at most 1024 samples has no analysis window: its
    spectral centroid is 0 and it has no formants, whatever it contains, so
    the classifier records "abnormal frequency" and [analyzeSpeech] reports
    it as slurred. *)
Theorem short_recording_is_slurred :
  forall (Math_cos : number -> number) (audioBuffer : AudioBuffer.t) (e : Env),
    (List.length (AudioBuffer.channelData0 audioBuffer) <= 1024)%nat ->
    let f := OfflineSpeech.extractAudioFeatures Math_cos audioBuffer in
    AudioFeatures.spectralCentroid f = 0%float
    /\ AudioFeatures.formants f = []
    /\ In "abnormal frequency"%string (snd (OfflineSpeech.slurRules f))
    /\ SpeechAnalysisResult.isSlurred
         (fst (OfflineService.analyzeSpeech Math_cos (Some audioBuffer) e)) = true.
Proof.
  intros Math_cos b e Hlen f.
  assert (Hn : OfflineSpeech.len (AudioBuffer.channelData0 b) <= 1024)
    by (unfold OfflineSpeech.len; lia).
  destruct (short_centroid Math_cos _ (AudioBuffer.sampleRate b) Hn) as [Hc Hf].
  assert (Hcf : AudioFeatures.spectralCentroid f = 0%float) by exact Hc.
  assert (Hrules : fst (OfflineSpeech.slurRules f) = true
                   /\ In "abnormal frequency"%string (snd (OfflineSpeech.slurRules f))).
  { unfold OfflineSpeech.slurRules. rewrite Hcf.
    change (lt 0 300 || gt 0 5000) with true.
    unfold OfflineSpeech.flag at 3. cbn [fst snd].
    unfold OfflineSpeech.flag.
    repeat match goal with
           | |- context [if ?c then _ else _] => destruct c
           end; cbn [fst snd]; split; try reflexivity;
      rewrite ?in_app_iff; cbn [In]; tauto. }
  split; [exact Hcf|]. split; [exact Hf|]. split; [apply Hrules|].
  unfold OfflineService.analyzeSpeech, OfflineService.try_catch, bind, ret.
  fold f.
  destruct (OfflineSpeech.analyzeSpeechPatterns f e) as [analysis e'] eqn:Ha.
  cbn. unfold Date_now. cbn.
  pose proof (SpeechAnalysis.analyzeSpeechPatterns_fields f e) as [_ Hs].
  rewrite Ha in Hs. cbn [fst] in Hs. rewrite Hs. apply Hrules.
Qed.

Lemma loud_short_recording_is_slurred :
  SpeechAnalysisResult.isSlurred
    (fst (OfflineService.analyzeSpeech sample_cos (Some loud_short_buffer) other_env))
  = true.
Proof.
  apply (short_recording_is_slurred sample_cos loud_short_buffer other_env).
  vm_compute. repeat constructor.
Defined.

(** *** Analysis windows *)

Lemma applyHannWindow_length Math_cos (samples : list number) :
  List.length (OfflineSpeech.applyHannWindow Math_cos samples) = List.length samples.
Proof.
  unfold OfflineSpeech.applyHannWindow. rewrite !length_map, length_seq. reflexivity.
Qed.

Lemma computeMagnitude_length Math_cos (samples : list number) :
  List.length (OfflineSpeech.computeMagnitude Math_cos samples)
  = (List.length samples / 2)%nat.
Proof.
  unfold OfflineSpeech.computeMagnitude.
  rewrite !length_map, length_seq, applyHannWindow_length. reflexivity.
Qed.

(** Every analysis window starts at a multiple of 512, lies wholly inside
    the recording with at least one sample to spare, has exactly 1024 samples
    and yields exactly 512 magnitudes: no window is ever cut short. *)
Theorem analysis_windows_are_full :
  forall (Math_cos : number -> number) (samples : list number) (i : Z),
    In i (OfflineSpeech.frame_starts (OfflineSpeech.len samples) 1024 512) ->
    0 <= i /\ i mod 512 = 0 /\ i + 1024 < OfflineSpeech.len samples
    /\ List.length (OfflineSpeech.slice samples i 1024) = 1024%nat
    /\ List.length (OfflineSpeech.computeMagnitude Math_cos
                       (OfflineSpeech.slice samples i 1024)) = 512%nat.
Proof.
  intros Math_cos samples i Hin.
  pose proof (frame_starts_spec (OfflineSpeech.len samples) 1024 512 eq_refl) as Hall.
  rewrite Forall_forall in Hall. destruct (Hall i Hin) as (H0 & Hlt & Hmod).
  assert (Hslice : List.length (OfflineSpeech.slice samples i 1024) = 1024%nat).
  { unfold OfflineSpeech.slice. rewrite length_firstn, length_skipn.
    unfold OfflineSpeech.len in Hlt. lia. }
  repeat split; try assumption; try lia.
  rewrite computeMagnitude_length, Hslice. reflexivity.
Qed.

Lemma first_window_of_long_silence :
  List.length (OfflineSpeech.computeMagnitude sample_cos
                 (OfflineSpeech.slice long_silence 512 1024)) = 512%nat.
Proof.
  apply (analysis_windows_are_full sample_cos long_silence 512).
  vm_compute. right. left. reflexivity.
Defined.

(** *** Pitch *)

Lemma pitch_loop (samples : list number) (lo hi n : Z) (fuel : nat)
    (corr : Z -> number) :
  let '(bestPeriod, _) :=
    Loop.for_loop fuel lo 1
      (fun period => (period <? hi) && (2 * period <? n))
      (fun period '(bestPeriod, bestCorrelation) =>
         if gt (corr period) bestCorrelation
         then (period, corr period)
         else (bestPeriod, bestCorrelation))
      (0, 0%float) in
  bestPeriod = 0 \/ (lo <= bestPeriod < hi /\ 2 * bestPeriod < n).
Proof.
  destruct (for_loop_invariant
              (fun j (st : Z * number) =>
                 lo <= j /\ (fst st = 0 \/ (lo <= fst st < hi /\ 2 * fst st < n)))
              1 (fun period => (period <? hi) && (2 * period <? n))
              (fun period '(bestPeriod, bestCorrelation) =>
                 if gt (corr period) bestCorrelation
                 then (period, corr period)
                 else (bestPeriod, bestCorrelation)))
    with (fuel := fuel) (i := lo) (s := (0, 0%float)) as (j & _ & H).
  - intros j [bp bc] [Hj Hbest] Hc. apply andb_true_iff in Hc.
    destruct Hc as [Hhi Hn]. apply Z.ltb_lt in Hhi, Hn.
    split; [lia|].
    destruct (gt (corr j) bc); cbn [fst]; [right; lia|exact Hbest].
  - split; [lia|left; reflexivity].
  - destruct (Loop.for_loop _ _ _ _ _ _) as [bp bc]. exact H.
Qed.

(** The detected pitch is either 0 or [sampleRate / p] for a whole period
    [p] that is positive, lies between [floor(sampleRate/400)] and
    [floor(sampleRate/80)] (the upper bound excluded) and is shorter than
    half the recording.  So at 44.1 kHz a recording of at most 220 samples
    has pitch 0. *)
Theorem calculatePitch_period :
  (forall (samples : list number) (sampleRate : number),
      let r := OfflineSpeech.calculatePitch samples sampleRate in
      r = 0%float
      \/ exists lo hi p,
           min_period sampleRate = Some lo
           /\ max_period sampleRate = Some hi
           /\ lo <= p < hi /\ 0 < p /\ 2 * p < OfflineSpeech.len samples
           /\ r = (sampleRate / of_Z p)%float)
  /\ (forall (samples : list number),
        OfflineSpeech.len samples <= 220 ->
        OfflineSpeech.calculatePitch samples 44100%float = 0%float).
Proof.
  assert (Hgen : forall samples sampleRate,
             let r := OfflineSpeech.calculatePitch samples sampleRate in
             r = 0%float
             \/ exists lo hi p,
                  min_period sampleRate = Some lo
                  /\ max_period sampleRate = Some hi
                  /\ lo <= p < hi /\ 0 < p /\ 2 * p < OfflineSpeech.len samples
                  /\ r = (sampleRate / of_Z p)%float).
  { intros samples sampleRate r. subst r. unfold OfflineSpeech.calculatePitch.
    cbv zeta. unfold min_period, max_period.
    destruct (to_Z (Math_floor (sampleRate / 400)%float)) as [lo|]; [|left; reflexivity].
    destruct (to_Z (Math_floor (sampleRate / 80)%float)) as [hi|]; [|left; reflexivity].
    match goal with
    | |- context [Loop.for_loop ?fuel lo 1 _ (fun period '(bp, bc) =>
                    if gt (@?corr period) bc then _ else _) _] =>
        pose proof (pitch_loop samples lo hi (OfflineSpeech.len samples) fuel corr) as H
    end.
    cbv beta in H.
    destruct (Loop.for_loop _ lo 1 _ _ _) as [bp bc].
    destruct (Z.ltb_spec 0 bp) as [Hpos|Hpos]; [|left; reflexivity].
    right. exists lo, hi, bp. destruct H as [H|H]; [lia|].
    repeat split; try reflexivity; lia. }
  split; [exact Hgen|].
  intros samples Hn.
  destruct (Hgen samples 44100%float) as [H|(lo & hi & p & Hlo & _ & Hp & _ & Hlen & _)];
    [exact H|].
  vm_compute in Hlo. injection Hlo as <-. lia.
Qed.

Lemma short_recording_has_no_pitch :
  OfflineSpeech.calculatePitch (AudioBuffer.channelData0 silent_buffer) 44100%float
  = 0%float.
Proof.
  apply (proj2 calculatePitch_period (AudioBuffer.channelData0 silent_buffer)).
  vm_compute. discriminate.
Defined.

(** *** Verdicts and reasons *)

Ltac split_rules :=
  repeat match goal with
         | |- context [if ?c then _ else _] => destruct c
         end.

(** Both classifiers report slurred speech exactly when they recorded at
    least one reason, and every recorded reason is one of the fixed ones
    (six for the single-shot classifier, five for the real-time one). *)
Theorem slurred_iff_some_reason :
  (forall (f : AudioFeatures.t),
      (fst (OfflineSpeech.slurRules f) = true <-> snd (OfflineSpeech.slurRules f) <> [])
      /\ incl (snd (OfflineSpeech.slurRules f)) offline_reasons)
  /\ (forall (f : RealTime.Features.t),
        (fst (RealTime.slurRules f) = true <-> snd (RealTime.slurRules f) <> [])
        /\ incl (snd (RealTime.slurRules f)) realtime_reasons).
Proof.
  split; intros f.
  - unfold OfflineSpeech.slurRules, OfflineSpeech.flag, offline_reasons.
    split_rules; cbn [fst snd app];
      (split; [split; [discriminate|congruence]
              |intros r Hr; cbn in Hr |- *; tauto]).
  - unfold RealTime.slurRules, RealTime.flag, OfflineSpeech.flag, realtime_reasons.
    split_rules; cbn [fst snd app];
      (split; [split; [discriminate|congruence]
              |intros r Hr; cbn in Hr |- *; tauto]).
Qed.

(** *** [analyzeSpeech] *)

(** When the recording decodes, the verdict, the confidence and the
    timestamp that [analyzeSpeech] returns are those of the features: they
    do not depend on the random source or on the build mode (only the label
    does).  When decoding fails, the result is the simulated one, whose
    verdict is decided by the next random number alone: slurred exactly when
    it is below 0.25. *)
Theorem analyzeSpeech_verdict :
  forall (Math_cos : number -> number) (e : Env),
    (forall (audioBuffer : AudioBuffer.t),
        let f := OfflineSpeech.extractAudioFeatures Math_cos audioBuffer in
        let r := fst (OfflineService.analyzeSpeech Math_cos (Some audioBuffer) e) in
        SpeechAnalysisResult.isSlurred r = fst (OfflineSpeech.slurRules f)
        /\ SpeechAnalysisResult.confidence r = OfflineSpeech.patternConfidence f
        /\ SpeechAnalysisResult.timestamp r = clock e)
    /\ OfflineService.analyzeSpeech Math_cos None e
       = OfflineService.simulateSpeechAnalysis e
    /\ SpeechAnalysisResult.isSlurred (fst (OfflineService.simulateSpeechAnalysis e))
       = lt (random_source e 0%nat) 0.25.
Proof.
  intros Math_cos e. split; [|split; reflexivity].
  intros b f r. subst r.
  unfold OfflineService.analyzeSpeech, OfflineService.try_catch, bind, ret. fold f.
  pose proof (SpeechAnalysis.analyzeSpeechPatterns_fields f e) as [Hc Hs].
  assert (Hclock : clock (snd (OfflineSpeech.analyzeSpeechPatterns f e)) = clock e).
  { unfold OfflineSpeech.analyzeSpeechPatterns.
    destruct (OfflineSpeech.slurRules f) as [sl rs].
    unfold bind, random_element, bind, Math_random, development, ret. reflexivity. }
  destruct (OfflineSpeech.analyzeSpeechPatterns f e) as [analysis e'].
  cbn [fst snd] in *. unfold Date_now. cbn.
  repeat split; assumption.
Qed.

End SpeechFacts.

(* ------------------------------------------------------------------ *)
(** ** Silent recordings                                                *)
(* ------------------------------------------------------------------ *)

Module SilentAudio.
Import JS SpeechSpec.
Local Unset Implicit Arguments.




Lemma sum_of_squares_silent (samples : list number) :
  silent samples = true ->
  fold_left (fun sum sample => (sum + sample * sample)%float) samples 0%float = 0%float.
Proof.
  induction samples as [|s rest IH]; [reflexivity|].
  intros Hs. cbn [silent forallb] in Hs. apply andb_true_iff in Hs. destruct Hs as [H0 Hr].
  cbn [fold_left]. destruct (FloatOrder.is_zero_cases s H0) as [-> | ->];
    (replace (0 + _ * _)%float with 0%float by reflexivity); apply IH, Hr.
Qed.














End SilentAudio.

(* ------------------------------------------------------------------ *)
(** ** Rounding of binary64 arithmetic, over the reals                  *)
(* ------------------------------------------------------------------ *)

Module FloatRounding.
Import Reals Lra.
Import FloatSpec.
Local Open Scope Z_scope.
Local Unset Implicit Arguments.

Lemma p2_pos (e : Z) : (0 < p2 e)%R.
Proof. apply powerRZ_lt. lra. Qed.

Lemma p2_add (a b : Z) : p2 (a + b) = (p2 a * p2 b)%R.
Proof. apply powerRZ_add. lra. Qed.

Lemma p2_0 : p2 0 = 1%R.
Proof. reflexivity. Qed.

Lemma p2_1 : p2 1 = 2%R.
Proof. unfold p2. apply powerRZ_1. Qed.

Lemma p2_IZR (n : Z) : 0 <= n -> p2 n = IZR (2 ^ n).
Proof.
  intros Hn. destruct n as [|p|p]; [reflexivity| |lia].
  unfold p2. symmetry. apply (Zpower_pos_powerRZ 2 p).
Qed.

Lemma p2_ge_1 (n : Z) : 0 <= n -> (1 <= p2 n)%R.
Proof.
  intros Hn. rewrite (p2_IZR n Hn). apply IZR_le.
  pose proof (Z.pow_pos_nonneg 2 n). lia.
Qed.

Lemma p2_le (a b : Z) : a <= b -> (p2 a <= p2 b)%R.
Proof.
  intros H. replace b with (a + (b - a)) by lia. rewrite p2_add.
  pose proof (p2_pos a). pose proof (p2_ge_1 (b - a) ltac:(lia)).
  assert (p2 a * 1 <= p2 a * p2 (b - a))%R by (apply Rmult_le_compat_l; lra). lra.
Qed.

Lemma p2_lt (a b : Z) : a < b -> (p2 a < p2 b)%R.
Proof.
  intros H. replace b with (a + 1 + (b - a - 1)) by lia. rewrite !p2_add.
  pose proof (p2_pos a). pose proof (p2_ge_1 (b - a - 1) ltac:(lia)).
  rewrite p2_1.
  assert (p2 a * 2 * 1 <= p2 a * 2 * p2 (b - a - 1))%R
    by (apply Rmult_le_compat_l; lra). lra.
Qed.

Lemma p2_S (e : Z) : p2 (e + 1) = (2 * p2 e)%R.
Proof. rewrite p2_add, p2_1. lra. Qed.

Lemma p2_le_inv (a b : Z) : (p2 a <= p2 b)%R -> a <= b.
Proof.
  intros H. destruct (Z.le_gt_cases a b) as [|Hgt]; [assumption|].
  pose proof (p2_lt b a ltac:(lia)). lra.
Qed.

Lemma p2_lt_inv (a b : Z) : (p2 a < p2 b)%R -> a < b.
Proof.
  intros H. destruct (Z.lt_ge_cases a b) as [|Hge]; [assumption|].
  pose proof (p2_le b a ltac:(lia)). lra.
Qed.

Lemma val_shift (m e k : Z) : 0 <= k -> val (m * 2 ^ k) e = val m (e + k).
Proof.
  intros Hk. unfold val. rewrite mult_IZR, <- (p2_IZR k Hk), p2_add. lra.
Qed.

Lemma val_le (m1 m2 e : Z) : m1 <= m2 -> (val m1 e <= val m2 e)%R.
Proof.
  intros H. unfold val. apply IZR_le in H. pose proof (p2_pos e). nra.
Qed.

Lemma val_lt (m1 m2 e : Z) : m1 < m2 -> (val m1 e < val m2 e)%R.
Proof.
  intros H. unfold val. apply IZR_lt in H. pose proof (p2_pos e). nra.
Qed.

Lemma val_le_inv (m1 m2 e : Z) : (val m1 e <= val m2 e)%R -> m1 <= m2.
Proof.
  intros H. destruct (Z.le_gt_cases m1 m2) as [|Hgt]; [assumption|].
  pose proof (val_lt m2 m1 e ltac:(lia)). lra.
Qed.

Lemma val_lt_inv (m1 m2 e : Z) : (val m1 e < val m2 e)%R -> m1 < m2.
Proof.
  intros H. destruct (Z.lt_ge_cases m1 m2) as [|Hge]; [assumption|].
  pose proof (val_le m2 m1 e ltac:(lia)). lra.
Qed.

Lemma val_0 (e : Z) : val 0 e = 0%R.
Proof. unfold val. lra. Qed.

(** digits *)
Lemma digits2_size (p : positive) : digits2_pos p = Pos.size p.
Proof. induction p; cbn; congruence. Qed.

Lemma digits2_bounds (p : positive) :
  2 ^ (Z.pos (digits2_pos p) - 1) <= Z.pos p < 2 ^ Z.pos (digits2_pos p).
Proof.
  rewrite digits2_size. split.
  - pose proof (Pos.size_le p) as H.
    assert (H3 : Z.pos (2 ^ Pos.size p) <= Z.pos p~0) by exact H.
    rewrite Pos2Z.inj_pow in H3. change (Z.pos p~0) with (2 * Z.pos p) in H3.
    replace (Z.pos (Pos.size p)) with (Z.pos (Pos.size p) - 1 + 1) in H3 by lia.
    rewrite Z.pow_add_r in H3 by lia. lia.
  - pose proof (Pos.size_gt p) as H.
    assert (H3 : Z.pos p < Z.pos (2 ^ Pos.size p)) by exact H.
    rewrite Pos2Z.inj_pow in H3. exact H3.
Qed.

(** The number of binary digits is determined by the bracket. *)
Lemma digits2_unique (p : positive) (d : Z) :
  2 ^ (d - 1) <= Z.pos p < 2 ^ d -> Z.pos (digits2_pos p) = d.
Proof.
  intros [Hlo Hhi]. pose proof (digits2_bounds p) as [Hlo' Hhi'].
  assert (Hd : 0 < d).
  { destruct (Z.lt_ge_cases 0 d); [assumption|].
    destruct (Z.eq_dec d 0) as [->|]; [cbn in Hhi; lia|].
    rewrite Z.pow_neg_r in Hhi by lia. lia. }
  destruct (Z.lt_trichotomy (Z.pos (digits2_pos p)) d) as [H|[H|H]]; [|exact H|].
  - assert (2 ^ Z.pos (digits2_pos p) <= 2 ^ (d - 1)) by (apply Z.pow_le_mono_r; lia). lia.
  - assert (2 ^ d <= 2 ^ (Z.pos (digits2_pos p) - 1)) by (apply Z.pow_le_mono_r; lia). lia.
Qed.

Lemma val_digits_bounds (p : positive) (e : Z) :
  (p2 (Z.pos (digits2_pos p) - 1 + e) <= val (Z.pos p) e
   < p2 (Z.pos (digits2_pos p) + e))%R.
Proof.
  pose proof (digits2_bounds p) as [Hlo Hhi].
  unfold val. rewrite !p2_add.
  rewrite (p2_IZR (Z.pos (digits2_pos p) - 1)) by lia.
  rewrite (p2_IZR (Z.pos (digits2_pos p))) by lia.
  apply IZR_le in Hlo. apply IZR_lt in Hhi. pose proof (p2_pos e). nra.
Qed.

Lemma fexp_eq (e : Z) : fexp prec emax e = Z.max (e - 53) (-1074).
Proof. reflexivity. Qed.

Lemma fexp_le (a b : Z) : a <= b -> fexp prec emax a <= fexp prec emax b.
Proof. rewrite !fexp_eq. lia. Qed.

Lemma fexp_ge_emin (e : Z) : -1074 <= fexp prec emax e.
Proof. rewrite fexp_eq. lia. Qed.

Lemma bounded_cases (m : positive) (e : Z) :
  SpecFloat.bounded prec emax m e = true ->
  e <= 971
  /\ ((e = -1074 /\ Z.pos (digits2_pos m) <= 53)
      \/ (-1074 < e /\ Z.pos (digits2_pos m) = 53)).
Proof.
  unfold SpecFloat.bounded, canonical_mantissa. intros H. apply andb_true_iff in H.
  destruct H as [Hc He]. apply Z.eqb_eq in Hc. apply Z.leb_le in He.
  rewrite fexp_eq in Hc. change (emax - prec) with 971 in He. lia.
Qed.

Lemma bounded_intro (m : positive) (e : Z) :
  e <= 971 ->
  (e = -1074 /\ Z.pos (digits2_pos m) <= 53)
  \/ (-1074 <= e /\ Z.pos (digits2_pos m) = 53) ->
  SpecFloat.bounded prec emax m e = true.
Proof.
  intros He H. unfold SpecFloat.bounded, canonical_mantissa. apply andb_true_iff. split.
  - apply Z.eqb_eq. rewrite fexp_eq. lia.
  - apply Z.leb_le. change (emax - prec) with 971. exact He.
Qed.

Lemma canonical_lt (m1 m2 : positive) (e1 e2 : Z) :
  SpecFloat.bounded prec emax m1 e1 = true -> SpecFloat.bounded prec emax m2 e2 = true ->
  e1 < e2 -> (val (Z.pos m1) e1 < val (Z.pos m2) e2)%R.
Proof.
  intros H1 H2 He.
  apply bounded_cases in H1, H2.
  pose proof (val_digits_bounds m1 e1) as [_ Hhi].
  pose proof (val_digits_bounds m2 e2) as [Hlo _].
  assert (Hp : (p2 (Z.pos (digits2_pos m1) + e1)
                <= p2 (Z.pos (digits2_pos m2) - 1 + e2))%R) by (apply p2_le; lia).
  lra.
Qed.

Lemma val_pos (m : positive) (e : Z) : (0 < val (Z.pos m) e)%R.
Proof.
  unfold val. pose proof (p2_pos e).
  assert (0 < IZR (Z.pos m))%R by (apply IZR_lt; lia). nra.
Qed.

Lemma valSF_nonneg (x : spec_float) : zero_or_positive x -> (0 <= valSF x)%R.
Proof.
  destruct x as [s|s| |[|] m e]; cbn; intros H; try lra; try contradiction.
  pose proof (val_pos m e). lra.
Qed.

Lemma SFcompare_nonneg (x y : spec_float) :
  zero_or_positive x -> zero_or_positive y ->
  exists c, SFcompare x y = Some c
            /\ match c with
               | Lt => (valSF x < valSF y)%R
               | Eq => valSF x = valSF y
               | Gt => (valSF y < valSF x)%R
               end.
Proof.
  destruct x as [sx|sx| |[|] mx ex]; try contradiction;
    destruct y as [sy|sy| |[|] my ey]; try contradiction; cbn [zero_or_positive]; intros Hx Hy.
  - exists Eq. split; reflexivity.
  - exists Lt. split; [reflexivity|]. cbn. apply val_pos.
  - exists Gt. split; [reflexivity|]. cbn. apply val_pos.
  - cbn [SFcompare valSF].
    destruct (Z.compare_spec ex ey) as [->|Hlt|Hgt].
    + change (Pos.compare_cont Eq mx my) with (Pos.compare mx my).
      destruct (Pos.compare_spec mx my) as [->|H|H].
      * exists Eq. split; reflexivity.
      * exists Lt. split; [reflexivity|]. apply val_lt. lia.
      * exists Gt. split; [reflexivity|]. apply val_lt. lia.
    + exists Lt. split; [reflexivity|]. apply canonical_lt; assumption.
    + exists Gt. split; [reflexivity|]. apply canonical_lt; assumption.
Qed.

Lemma SFleb_nonneg (x y : spec_float) :
  zero_or_positive x -> zero_or_positive y -> (SFleb x y = true <-> (valSF x <= valSF y)%R).
Proof.
  intros Hx Hy. destruct (SFcompare_nonneg x y Hx Hy) as (c & Hc & Hv).
  unfold SFleb. rewrite Hc. destruct c; split; intros H; try reflexivity;
    try discriminate; lra.
Qed.

Lemma SFltb_nonneg (x y : spec_float) :
  zero_or_positive x -> zero_or_positive y -> (SFltb x y = true <-> (valSF x < valSF y)%R).
Proof.
  intros Hx Hy. destruct (SFcompare_nonneg x y Hx Hy) as (c & Hc & Hv).
  unfold SFltb. rewrite Hc. destruct c; split; intros H; try reflexivity;
    try discriminate; lra.
Qed.

(** A canonical number is determined by its value. *)
Lemma nonneg_valSF_zero (x : spec_float) :
  zero_or_positive x -> valSF x = 0%R -> exists s, x = S754_zero s.
Proof.
  destruct x as [s|s| |[|] m e]; try contradiction; intros _ H.
  - exists s. reflexivity.
  - cbn in H. pose proof (val_pos m e). lra.
Qed.

Lemma loc_of_record_of_loc (m : Z) (l : location) :
  loc_of_shr_record (shr_record_of_loc m l) = l /\ shr_m (shr_record_of_loc m l) = m.
Proof. destruct l as [|[| |]]; split; reflexivity. Qed.

Lemma shr_1_m (mrs : shr_record) :
  0 <= shr_m mrs -> shr_m (shr_1 mrs) = shr_m mrs / 2.
Proof.
  destruct mrs as [m r s]. cbn [shr_m]. intros Hm.
  destruct m as [|[p|p|]|p]; try lia; cbn [shr_1 shr_m].
  - reflexivity.
  - apply Z.div_unique with 1; lia.
  - apply Z.div_unique with 0; lia.
  - reflexivity.
Qed.

Lemma val_half (m e : Z) : val (2 * m) e = val m (e + 1).
Proof. unfold val. rewrite mult_IZR, p2_S. lra. Qed.

Lemma shr_1_inbetween (mrs : shr_record) (e : Z) (v : R) :
  0 <= shr_m mrs ->
  inbetween (shr_m mrs) e (loc_of_shr_record mrs) v ->
  inbetween (shr_m (shr_1 mrs)) (e + 1) (loc_of_shr_record (shr_1 mrs)) v.
Proof.
  destruct mrs as [m r s]. cbn [shr_m]. intros Hm Hin.
  assert (Hodd : forall p, val (Z.pos p~1) e = (val (Z.pos p) (e + 1) + p2 e)%R).
  { intros p. rewrite Pos2Z.inj_xI. unfold val. rewrite plus_IZR, mult_IZR, p2_S. lra. }
  assert (Heven : forall p, val (Z.pos p~0) e = val (Z.pos p) (e + 1)).
  { intros p. rewrite Pos2Z.inj_xO. apply val_half. }
  assert (Hnext : forall k, val (k + 1) (e + 1) = (val k (e + 1) + 2 * p2 e)%R).
  { intros k. unfold val. rewrite plus_IZR, p2_S. lra. }
  assert (Hnext' : forall k, val (k + 1) e = (val k e + p2 e)%R).
  { intros k. unfold val. rewrite plus_IZR. lra. }
  pose proof (p2_pos e) as Hp.
  destruct m as [|[p|p|]|p]; try lia; destruct r, s;
    cbn [shr_1 shr_m loc_of_shr_record orb inbetween] in *;
    rewrite ?Hnext, ?Hnext' in *; rewrite ?Hodd, ?Heven in *;
    rewrite ?val_0 in *;
    try (change (val 1 e) with (val (0 + 1) e) in *; rewrite ?Hnext' in *;
         rewrite ?val_0 in * );
    try lra.
Qed.

Lemma shr_m_nonneg_1 (mrs : shr_record) : 0 <= shr_m mrs -> 0 <= shr_m (shr_1 mrs).
Proof.
  intros H. rewrite shr_1_m by assumption. apply Z.div_pos; lia.
Qed.

Lemma pow2_xO (p : positive) : 2 ^ Z.pos p~0 = 2 ^ Z.pos p * 2 ^ Z.pos p.
Proof.
  replace (Z.pos p~0) with (Z.pos p + Z.pos p) by lia.
  apply Z.pow_add_r; lia.
Qed.

Lemma pow2_xI (p : positive) : 2 ^ Z.pos p~1 = 2 * (2 ^ Z.pos p * 2 ^ Z.pos p).
Proof.
  replace (Z.pos p~1) with (1 + (Z.pos p + Z.pos p)) by lia.
  rewrite Z.pow_add_r by lia. rewrite Z.pow_add_r by lia. reflexivity.
Qed.

Lemma shr_iter (p : positive) :
  forall (mrs : shr_record) (e : Z) (v : R),
    0 <= shr_m mrs ->
    inbetween (shr_m mrs) e (loc_of_shr_record mrs) v ->
    0 <= shr_m (SpecFloat.iter_pos shr_1 p mrs)
    /\ shr_m (SpecFloat.iter_pos shr_1 p mrs) = shr_m mrs / 2 ^ Z.pos p
    /\ inbetween (shr_m (SpecFloat.iter_pos shr_1 p mrs)) (e + Z.pos p)
                 (loc_of_shr_record (SpecFloat.iter_pos shr_1 p mrs)) v.
Proof.
  induction p as [p IH|p IH|]; intros mrs e v Hm Hin; cbn [SpecFloat.iter_pos].
  - pose proof (shr_m_nonneg_1 mrs Hm) as H1.
    pose proof (shr_1_inbetween mrs e v Hm Hin) as Hin1.
    destruct (IH (shr_1 mrs) (e + 1) v H1 Hin1) as (H2 & E2 & Hin2).
    destruct (IH _ (e + 1 + Z.pos p) v H2 Hin2) as (H3 & E3 & Hin3).
    split; [exact H3|]. split.
    + rewrite E3, E2, shr_1_m by assumption.
      pose proof (Z.pow_pos_nonneg 2 (Z.pos p) ltac:(lia) ltac:(lia)) as Hp.
      rewrite !Z.div_div by lia. rewrite pow2_xI. reflexivity.
    + replace (e + Z.pos p~1) with (e + 1 + Z.pos p + Z.pos p) by lia. exact Hin3.
  - destruct (IH mrs e v Hm Hin) as (H2 & E2 & Hin2).
    destruct (IH _ (e + Z.pos p) v H2 Hin2) as (H3 & E3 & Hin3).
    split; [exact H3|]. split.
    + rewrite E3, E2.
      pose proof (Z.pow_pos_nonneg 2 (Z.pos p) ltac:(lia) ltac:(lia)) as Hp.
      rewrite Z.div_div by lia. rewrite pow2_xO. reflexivity.
    + replace (e + Z.pos p~0) with (e + Z.pos p + Z.pos p) by lia. exact Hin3.
  - split; [apply shr_m_nonneg_1, Hm|]. split.
    + rewrite shr_1_m by assumption. reflexivity.
    + apply shr_1_inbetween; assumption.
Qed.

(** The first shift of [binary_round_aux]. *)
Lemma shr_fexp_inbetween (mx ex : Z) (lx : location) (v : R) :
  0 <= mx -> inbetween mx ex lx v ->
  ex <= fexp prec emax (Zdigits2 mx + ex) ->
  let n := fexp prec emax (Zdigits2 mx + ex) - ex in
  let '(mrs, e) := shr_fexp prec emax mx ex lx in
  e = fexp prec emax (Zdigits2 mx + ex)
  /\ shr_m mrs = mx / 2 ^ n
  /\ inbetween (shr_m mrs) e (loc_of_shr_record mrs) v.
Proof.
  intros Hm Hin Hn n. unfold shr_fexp, shr. fold n.
  destruct (loc_of_record_of_loc mx lx) as [Hl Hr].
  destruct n as [|p|p] eqn:En; [| |lia].
  - split; [lia|]. rewrite Hl, Hr. split; [rewrite Z.div_1_r; reflexivity|exact Hin].
  - destruct (shr_iter p (shr_record_of_loc mx lx) ex v) as (_ & E & H).
    + rewrite Hr. exact Hm.
    + rewrite Hl, Hr. exact Hin.
    + split; [lia|]. rewrite Hr in E. split; [exact E|exact H].
Qed.

Lemma digits2_le (p : positive) (k : Z) : Z.pos p < 2 ^ k -> Z.pos (digits2_pos p) <= k.
Proof.
  intros H. pose proof (digits2_bounds p) as [Hlo _].
  destruct (Z.le_gt_cases (Z.pos (digits2_pos p)) k) as [|Hgt]; [assumption|exfalso].
  assert (2 ^ k <= 2 ^ (Z.pos (digits2_pos p) - 1)).
  { destruct (Z.lt_ge_cases k 0).
    - rewrite (Z.pow_neg_r 2 k) by assumption.
      pose proof (Z.pow_nonneg 2 (Z.pos (digits2_pos p) - 1)). lia.
    - apply Z.pow_le_mono_r; lia. }
  lia.
Qed.

(** The second shift of [binary_round_aux], which absorbs a carry. *)
Lemma round_tail (m2 E : Z) :
  -1074 <= E ->
  (-1074 < E -> 2 ^ 52 <= m2) ->
  0 <= m2 <= 2 ^ 53 ->
  let r :=
    let '(mrs, e) := shr_fexp prec emax m2 E loc_Exact in
    match shr_m mrs with
    | Z0 => S754_zero false
    | Z.pos m => if e <=? emax - prec then S754_finite false m e else S754_infinity false
    | Z.neg _ => S754_nan
    end in
  (m2 = 0 -> r = S754_zero false)
  /\ (0 < m2 ->
      exists m3 e3,
        canon m3 e3 /\ val (Z.pos m3) e3 = val m2 E
        /\ r = if e3 <=? 971 then S754_finite false m3 e3 else S754_infinity false).
Proof.
  intros HE Hnorm Hm r. split.
  - intros ->. subst r. unfold shr_fexp, shr. cbn [Zdigits2 shr_record_of_loc].
    destruct (fexp prec emax (0 + E) - E) as [|p|p] eqn:En; try reflexivity.
    rewrite fexp_eq in En. lia.
  - intros Hpos. destruct m2 as [|p|p]; try lia.
    destruct (Z.eq_dec (Z.pos p) (2 ^ 53)) as [Htop|Htop].
    + (* a carry: one more shift *)
      assert (Hd : Z.pos (digits2_pos p) = 54).
      { apply digits2_unique. rewrite Htop. split; [|reflexivity]. reflexivity. }
      subst r. unfold shr_fexp, shr. cbn [Zdigits2 shr_record_of_loc].
      rewrite Hd, fexp_eq. replace (Z.max (54 + E - 53) (-1074) - E) with 1 by lia.
      cbn [SpecFloat.iter_pos].
      assert (Hp : p = (2 ^ 53)%positive) by (apply Pos2Z.inj; rewrite Htop; reflexivity).
      subst p. cbn [shr_1 shr_m].
      exists (2 ^ 52)%positive, (E + 1). split; [|split].
      * unfold canon. rewrite fexp_eq. change (Z.pos (digits2_pos (2 ^ 52))) with 53. lia.
      * change (Z.pos (2 ^ 53)) with (2 * Z.pos (2 ^ 52)). rewrite val_half. reflexivity.
      * reflexivity.
    + assert (Hlt : Z.pos p < 2 ^ 53) by lia.
      pose proof (digits2_le p 53 Hlt) as Hd.
      assert (Hn : fexp prec emax (Z.pos (digits2_pos p) + E) - E = 0).
      { rewrite fexp_eq. destruct (Z.eq_dec E (-1074)) as [->|Hne]; [lia|].
        assert (Hlo : 2 ^ 52 <= Z.pos p) by (apply Hnorm; lia).
        assert (Z.pos (digits2_pos p) = 53).
        { apply digits2_unique. split; [exact Hlo|exact Hlt]. }
        lia. }
      subst r. unfold shr_fexp, shr. cbn [Zdigits2 shr_record_of_loc]. rewrite Hn.
      cbn [shr_m].
      exists p, E. split; [|split].
      * unfold canon. lia.
      * reflexivity.
      * reflexivity.
Qed.

Lemma canon_cases (m : positive) (e : Z) :
  canon m e ->
  (e = -1074 /\ Z.pos (digits2_pos m) <= 53)
  \/ (-1074 < e /\ Z.pos (digits2_pos m) = 53).
Proof. unfold canon. rewrite fexp_eq. lia. Qed.

Lemma bounded_canon (m : positive) (e : Z) :
  SpecFloat.bounded prec emax m e = true <-> canon m e /\ e <= 971.
Proof.
  unfold SpecFloat.bounded, canonical_mantissa, canon.
  rewrite andb_true_iff, Z.eqb_eq, Z.leb_le. change (emax - prec) with 971. tauto.
Qed.

Lemma canon_lt (m1 m2 : positive) (e1 e2 : Z) :
  canon m1 e1 -> canon m2 e2 -> e1 < e2 ->
  (val (Z.pos m1) e1 < val (Z.pos m2) e2)%R.
Proof.
  intros H1 H2 He. apply canon_cases in H1, H2.
  pose proof (val_digits_bounds m1 e1) as [_ Hhi].
  pose proof (val_digits_bounds m2 e2) as [Hlo _].
  assert (Hp : (p2 (Z.pos (digits2_pos m1) + e1)
                <= p2 (Z.pos (digits2_pos m2) - 1 + e2))%R) by (apply p2_le; lia).
  lra.
Qed.

Lemma round_nearest_even_cases (m : Z) (l : location) :
  let m' := round_nearest_even m l in
  (m' = m \/ (m' = m + 1 /\ l <> loc_Exact)).
Proof.
  destruct l as [|[| |]]; cbn; try (left; reflexivity).
  - destruct (Z.even m); [left; reflexivity|right; split; [reflexivity|discriminate]].
  - right. split; [reflexivity|discriminate].
Qed.

Lemma inbetween_bounds (m e : Z) (l : location) (v : R) :
  inbetween m e l v ->
  (val m e <= v < val (m + 1) e)%R /\ (l <> loc_Exact -> (val m e < v)%R).
Proof.
  assert (Hn : (val m e < val (m + 1) e)%R) by (apply val_lt; lia).
  destruct l as [|c]; cbn; intros H.
  - subst v. split; [lra|]. intros Hc. contradiction.
  - split; [lra|]. intros _. lra.
Qed.

Lemma div_pow2_bounds (m n : Z) : 0 <= m -> 0 <= n ->
  m / 2 ^ n * 2 ^ n <= m < (m / 2 ^ n + 1) * 2 ^ n.
Proof.
  intros Hm Hn. pose proof (Z.pow_pos_nonneg 2 n ltac:(lia) Hn) as Hp.
  pose proof (Z.div_mod m (2 ^ n) ltac:(lia)) as Hd.
  pose proof (Z.mod_pos_bound m (2 ^ n) Hp). lia.
Qed.

Lemma first_shift_range (mx ex : Z) :
  0 <= mx -> ex <= fexp prec emax (Zdigits2 mx + ex) ->
  let E := fexp prec emax (Zdigits2 mx + ex) in
  let m1 := mx / 2 ^ (E - ex) in
  0 <= m1 < 2 ^ 53 /\ (-1074 < E -> 2 ^ 52 <= m1).
Proof.
  intros Hm Hn E m1. subst m1.
  pose proof (Z.pow_pos_nonneg 2 (E - ex) ltac:(lia) ltac:(lia)) as Hp.
  destruct mx as [|p|p]; [| |lia].
  - rewrite Z.div_0_l by lia. split; [split; [lia|reflexivity]|].
    intros HE. subst E. cbn [Zdigits2] in *. rewrite fexp_eq in *. lia.
  - cbn [Zdigits2] in *. pose proof (digits2_bounds p) as [Hlo Hhi].
    set (d := Z.pos (digits2_pos p)) in *.
    assert (HdE : d + ex - 53 <= E) by (subst E; rewrite fexp_eq; lia).
    split; [split|].
    + apply Z.div_pos; lia.
    + apply Z.div_lt_upper_bound; [lia|].
      rewrite <- Z.pow_add_r by lia.
      assert (2 ^ d <= 2 ^ (E - ex + 53)) by (apply Z.pow_le_mono_r; lia). lia.
    + intros HE. assert (HEd : E = d + ex - 53) by (subst E; rewrite fexp_eq in *; lia).
      apply Z.div_le_lower_bound; [lia|].
      rewrite <- Z.pow_add_r by lia.
      replace (E - ex + 52) with (d - 1) by lia. exact Hlo.
Qed.

Lemma val_normal_lower (m E : Z) : 2 ^ 52 <= m -> (p2 (52 + E) <= val m E)%R.
Proof.
  intros H. unfold val. rewrite p2_add, (p2_IZR 52) by lia.
  apply IZR_le in H. pose proof (p2_pos E). nra.
Qed.

Lemma bounded_below_binade (mk : positive) (ek E : Z) :
  SpecFloat.bounded prec emax mk ek = true -> ek < E ->
  (val (Z.pos mk) ek < p2 (52 + E))%R.
Proof.
  intros Hb He. apply bounded_canon in Hb. destruct Hb as [Hc _].
  apply canon_cases in Hc.
  pose proof (val_digits_bounds mk ek) as [_ Hhi].
  assert (p2 (Z.pos (digits2_pos mk) + ek) <= p2 (52 + E))%R by (apply p2_le; lia).
  lra.
Qed.

Lemma neighbour_upper (m1 m2 E : Z) (l1 : location) (v : R) (mk : positive) (ek : Z) :
  inbetween m1 E l1 v ->
  m2 = m1 \/ (m2 = m1 + 1 /\ l1 <> loc_Exact) ->
  (-1074 < E -> 2 ^ 52 <= m1) -> -1074 <= E ->
  SpecFloat.bounded prec emax mk ek = true ->
  (v <= val (Z.pos mk) ek)%R ->
  (val m2 E <= val (Z.pos mk) ek)%R.
Proof.
  intros Hin Hm2 Hnorm HE Hb Hv.
  destruct (inbetween_bounds _ _ _ _ Hin) as [[Hlo Hhi] Hstrict].
  destruct (Z.le_gt_cases E ek) as [Hle|Hgt].
  - replace ek with (E + (ek - E)) in * by lia.
    rewrite <- val_shift in * by lia.
    destruct Hm2 as [->|[-> Hl]]; [lra|].
    specialize (Hstrict Hl). apply val_le.
    assert (m1 < Z.pos mk * 2 ^ (ek - E)) by (apply (val_lt_inv _ _ E); lra). lia.
  - exfalso. pose proof (bounded_below_binade mk ek E Hb Hgt).
    pose proof (val_normal_lower m1 E (Hnorm ltac:(apply bounded_canon in Hb;
      destruct Hb as [Hc _]; apply canon_cases in Hc; lia))). lra.
Qed.

Lemma neighbour_lower (m1 E : Z) (l1 : location) (v : R) (mk : positive) (ek : Z) :
  inbetween m1 E l1 v ->
  (-1074 < E -> 2 ^ 52 <= m1) -> -1074 <= E ->
  SpecFloat.bounded prec emax mk ek = true ->
  (val (Z.pos mk) ek <= v)%R ->
  (val (Z.pos mk) ek <= val m1 E)%R.
Proof.
  intros Hin Hnorm HE Hb Hv.
  destruct (inbetween_bounds _ _ _ _ Hin) as [[Hlo Hhi] Hstrict].
  destruct (Z.le_gt_cases E ek) as [Hle|Hgt].
  - replace ek with (E + (ek - E)) in * by lia.
    rewrite <- val_shift in * by lia.
    apply val_le.
    assert (Z.pos mk * 2 ^ (ek - E) < m1 + 1) by (apply (val_lt_inv _ _ E); lra). lia.
  - pose proof (bounded_below_binade mk ek E Hb Hgt).
    pose proof (val_normal_lower m1 E (Hnorm ltac:(apply bounded_canon in Hb;
      destruct Hb as [Hc _]; apply canon_cases in Hc; lia))). lra.
Qed.

Theorem binary_round_aux_rounds (mx ex : Z) (lx : location) (v : R) :
  0 <= mx -> inbetween mx ex lx v ->
  ex <= fexp prec emax (Zdigits2 mx + ex) ->
  rounds v (binary_round_aux prec emax false mx ex lx).
Proof.
  intros Hm Hin Hn.
  pose proof (shr_fexp_inbetween mx ex lx v Hm Hin Hn) as H1.
  pose proof (first_shift_range mx ex Hm Hn) as Hrange.
  cbv zeta in H1, Hrange.
  set (E := fexp prec emax (Zdigits2 mx + ex)) in *.
  assert (HE : -1074 <= E) by apply fexp_ge_emin.
  unfold binary_round_aux.
  destruct (shr_fexp prec emax mx ex lx) as [mrs e].
  destruct H1 as (-> & Hm1 & Hin1).
  set (m1 := shr_m mrs) in *. set (l1 := loc_of_shr_record mrs) in *.
  rewrite <- Hm1 in Hrange. destruct Hrange as [Hr1 Hnorm].
  pose proof (round_nearest_even_cases m1 l1) as Hm2. cbv zeta in Hm2.
  set (m2 := round_nearest_even m1 l1) in *.
  assert (Hr2 : 0 <= m2 <= 2 ^ 53) by lia.
  assert (Hnorm2 : -1074 < E -> 2 ^ 52 <= m2) by (intros HE'; specialize (Hnorm HE'); lia).
  pose proof (round_tail m2 E HE Hnorm2 Hr2) as Htail. cbv zeta in Htail.
  match type of Htail with
  | (_ -> ?t = _) /\ _ => set (r := t) in *
  end.
  destruct Htail as [Hzero Hpos].
  destruct (inbetween_bounds _ _ _ _ Hin1) as [[Hlo Hhi] Hstrict].
  assert (Hv0 : (0 <= val m1 E)%R).
  { rewrite <- (val_0 E). apply val_le. lia. }
  unfold rounds. split; [lra|]. split; [|split; [|split]].
  - destruct (Z.eq_dec m2 0) as [H0|H0].
    + left. apply Hzero, H0.
    + destruct (Hpos ltac:(lia)) as (m3 & e3 & Hc & Hval & ->).
      destruct (Z.leb_spec e3 971).
      * right. right. exists m3, e3. split; [reflexivity|].
        apply bounded_canon. split; assumption.
      * right. left. reflexivity.
  - intros mk ek Hb Hvk.
    pose proof (neighbour_upper m1 m2 E l1 v mk ek Hin1 Hm2 Hnorm HE Hb Hvk) as Hup.
    destruct (Z.eq_dec m2 0) as [H0|H0].
    + rewrite (Hzero H0). split; [discriminate|]. cbn.
      pose proof (val_pos mk ek). lra.
    + destruct (Hpos ltac:(lia)) as (m3 & e3 & Hc & Hval & ->).
      destruct (Z.leb_spec e3 971) as [Hle|Hgt].
      * split; [discriminate|]. cbn. rewrite Hval. exact Hup.
      * exfalso. apply bounded_canon in Hb. destruct Hb as [Hck Hek].
        pose proof (canon_lt mk m3 ek e3 Hck Hc ltac:(lia)). lra.
  - intros mk ek Hb Hvk.
    pose proof (neighbour_lower m1 E l1 v mk ek Hin1 Hnorm HE Hb Hvk) as Hdown.
    assert (Hm12 : (val m1 E <= val m2 E)%R) by (apply val_le; lia).
    destruct (Z.eq_dec m2 0) as [H0|H0].
    + exfalso. rewrite H0, val_0 in Hm12. pose proof (val_pos mk ek). lra.
    + destruct (Hpos ltac:(lia)) as (m3 & e3 & Hc & Hval & ->).
      destruct (Z.leb_spec e3 971) as [Hle|Hgt].
      * right. cbn. rewrite Hval. lra.
      * left. reflexivity.
  - intros Hv. apply Hzero.
    assert (Hm10 : m1 = 0).
    { assert (m1 <= 0); [|lia]. apply (val_le_inv _ _ E). rewrite val_0. lra. }
    destruct Hm2 as [->|[-> Hl]]; [exact Hm10|].
    specialize (Hstrict Hl). lra.
Qed.

Lemma nn_nonneg (x : spec_float) : pzero_or_positive x -> zero_or_positive x.
Proof. destruct x as [[|]|s| |[|] m e]; cbn; tauto. Qed.

Lemma rounds_zero : rounds 0 (S754_zero false).
Proof.
  unfold rounds. split; [lra|]. split; [left; reflexivity|]. split; [|split].
  - intros mk ek _ _. split; [discriminate|]. cbn. pose proof (val_pos mk ek). lra.
  - intros mk ek _ H. pose proof (val_pos mk ek). lra.
  - reflexivity.
Qed.

Lemma rounds_exact (m : positive) (e : Z) :
  SpecFloat.bounded prec emax m e = true ->
  rounds (val (Z.pos m) e) (S754_finite false m e).
Proof.
  intros Hb. pose proof (val_pos m e) as Hp.
  unfold rounds. split; [lra|]. split; [right; right; exists m, e; split; auto|].
  split; [|split].
  - intros mk ek _ H. split; [discriminate|exact H].
  - intros mk ek _ H. right. exact H.
  - intros H. lra.
Qed.

Lemma rounds_nn (v : R) (r : spec_float) :
  rounds v r -> r <> S754_infinity false -> pzero_or_positive r.
Proof.
  intros (_ & [->|[->|(m & e & -> & Hb)]] & _) Hr; cbn; [exact I|congruence|exact Hb].
Qed.

Lemma iter_xO (m d : positive) : Z.pos (Pos.iter xO m d) = Z.pos m * 2 ^ Z.pos d.
Proof.
  induction d using Pos.peano_ind.
  - cbn. lia.
  - rewrite Pos.iter_succ, Pos2Z.inj_succ, Z.pow_succ_r by lia.
    change (Z.pos (Pos.iter xO m d)~0) with (2 * Z.pos (Pos.iter xO m d)). lia.
Qed.

Lemma shl_align_spec (mx : positive) (ex ex' : Z) :
  let '(mz, ez) := shl_align mx ex ex' in
  val (Z.pos mz) ez = val (Z.pos mx) ex
  /\ ez = Z.min ex ex'
  /\ Z.pos mz = Z.pos mx * 2 ^ (ex - ez).
Proof.
  unfold shl_align. destruct (ex' - ex) as [|d|d] eqn:Hd.
  - split; [reflexivity|]. split; [lia|]. rewrite Z.sub_diag. lia.
  - split; [reflexivity|]. split; [lia|]. rewrite Z.sub_diag. lia.
  - assert (Hex : ex = ex' + Z.pos d) by lia.
    split; [|split; [lia|]].
    + rewrite iter_xO, val_shift by lia. f_equal. lia.
    + rewrite iter_xO. f_equal. f_equal. lia.
Qed.

Lemma digits2_mul_pow2 (m : positive) (k : Z) (q : positive) :
  0 <= k -> Z.pos q = Z.pos m * 2 ^ k ->
  Z.pos (digits2_pos q) = Z.pos (digits2_pos m) + k.
Proof.
  intros Hk Hq. apply digits2_unique. rewrite Hq.
  pose proof (digits2_bounds m) as [Hlo Hhi].
  pose proof (Z.pow_pos_nonneg 2 k ltac:(lia) Hk).
  replace (Z.pos (digits2_pos m) + k - 1) with (Z.pos (digits2_pos m) - 1 + k) by lia.
  rewrite !Z.pow_add_r by lia. nia.
Qed.

Theorem binary_round_rounds (m : positive) (e : Z) :
  rounds (val (Z.pos m) e) (binary_round prec emax false m e).
Proof.
  unfold binary_round.
  pose proof (shl_align_spec m e (fexp prec emax (Z.pos (digits2_pos m) + e))) as H.
  destruct (shl_align m e _) as [mz ez]. destruct H as (Hv & He & Hm).
  rewrite <- Hv. apply binary_round_aux_rounds; [lia|reflexivity|].
  cbn [Zdigits2].
  rewrite (digits2_mul_pow2 m (e - ez) mz ltac:(lia) Hm).
  replace (Z.pos (digits2_pos m) + (e - ez) + ez) with (Z.pos (digits2_pos m) + e) by lia.
  lia.
Qed.

(** *** Addition of non-negative numbers *)

Theorem SFadd_rounds (x y : spec_float) :
  pzero_or_positive x -> pzero_or_positive y -> rounds (valSF x + valSF y) (SFadd prec emax x y).
Proof.
  destruct x as [[|]|sx| |[|] mx ex]; try contradiction;
    destruct y as [[|]|sy| |[|] my ey]; try contradiction; cbn [pzero_or_positive]; intros Hx Hy.
  - cbn. rewrite Rplus_0_l. apply rounds_zero.
  - cbn [SFadd valSF]. rewrite Rplus_0_l. apply rounds_exact, Hy.
  - cbn [SFadd valSF]. rewrite Rplus_0_r. apply rounds_exact, Hx.
  - cbn [SFadd valSF cond_Zopp].
    pose proof (shl_align_spec mx ex (Z.min ex ey)) as H1.
    pose proof (shl_align_spec my ey (Z.min ex ey)) as H2.
    destruct (shl_align mx ex (Z.min ex ey)) as [m1 e1].
    destruct (shl_align my ey (Z.min ex ey)) as [m2 e2].
    destruct H1 as (Hv1 & He1 & _). destruct H2 as (Hv2 & He2 & _).
    cbn [fst]. change (Z.pos m1 + Z.pos m2) with (Z.pos (m1 + m2)).
    cbn [binary_normalize].
    replace (val (Z.pos mx) ex + val (Z.pos my) ey)%R
      with (val (Z.pos (m1 + m2)) (Z.min ex ey)).
    + apply binary_round_rounds.
    + rewrite <- Hv1, <- Hv2. replace e1 with (Z.min ex ey) by lia.
      replace e2 with (Z.min ex ey) by lia.
      unfold val. rewrite Pos2Z.inj_add, plus_IZR. lra.
Qed.

(** *** The square of a finite number *)

Lemma digits2_ge (p : positive) (k : Z) : 2 ^ k <= Z.pos p -> k + 1 <= Z.pos (digits2_pos p).
Proof.
  intros H. pose proof (digits2_bounds p) as [_ Hhi].
  destruct (Z.le_gt_cases (k + 1) (Z.pos (digits2_pos p))) as [|Hgt]; [assumption|exfalso].
  assert (2 ^ Z.pos (digits2_pos p) <= 2 ^ k) by (apply Z.pow_le_mono_r; lia). lia.
Qed.

Theorem SFmul_square_rounds (s : bool) (m : positive) (e : Z) :
  SpecFloat.bounded prec emax m e = true ->
  rounds (val (Z.pos m) e * val (Z.pos m) e)
         (SFmul prec emax (S754_finite s m e) (S754_finite s m e)).
Proof.
  intros Hb. cbn [SFmul]. rewrite xorb_nilpotent.
  replace (val (Z.pos m) e * val (Z.pos m) e)%R with (val (Z.pos (m * m)) (e + e)).
  - apply binary_round_aux_rounds; [lia|reflexivity|].
    cbn [Zdigits2]. rewrite fexp_eq.
    apply bounded_canon in Hb. destruct Hb as [Hc _]. apply canon_cases in Hc.
    destruct Hc as [[-> _]|[He Hd]]; [lia|].
    pose proof (digits2_bounds m) as [Hlo _]. rewrite Hd in Hlo.
    assert (H104 : 2 ^ 104 <= Z.pos (m * m)).
    { rewrite Pos2Z.inj_mul. change (2 ^ 104) with (2 ^ 52 * 2 ^ 52).
      change (2 ^ (53 - 1)) with (2 ^ 52) in Hlo. nia. }
    pose proof (digits2_ge _ _ H104). lia.
  - unfold val. rewrite Pos2Z.inj_mul, mult_IZR, p2_add. lra.
Qed.

(** *** Division of a non-negative number by a positive one *)

Lemma new_location_exact (nb_steps k : Z) :
  (k = 0 -> new_location nb_steps k = loc_Exact)
  /\ (k <> 0 -> new_location nb_steps k <> loc_Exact).
Proof.
  unfold new_location, new_location_even, new_location_odd.
  destruct (Z.even nb_steps); destruct (Z.eqb_spec k 0) as [Hk|Hk];
    split; intros H; try contradiction; try reflexivity; discriminate.
Qed.

Lemma Zdigits2_ge (q t : Z) : 0 <= q -> (0 < t -> 2 ^ (t - 1) <= q) -> t <= Zdigits2 q.
Proof.
  intros Hq H. destruct (Z.le_gt_cases t 0) as [Ht|Ht].
  - destruct q as [|p|p]; cbn; lia.
  - specialize (H Ht). destruct q as [|p|p]; [|cbn [Zdigits2]|lia].
    + pose proof (Z.pow_pos_nonneg 2 (t - 1) ltac:(lia) ltac:(lia)). lia.
    + pose proof (digits2_ge p (t - 1) H). lia.
Qed.

Lemma SFdiv_core_inbetween (m1 m2 : positive) (e1 e2 : Z) :
  let '(q, e', l) := SFdiv_core_binary prec emax (Z.pos m1) e1 (Z.pos m2) e2 in
  0 <= q
  /\ inbetween q e' l (val (Z.pos m1) e1 / val (Z.pos m2) e2)
  /\ e' <= fexp prec emax (Zdigits2 q + e').
Proof.
  unfold SFdiv_core_binary. cbn [Zdigits2].
  set (d1 := Z.pos (digits2_pos m1)). set (d2 := Z.pos (digits2_pos m2)).
  set (e' := Z.min (fexp prec emax (d1 + e1 - (d2 + e2))) (e1 - e2)).
  set (s := e1 - e2 - e').
  assert (Hs : 0 <= s) by (subst s e'; lia).
  set (m' := match s with
             | 0 => Z.pos m1
             | Z.pos _ => Z.shiftl (Z.pos m1) s
             | Z.neg _ => 0
             end).
  assert (Hm' : m' = Z.pos m1 * 2 ^ s).
  { subst m'. destruct s as [|p|p] eqn:Es; [cbn; lia| |lia].
    apply Z.shiftl_mul_pow2. lia. }
  pose proof (Z.pow_pos_nonneg 2 s ltac:(lia) Hs) as Hp2.
  pose proof (Z_div_mod m' (Z.pos m2) ltac:(lia)) as Hdiv.
  unfold Z.div_eucl in Hdiv |- *. fold (Z.div_eucl m' (Z.pos m2)) in Hdiv |- *.
  destruct (Z.div_eucl m' (Z.pos m2)) as [q r]. destruct Hdiv as [Hqr Hr].
  assert (Hq : 0 <= q) by nia.
  split; [exact Hq|]. split.
  - (* the quotient brackets the exact value *)
    set (v := (val (Z.pos m1) e1 / val (Z.pos m2) e2)%R).
    assert (HA : (0 < IZR (Z.pos m2))%R) by (apply IZR_lt; lia).
    pose proof (p2_pos e') as HP. pose proof (p2_pos e2) as HP2.
    assert (Hv : v = (IZR q * p2 e' + IZR r / IZR (Z.pos m2) * p2 e')%R).
    { subst v. unfold val.
      replace e1 with (s + e' + e2) by (subst s; lia).
      rewrite !p2_add, (p2_IZR s Hs).
      assert (Hm1 : (IZR (Z.pos m1) * IZR (2 ^ s) = IZR q * IZR (Z.pos m2) + IZR r)%R).
      { rewrite <- mult_IZR, <- Hm', Hqr, plus_IZR, mult_IZR. lra. }
      transitivity ((IZR (Z.pos m1) * IZR (2 ^ s)) * p2 e' / IZR (Z.pos m2))%R;
        [field; split; lra|].
      rewrite Hm1. field. lra. }
    assert (Hfrac : (0 <= IZR r / IZR (Z.pos m2) < 1)%R).
    { assert (0 <= IZR r)%R by (apply IZR_le; lia).
      assert (IZR r < IZR (Z.pos m2))%R by (apply IZR_lt; lia).
      split.
      - apply Rmult_le_pos; [assumption|]. apply Rlt_le, Rinv_0_lt_compat, HA.
      - apply (Rmult_lt_reg_r (IZR (Z.pos m2))); [exact HA|].
        unfold Rdiv. rewrite Rmult_assoc, Rinv_l by lra. lra. }
    destruct (new_location_exact (Z.pos m2) r) as [Hex Hinex].
    destruct (Z.eq_dec r 0) as [Hr0|Hr0].
    + rewrite (Hex Hr0). cbn [inbetween]. rewrite Hv. subst r. unfold val, Rdiv. lra.
    + specialize (Hinex Hr0).
      destruct (new_location (Z.pos m2) r) as [|c]; [congruence|].
      cbn [inbetween]. rewrite Hv. unfold val. rewrite plus_IZR.
      assert (0 < IZR r / IZR (Z.pos m2))%R.
      { assert (0 < IZR r)%R by (apply IZR_lt; lia).
        apply Rmult_lt_0_compat; [assumption|]. apply Rinv_0_lt_compat, HA. }
      nra.
  - (* enough digits *)
    assert (Hdig : d1 + s - d2 <= Zdigits2 q).
    { apply Zdigits2_ge; [exact Hq|]. intros Ht.
      pose proof (digits2_bounds m1) as [Hlo1 _]. fold d1 in Hlo1.
      pose proof (digits2_bounds m2) as [_ Hhi2]. fold d2 in Hhi2.
      assert (Hq' : q = m' / Z.pos m2).
      { apply Z.div_unique with r; [lia|]. lia. }
      rewrite Hq'. apply Z.div_le_lower_bound; [lia|].
      assert (H1 : 2 ^ (d1 - 1) * 2 ^ s <= m') by nia.
      assert (H2 : Z.pos m2 * 2 ^ (d1 + s - d2 - 1) <= 2 ^ d2 * 2 ^ (d1 + s - d2 - 1)).
      { apply Z.mul_le_mono_nonneg_r; [apply Z.pow_nonneg; lia|lia]. }
      rewrite <- Z.pow_add_r in H1, H2 by lia.
      replace (d2 + (d1 + s - d2 - 1)) with (d1 - 1 + s) in H2 by lia. lia. }
    assert (He' : e' <= fexp prec emax (d1 + e1 - (d2 + e2))) by (subst e'; lia).
    assert (Hmono : fexp prec emax (d1 + e1 - (d2 + e2)) <= fexp prec emax (Zdigits2 q + e')).
    { apply fexp_le. subst s. lia. }
    lia.
Qed.

Theorem SFdiv_rounds (x : spec_float) (my : positive) (ey : Z) :
  pzero_or_positive x -> SpecFloat.bounded prec emax my ey = true ->
  rounds (valSF x / val (Z.pos my) ey)
         (SFdiv prec emax x (S754_finite false my ey)).
Proof.
  destruct x as [[|]|sx| |[|] mx ex]; try contradiction; cbn [pzero_or_positive]; intros Hx Hy.
  - cbn. unfold Rdiv. rewrite Rmult_0_l. apply rounds_zero.
  - cbn [SFdiv valSF xorb].
    pose proof (SFdiv_core_inbetween mx my ex ey) as H.
    destruct (SFdiv_core_binary prec emax (Z.pos mx) ex (Z.pos my) ey) as [[q e'] l].
    destruct H as (Hq & Hin & Hn).
    apply binary_round_aux_rounds; assumption.
Qed.

(** *** Square root *)

Lemma div2_bounds (a : Z) : 2 * Z.div2 a <= a <= 2 * Z.div2 a + 1.
Proof.
  rewrite Z.div2_div.
  pose proof (Z.div_mod a 2 ltac:(lia)). pose proof (Z.mod_pos_bound a 2 ltac:(lia)). lia.
Qed.

Lemma SFsqrt_core_inbetween (m : positive) (e : Z) :
  let '(q, e', l) := SFsqrt_core_binary prec emax (Z.pos m) e in
  0 <= q
  /\ inbetween q e' l (sqrt (val (Z.pos m) e))
  /\ e' <= fexp prec emax (Zdigits2 q + e').
Proof.
  unfold SFsqrt_core_binary. cbn [Zdigits2].
  set (d := Z.pos (digits2_pos m)).
  set (e' := Z.min (fexp prec emax (Z.div2 (d + e + 1))) (Z.div2 e)).
  set (s := e - 2 * e').
  assert (Hs : 0 <= s).
  { subst s e'. pose proof (div2_bounds e). lia. }
  set (m' := match s with
             | 0 => Z.pos m
             | Z.pos _ => Z.shiftl (Z.pos m) s
             | Z.neg _ => 0
             end).
  assert (Hm' : m' = Z.pos m * 2 ^ s).
  { subst m'. destruct s as [|p|p] eqn:Es; [cbn; lia| |lia].
    apply Z.shiftl_mul_pow2. lia. }
  pose proof (Z.pow_pos_nonneg 2 s ltac:(lia) Hs) as Hp2.
  assert (Hm'pos : 0 < m') by nia.
  pose proof (Z.sqrtrem_spec m' ltac:(lia)) as Hsq.
  destruct (Z.sqrtrem m') as [q r]. destruct Hsq as [Hqr Hr].
  assert (Hq : 0 <= q).
  { destruct (Z.le_gt_cases 0 q); [assumption|]. nia. }
  split; [exact Hq|]. split.
  - set (v := sqrt (val (Z.pos m) e)).
    pose proof (p2_pos e') as HP.
    assert (Hval : val (Z.pos m) e = (IZR m' * (p2 e' * p2 e'))%R).
    { unfold val. replace e with (s + e' + e') by (subst s; lia).
      rewrite !p2_add, (p2_IZR s Hs), Hm', mult_IZR. lra. }
    assert (Hsqr : forall k, 0 <= k -> sqrt (IZR (k * k) * (p2 e' * p2 e')) = val k e').
    { intros k Hk. unfold val. rewrite mult_IZR.
      replace (IZR k * IZR k * (p2 e' * p2 e'))%R
        with ((IZR k * p2 e') * (IZR k * p2 e'))%R by lra.
      apply sqrt_square. apply IZR_le in Hk. nra. }
    assert (Hlow : (val q e' <= v)%R).
    { rewrite <- (Hsqr q Hq). subst v. rewrite Hval. apply sqrt_le_1_alt.
      apply Rmult_le_compat_r; [nra|]. apply IZR_le. lia. }
    assert (Hhigh : (v < val (q + 1) e')%R).
    { rewrite <- (Hsqr (q + 1)) by lia. subst v. rewrite Hval. apply sqrt_lt_1_alt.
      split.
      - apply Rmult_le_pos; [apply IZR_le; lia|nra].
      - apply Rmult_lt_compat_r; [nra|]. apply IZR_lt. lia. }
    destruct (Z.eqb_spec r 0) as [Hr0|Hr0].
    + cbn [inbetween]. subst v. rewrite Hval, <- (Hsqr q Hq). f_equal. f_equal. f_equal. lia.
    + cbn [inbetween]. split; [|exact Hhigh].
      destruct (Rle_lt_or_eq_dec _ _ Hlow) as [Hlt|Heq]; [exact Hlt|exfalso].
      assert (Hvv : (v * v = val (Z.pos m) e)%R).
      { subst v. apply sqrt_sqrt. rewrite Hval.
        apply Rmult_le_pos; [apply IZR_le; lia|nra]. }
      rewrite <- Heq, Hval in Hvv. unfold val in Hvv.
      assert (Hz : (IZR q * IZR q = IZR m')%R).
      { apply (Rmult_eq_reg_r (p2 e' * p2 e')); [lra|].
        apply Rgt_not_eq. apply Rmult_lt_0_compat; exact HP. }
      rewrite <- mult_IZR in Hz. apply eq_IZR in Hz. lia.
  - assert (Hdig : Z.div2 (d + s + 1) <= Zdigits2 q).
    { apply Zdigits2_ge; [exact Hq|]. intros Ht.
      pose proof (digits2_bounds m) as [Hlo _]. fold d in Hlo.
      set (t := Z.div2 (d + s + 1)) in *.
      assert (Ht2 : 2 * t - 2 <= d + s - 1).
      { subst t. pose proof (div2_bounds (d + s + 1)). lia. }
      destruct (Z.le_gt_cases (2 ^ (t - 1)) q) as [|Hlt]; [assumption|exfalso].
      assert (H1 : (q + 1) * (q + 1) <= 2 ^ (t - 1) * 2 ^ (t - 1)) by nia.
      rewrite <- Z.pow_add_r in H1 by lia.
      assert (H2 : 2 ^ (t - 1 + (t - 1)) <= 2 ^ (d + s - 1)) by (apply Z.pow_le_mono_r; lia).
      assert (H3 : 2 ^ (d - 1) * 2 ^ s <= m') by nia.
      rewrite <- Z.pow_add_r in H3 by lia.
      replace (d - 1 + s) with (d + s - 1) in H3 by lia. nia. }
    assert (He' : e' <= fexp prec emax (Z.div2 (d + e + 1))) by (subst e'; lia).
    assert (Hmono : fexp prec emax (Z.div2 (d + e + 1)) <= fexp prec emax (Zdigits2 q + e')).
    { apply fexp_le. pose proof (div2_bounds (d + e + 1)).
      pose proof (div2_bounds (d + s + 1)). subst s. lia. }
    lia.
Qed.

Theorem SFsqrt_rounds (x : spec_float) :
  pzero_or_positive x -> rounds (sqrt (valSF x)) (SFsqrt prec emax x).
Proof.
  destruct x as [[|]|sx| |[|] mx ex]; try contradiction; cbn [pzero_or_positive]; intros Hx.
  - cbn. rewrite sqrt_0. apply rounds_zero.
  - cbn [SFsqrt valSF].
    pose proof (SFsqrt_core_inbetween mx ex) as H.
    destruct (SFsqrt_core_binary prec emax (Z.pos mx) ex) as [[q e'] l].
    destruct H as (Hq & Hin & Hn).
    apply binary_round_aux_rounds; assumption.
Qed.

(** *** Representable values *)

Lemma representable (m : positive) (e : Z) :
  Z.pos (digits2_pos m) <= 53 ->
  -1021 <= e + Z.pos (digits2_pos m) <= 1024 ->
  exists mk ek, SpecFloat.bounded prec emax mk ek = true
                /\ val (Z.pos mk) ek = val (Z.pos m) e.
Proof.
  intros Hd He. set (d := Z.pos (digits2_pos m)) in *.
  pose proof (shl_align_spec m e (e + d - 53)) as H.
  destruct (shl_align m e (e + d - 53)) as [mz ez]. destruct H as (Hv & Hez & Hmz).
  exists mz, ez. split; [|exact Hv].
  assert (Hez' : ez = e + d - 53) by lia.
  apply bounded_intro; [lia|]. right. split; [lia|].
  rewrite (digits2_mul_pow2 m (e - ez) mz) by lia. fold d. lia.
Qed.

Lemma representable_p2 (k : Z) :
  -1022 <= k <= 1023 ->
  exists mk ek, SpecFloat.bounded prec emax mk ek = true /\ val (Z.pos mk) ek = p2 k.
Proof.
  intros Hk. destruct (representable 1 k) as (mk & ek & Hb & Hv); cbn; try lia.
  exists mk, ek. split; [exact Hb|]. rewrite Hv. unfold val. lra.
Qed.

Lemma representable_Z (n : positive) :
  Z.pos n < 2 ^ 53 ->
  exists mk ek, SpecFloat.bounded prec emax mk ek = true /\ val (Z.pos mk) ek = IZR (Z.pos n).
Proof.
  intros Hn. pose proof (digits2_le n 53 Hn) as Hd.
  assert (0 < Z.pos (digits2_pos n)) by lia.
  destruct (representable n 0) as (mk & ek & Hb & Hv); try lia.
  exists mk, ek. split; [exact Hb|]. rewrite Hv. unfold val. rewrite p2_0. lra.
Qed.

(** *** What [rounds] gives against representable bounds *)

Lemma rounds_le (v b : R) (r : spec_float) :
  rounds v r ->
  (exists mk ek, SpecFloat.bounded prec emax mk ek = true /\ val (Z.pos mk) ek = b) ->
  (v <= b)%R -> pzero_or_positive r /\ (valSF r <= b)%R.
Proof.
  intros Hr (mk & ek & Hb & Hv) Hle.
  destruct Hr as (_ & Hshape & Hup & _). rewrite <- Hv in Hle.
  destruct (Hup mk ek Hb Hle) as [Hinf Hval]. rewrite Hv in Hval. split; [|exact Hval].
  destruct Hshape as [->|[->|(m & e & -> & Hbd)]]; cbn; [exact I|congruence|exact Hbd].
Qed.

Lemma rounds_ge (v b : R) (r : spec_float) :
  rounds v r -> r <> S754_infinity false ->
  (exists mk ek, SpecFloat.bounded prec emax mk ek = true /\ val (Z.pos mk) ek = b) ->
  (b <= v)%R -> (b <= valSF r)%R.
Proof.
  intros Hr Hinf (mk & ek & Hb & Hv) Hle.
  destruct Hr as (_ & _ & _ & Hlow & _). rewrite <- Hv in Hle.
  destruct (Hlow mk ek Hb Hle) as [H|H]; [contradiction|]. rewrite <- Hv. exact H.
Qed.

Lemma nn_not_infinity (r : spec_float) : pzero_or_positive r -> r <> S754_infinity false.
Proof. destruct r as [[|]|s| |[|] m e]; cbn; intros H; congruence || contradiction. Qed.

Lemma nn_cases (r : spec_float) :
  pzero_or_positive r -> (r = S754_zero false /\ valSF r = 0%R)
          \/ exists m e, r = S754_finite false m e
                         /\ SpecFloat.bounded prec emax m e = true
                         /\ valSF r = val (Z.pos m) e.
Proof.
  destruct r as [[|]|s| |[|] m e]; cbn; intros H; try contradiction.
  - left. split; reflexivity.
  - right. exists m, e. repeat split. exact H.
Qed.

Lemma rounds_ge_nn (v : R) (x r : spec_float) :
  rounds v r -> r <> S754_infinity false -> pzero_or_positive x -> (valSF x <= v)%R ->
  (valSF x <= valSF r)%R.
Proof.
  intros Hr Hinf Hx Hle. destruct (nn_cases x Hx) as [[-> _]|(m & e & -> & Hb & _)].
  - cbn. destruct Hr as (_ & Hshape & _).
    destruct Hshape as [->|[->|(m & e & -> & Hbd)]]; cbn; [lra|lra|].
    pose proof (val_pos m e). lra.
  - apply (rounds_ge v _ r Hr Hinf); [|exact Hle]. exists m, e. split; [exact Hb|reflexivity].
Qed.

(** *** Signs *)

Lemma binary_round_aux_sign (p em : Z) (mx ex : Z) (lx : location) :
  binary_round_aux p em true mx ex lx = SFopp (binary_round_aux p em false mx ex lx).
Proof.
  unfold binary_round_aux.
  destruct (shr_fexp p em mx ex lx) as [mrs' e'].
  destruct (shr_fexp p em _ e' loc_Exact) as [mrs'' e''].
  destruct (shr_m mrs''); [reflexivity| |reflexivity].
  destruct (e'' <=? em - p); reflexivity.
Qed.

Lemma binary_round_sign (p em : Z) (s : bool) (m : positive) (e : Z) :
  binary_round p em s m e
  = if s then SFopp (binary_round p em false m e) else binary_round p em false m e.
Proof.
  destruct s; [|reflexivity]. unfold binary_round.
  destruct (shl_align m e _) as [mz ez]. apply binary_round_aux_sign.
Qed.

Lemma SFleb_negative (a c : positive) (b d : Z) :
  SFleb (S754_finite true a b) (S754_finite true c d)
  = SFleb (S754_finite false c d) (S754_finite false a b).
Proof.
  unfold SFleb, SFcompare. rewrite (Z.compare_antisym b d).
  destruct (b ?= d); cbn; try reflexivity.
  change (Pos.compare_cont Eq c a) with (Pos.compare c a).
  change (Pos.compare_cont Eq a c) with (Pos.compare a c).
  rewrite (Pos.compare_antisym c a). destruct (c ?= a)%positive; reflexivity.
Qed.

(** *** The exponent of a rounded number is at least the least one *)

Lemma shr_exponent (mrs : shr_record) (e n : Z) :
  snd (shr mrs e n) = if 0 <? n then e + n else e.
Proof. destruct n; reflexivity. Qed.

Lemma binary_round_aux_exponent (p em : Z) (s : bool) (mx ex : Z) (lx : location)
    (s' : bool) (m' : positive) (e' : Z) :
  ex <= fexp p em (Zdigits2 mx + ex) ->
  binary_round_aux p em s mx ex lx = S754_finite s' m' e' ->
  s' = s /\ 3 - em - p <= e'.
Proof.
  intros Hex. unfold binary_round_aux.
  destruct (shr_fexp p em mx ex lx) as [mrs1 e1] eqn:H1.
  destruct (shr_fexp p em _ e1 loc_Exact) as [mrs2 e2] eqn:H2.
  intros H.
  assert (He1 : 3 - em - p <= e1).
  { unfold shr_fexp in H1. apply (f_equal snd) in H1. rewrite shr_exponent in H1.
    cbn [snd] in H1. subst e1. revert Hex. unfold fexp, emin. intros Hex.
    destruct (Z.ltb_spec 0 (Z.max (Zdigits2 mx + ex - p) (3 - em - p) - ex)); lia. }
  assert (He2 : 3 - em - p <= e2).
  { unfold shr_fexp in H2. apply (f_equal snd) in H2. rewrite shr_exponent in H2.
    cbn [snd] in H2. subst e2. unfold fexp, emin.
    match goal with |- context [0 <? ?n] => destruct (Z.ltb_spec 0 n) end; lia. }
  destruct (shr_m mrs2); try discriminate.
  destruct (e2 <=? em - p); [|discriminate]. injection H as <- _ <-. split; [reflexivity|exact He2].
Qed.

Lemma binary_round_exponent (p em : Z) (s : bool) (m : positive) (e : Z)
    (s' : bool) (m' : positive) (e' : Z) :
  binary_round p em s m e = S754_finite s' m' e' -> s' = s /\ 3 - em - p <= e'.
Proof.
  unfold binary_round.
  pose proof (shl_align_spec m e (fexp p em (Z.pos (digits2_pos m) + e))) as Ha.
  destruct (shl_align m e _) as [mz ez]. destruct Ha as (_ & Hez & Hmz).
  apply binary_round_aux_exponent. cbn [Zdigits2].
  rewrite (digits2_mul_pow2 m (e - ez) mz) by lia.
  replace (Z.pos (digits2_pos m) + (e - ez) + ez) with (Z.pos (digits2_pos m) + e) by lia.
  lia.
Qed.

End FloatRounding.

(* ------------------------------------------------------------------ *)
(** ** The RMS of a buffer of float32 samples                           *)
(* ------------------------------------------------------------------ *)

Module RmsRange.
Import JS.
Import Reals Lra.
Import FloatSpec FloatRounding.
Local Open Scope Z_scope.
Local Unset Implicit Arguments.

Lemma Prim2SF_one : Prim2SF 1 = S754_finite false 4503599627370496 (-52).
Proof. vm_compute. reflexivity. Qed.

Lemma Prim2SF_minus_one : Prim2SF (-1) = S754_finite true 4503599627370496 (-52).
Proof. vm_compute. reflexivity. Qed.

Lemma val_one : val 4503599627370496 (-52) = 1%R.
Proof.
  change 4503599627370496 with (1 * 2 ^ 52). rewrite val_shift by lia.
  cbn. unfold val. rewrite p2_0. lra.
Qed.

Lemma p2_nat_1 : p2 0 = 1%R.
Proof. apply p2_0. Qed.

Lemma sample_cases (s : number) :
  float32 s -> SpeechSpec.within (-1) 1 s = true ->
  (exists sg, Prim2SF s = S754_zero sg)
  \/ exists sg m e, Prim2SF s = S754_finite sg m e
                    /\ SpecFloat.bounded prec emax m e = true
                    /\ (p2 (-149) <= val (Z.pos m) e <= 1)%R.
Proof.
  unfold float32, SpeechSpec.within, OfflineSpeech.Math_fround.
  rewrite !FloatAxioms.leb_spec, Prim2SF_one, Prim2SF_minus_one.
  pose proof (Prim2SF_valid s) as Hv.
  destruct (Prim2SF s) as [sg|sg| |sg m e] eqn:E; intros Hf Hw.
  - left. exists sg. reflexivity.
  - destruct sg; cbn in Hw; discriminate.
  - cbn in Hw. discriminate.
  - right. exists sg, m, e. split; [reflexivity|]. cbn in Hv. split; [exact Hv|].
    apply andb_true_iff in Hw. destruct Hw as [Hlo Hhi]. split.
    + destruct (binary_round 24 128 sg m e) as [s'|s'| |s' m' e'] eqn:E32.
      * apply (f_equal Prim2SF) in Hf. rewrite Prim2SF_SF2Prim, E in Hf by reflexivity.
        discriminate.
      * apply (f_equal Prim2SF) in Hf. rewrite Prim2SF_SF2Prim, E in Hf by reflexivity.
        discriminate.
      * apply (f_equal Prim2SF) in Hf. rewrite Prim2SF_SF2Prim, E in Hf by reflexivity.
        discriminate.
      * destruct (binary_round_exponent 24 128 sg m e s' m' e' E32) as [-> He'].
        pose proof (binary_round_rounds m' e') as Hr.
        set (r := binary_round prec emax false m' e') in *.
        assert (Hsign : binary_round 53 1024 sg m' e' = if sg then SFopp r else r)
          by apply (binary_round_sign prec emax).
        rewrite Hsign in Hf.
        assert (Hnn : r = S754_finite false m e).
        { apply (f_equal Prim2SF) in Hf. rewrite E in Hf.
          destruct Hr as (_ & Hshape & _).
          destruct Hshape as [Hs|[Hs|(mr & er & Hs & Hb)]]; rewrite Hs in Hf |- *;
            destruct sg; cbn [SFopp negb] in Hf;
            rewrite Prim2SF_SF2Prim in Hf by (cbn; try reflexivity; exact Hb);
            try discriminate; injection Hf as -> ->; reflexivity. }
        assert (H := rounds_ge _ (p2 (-149)) r Hr).
        rewrite Hnn in H. cbn [valSF] in H. apply H.
        -- discriminate.
        -- apply representable_p2. lia.
        -- unfold val. pose proof (p2_le (-149) e' ltac:(lia)).
           pose proof (p2_pos (-149)).
           assert (1 <= IZR (Z.pos m'))%R by (apply IZR_le; lia). nra.
    + rewrite <- val_one.
      change (val (Z.pos m) e) with (valSF (S754_finite false m e)).
      change (val 4503599627370496 (-52))
        with (valSF (S754_finite false 4503599627370496 (-52))).
      apply SFleb_nonneg; [exact Hv|reflexivity|].
      destruct sg; [rewrite SFleb_negative in Hlo; exact Hlo|exact Hhi].
Qed.

Lemma is_zero_Prim2SF (s : number) :
  PrimFloat.is_zero s = true <-> exists sg, Prim2SF s = S754_zero sg.
Proof.
  unfold PrimFloat.is_zero. rewrite FloatAxioms.eqb_spec.
  change (Prim2SF 0) with (S754_zero false).
  destruct (Prim2SF s) as [sg|sg| |sg m e]; split; intros H.
  - exists sg. reflexivity.
  - destruct sg; reflexivity.
  - destruct sg; discriminate.
  - destruct H; discriminate.
  - discriminate.
  - destruct H; discriminate.
  - destruct sg; discriminate.
  - destruct H; discriminate.
Qed.

Lemma p2_double (a : Z) : (p2 a * p2 a = p2 (2 * a))%R.
Proof. rewrite <- p2_add. f_equal. lia. Qed.

Lemma square_bounds (s : number) :
  float32 s -> SpeechSpec.within (-1) 1 s = true ->
  pzero_or_positive (Prim2SF (s * s)%float) /\ (value (s * s)%float <= 1)%R
  /\ (PrimFloat.is_zero s = true -> (s * s)%float = 0%float)
  /\ (PrimFloat.is_zero s = false -> (p2 (-298) <= value (s * s)%float)%R).
Proof.
  intros Hf Hw. unfold value. rewrite FloatAxioms.mul_spec.
  destruct (sample_cases s Hf Hw) as [[sg E]|(sg & m & e & E & Hb & Hlo & Hhi)].
  - rewrite E. assert (Hz : SF64mul (S754_zero sg) (S754_zero sg) = S754_zero false)
      by (destruct sg; reflexivity).
    rewrite Hz. cbn. repeat split; try lra.
    + intros _. apply Prim2SF_inj. rewrite FloatAxioms.mul_spec, E, Hz. reflexivity.
    + intros Hn. exfalso. apply not_true_iff_false in Hn. apply Hn.
      apply is_zero_Prim2SF. exists sg. exact E.
  - rewrite E. pose proof (SFmul_square_rounds sg m e Hb) as Hr.
    set (r := SFmul prec emax (S754_finite sg m e) (S754_finite sg m e)) in *.
    change (SF64mul (S754_finite sg m e) (S754_finite sg m e)) with r.
    pose proof (val_pos m e) as Hp. pose proof (p2_pos (-149)) as Hp2.
    destruct (rounds_le _ 1%R r Hr) as [Hnn Hle].
    { destruct (representable_p2 0 ltac:(lia)) as (mk & ek & Hk & Hv).
      exists mk, ek. rewrite Hv, p2_0. split; [exact Hk|reflexivity]. }
    { nra. }
    split; [exact Hnn|]. split; [exact Hle|]. split.
    + intros Hz. apply is_zero_Prim2SF in Hz. destruct Hz as [sg' Hz]. congruence.
    + intros _. apply (rounds_ge _ _ r Hr).
      * apply nn_not_infinity. exact Hnn.
      * apply representable_p2. lia.
      * replace (p2 (-298)) with (p2 (-149) * p2 (-149))%R
          by (rewrite p2_double; reflexivity).
        nra.
Qed.

Lemma add_bounds (x y : number) (k : Z) :
  pzero_or_positive (Prim2SF x) -> pzero_or_positive (Prim2SF y) -> 0 < k < 2 ^ 53 ->
  (value x + value y <= IZR k)%R ->
  pzero_or_positive (Prim2SF (x + y)%float) /\ (value (x + y)%float <= IZR k)%R
  /\ (value x <= value (x + y)%float)%R /\ (value y <= value (x + y)%float)%R.
Proof.
  intros Hx Hy Hk Hle. unfold value in *. rewrite FloatAxioms.add_spec.
  pose proof (SFadd_rounds _ _ Hx Hy) as Hr.
  set (r := SFadd prec emax (Prim2SF x) (Prim2SF y)) in *.
  change (SF64add (Prim2SF x) (Prim2SF y)) with r.
  destruct k as [|p|p]; try lia.
  destruct (rounds_le _ _ r Hr (representable_Z p (proj2 Hk)) Hle) as [Hnn Hup].
  pose proof (valSF_nonneg _ (nn_nonneg _ Hx)).
  pose proof (valSF_nonneg _ (nn_nonneg _ Hy)).
  repeat split; try assumption.
  - apply (rounds_ge_nn _ _ r Hr (nn_not_infinity _ Hnn) Hx). lra.
  - apply (rounds_ge_nn _ _ r Hr (nn_not_infinity _ Hnn) Hy). lra.
Qed.

Lemma sum_of_squares_bounds (samples : list number) :
  (forall s, In s samples -> float32 s /\ SpeechSpec.within (-1) 1 s = true) ->
  forall (acc : number) (k : Z),
    pzero_or_positive (Prim2SF acc) -> 0 <= k -> k + OfflineSpeech.len samples < 2 ^ 53 ->
    (value acc <= IZR k)%R ->
    let r := fold_left (fun sum sample => (sum + sample * sample)%float) samples acc in
    pzero_or_positive (Prim2SF r) /\ (value r <= IZR (k + OfflineSpeech.len samples))%R
    /\ (value acc <= value r)%R
    /\ (forall s, In s samples -> PrimFloat.is_zero s = false -> (p2 (-298) <= value r)%R).
Proof.
  unfold OfflineSpeech.len.
  induction samples as [|s rest IH]; intros Hs acc k Hacc Hk Hlen Hle; cbn [fold_left].
  - cbn [List.length Z.of_nat]. rewrite Z.add_0_r. repeat split; try assumption; try lra.
    intros s [].
  - cbn [List.length] in *. rewrite Nat2Z.inj_succ in *.
    destruct (Hs s (or_introl eq_refl)) as [Hf Hw].
    destruct (square_bounds s Hf Hw) as (Hq & Hq1 & _ & Hqlow).
    assert (Hsum : (value acc + value (s * s)%float <= IZR (k + 1))%R)
      by (rewrite plus_IZR; lra).
    destruct (add_bounds acc (s * s)%float (k + 1) Hacc Hq ltac:(lia) Hsum)
      as (Hn & Hup & Hge1 & Hge2).
    destruct (IH (fun t Ht => Hs t (or_intror Ht)) (acc + s * s)%float (k + 1) Hn
                 ltac:(lia) ltac:(lia) Hup) as (Hn' & Hup' & Hge' & Hlow').
    split; [exact Hn'|]. split.
    { replace (k + Z.succ (Z.of_nat (List.length rest)))
        with (k + 1 + Z.of_nat (List.length rest)) by lia. exact Hup'. }
    split; [lra|].
    intros t [<-|Ht] Hz.
    + specialize (Hqlow Hz). lra.
    + apply (Hlow' t Ht Hz).
Qed.

Lemma of_Z_exact (n : Z) :
  0 < n < 2 ^ 53 ->
  exists m e, Prim2SF (of_Z n) = S754_finite false m e
              /\ SpecFloat.bounded prec emax m e = true
              /\ val (Z.pos m) e = IZR n.
Proof.
  intros Hn. destruct (FloatOrder.of_Z_positive n Hn) as (m & e & E).
  exists m, e. split; [exact E|].
  pose proof (Prim2SF_valid (of_Z n)) as Hv. rewrite E in Hv. cbn in Hv.
  split; [exact Hv|].
  revert E. unfold of_Z. destruct (Z.ltb_spec n 0) as [|_]; [lia|].
  rewrite of_uint63_spec, Uint63.of_Z_spec.
  rewrite Z.mod_small by (change Uint63.wB with (2 ^ 63); split; [lia|];
                          assert (2 ^ 53 < 2 ^ 63) by reflexivity; lia).
  destruct n as [|p|p]; try lia. cbn [binary_normalize]. intros E.
  pose proof (binary_round_rounds p 0) as Hr. rewrite E in Hr.
  assert (Hp : val (Z.pos p) 0 = IZR (Z.pos p)) by (unfold val; rewrite p2_0; lra).
  rewrite Hp in Hr.
  destruct (representable_Z p (proj2 Hn)) as (mk & ek & Hb & Hk).
  destruct Hr as (_ & _ & Hup & Hlow & _).
  destruct (Hup mk ek Hb ltac:(lra)) as [_ H1].
  destruct (Hlow mk ek Hb ltac:(lra)) as [H2|H2]; [discriminate|].
  cbn [valSF] in H1, H2. lra.
Qed.

Lemma div_bounds (x : number) (n : Z) :
  pzero_or_positive (Prim2SF x) -> 0 < n < 2 ^ 53 -> (value x <= IZR n)%R ->
  pzero_or_positive (Prim2SF (x / of_Z n)%float) /\ (value (x / of_Z n)%float <= 1)%R
  /\ ((p2 (-298) <= value x)%R -> (p2 (-351) <= value (x / of_Z n)%float)%R).
Proof.
  intros Hx Hn Hle. unfold value in *. rewrite FloatAxioms.div_spec.
  destruct (of_Z_exact n Hn) as (m & e & E & Hb & Hv). rewrite E.
  pose proof (SFdiv_rounds _ m e Hx Hb) as Hr. rewrite Hv in Hr.
  set (r := SFdiv prec emax (Prim2SF x) (S754_finite false m e)) in *.
  change (SF64div (Prim2SF x) (S754_finite false m e)) with r.
  assert (Hn1 : (1 <= IZR n)%R) by (apply IZR_le; lia).
  assert (Hn2 : (IZR n <= p2 53)%R) by (rewrite p2_IZR by lia; apply IZR_le; lia).
  pose proof (valSF_nonneg _ (nn_nonneg _ Hx)) as H0.
  destruct (rounds_le _ 1%R r Hr) as [Hnn Hup].
  { destruct (representable_p2 0 ltac:(lia)) as (mk & ek & Hk & Hk').
    exists mk, ek. rewrite Hk', p2_0. split; [exact Hk|reflexivity]. }
  { apply (Rmult_le_reg_r (IZR n)); [lra|]. unfold Rdiv.
    rewrite Rmult_assoc, Rinv_l by lra. lra. }
  split; [exact Hnn|]. split; [exact Hup|].
  intros Hlow. apply (rounds_ge _ _ r Hr (nn_not_infinity _ Hnn)).
  - apply representable_p2. lia.
  - apply (Rmult_le_reg_r (IZR n)); [lra|]. unfold Rdiv.
    rewrite Rmult_assoc, Rinv_l by lra.
    assert (Hs : (p2 (-351) * p2 53 = p2 (-298))%R) by (rewrite <- p2_add; reflexivity).
    pose proof (p2_pos (-351)). nra.
Qed.

Lemma sqrt_bounds (x : number) :
  pzero_or_positive (Prim2SF x) -> (value x <= 1)%R ->
  pzero_or_positive (Prim2SF (Math_sqrt x)) /\ (value (Math_sqrt x) <= 1)%R
  /\ ((p2 (-351) <= value x)%R -> (p2 (-176) <= value (Math_sqrt x))%R).
Proof.
  intros Hx Hle. unfold value, Math_sqrt in *. rewrite FloatAxioms.sqrt_spec.
  pose proof (SFsqrt_rounds _ Hx) as Hr.
  set (r := SFsqrt prec emax (Prim2SF x)) in *.
  change (SF64sqrt (Prim2SF x)) with r.
  pose proof (valSF_nonneg _ (nn_nonneg _ Hx)) as H0.
  destruct (rounds_le _ 1%R r Hr) as [Hnn Hup].
  { destruct (representable_p2 0 ltac:(lia)) as (mk & ek & Hk & Hk').
    exists mk, ek. rewrite Hk', p2_0. split; [exact Hk|reflexivity]. }
  { rewrite <- sqrt_1. apply sqrt_le_1_alt. exact Hle. }
  split; [exact Hnn|]. split; [exact Hup|].
  intros Hlow. apply (rounds_ge _ _ r Hr (nn_not_infinity _ Hnn)).
  - apply representable_p2. lia.
  - pose proof (p2_pos (-176)) as Hp.
    rewrite <- (sqrt_square (p2 (-176))) by lra. apply sqrt_le_1_alt.
    rewrite p2_double. pose proof (p2_le (2 * -176) (-351) ltac:(lia)). lra.
Qed.

Lemma silent_false (samples : list number) :
  SpeechSpec.silent samples = false ->
  exists s, In s samples /\ PrimFloat.is_zero s = false.
Proof.
  induction samples as [|s rest IH]; [discriminate|].
  cbn [SpeechSpec.silent forallb]. intros H. apply andb_false_iff in H.
  destruct H as [H|H].
  - exists s. split; [left; reflexivity|exact H].
  - destruct (IH H) as (t & Ht & Hz). exists t. split; [right; exact Ht|exact Hz].
Qed.

(** C4.  For every buffer of samples in [-1, 1] the RMS the extractor
    computes lies in [0, 1], and it is 0 exactly when every sample is a
    zero.  A buffer is what [getChannelData] returns: a [Float32Array]
    (every element is a float32 value) with at least one frame and, as any
    typed array, fewer than [2^53] elements.  The bounds are those of the
    binary64 computation itself: each partial sum of [k] squares is at most
    [k], and a non-zero float32 sample is at least [2^-149] in magnitude, so
    that its square, the mean and the root stay above 0. *)
Theorem rms_in_unit_range :
  forall (Math_cos : number -> number) (audioBuffer : AudioBuffer.t),
    let samples := AudioBuffer.channelData0 audioBuffer in
    0 < OfflineSpeech.len samples < 2 ^ 53 ->
    (forall s, In s samples -> float32 s /\ SpeechSpec.within (-1) 1 s = true) ->
    let rms := AudioFeatures.rms (OfflineSpeech.extractAudioFeatures Math_cos audioBuffer) in
    SpeechSpec.within 0 1 rms = true
    /\ (rms = 0%float <-> SpeechSpec.silent samples = true).
Proof.
  intros Math_cos b samples Hlen Hs rms.
  assert (Hrms : rms = Math_sqrt (fold_left (fun sum sample => (sum + sample * sample)%float)
                                            samples 0%float
                                  / of_Z (OfflineSpeech.len samples))%float) by reflexivity.
  destruct (sum_of_squares_bounds samples Hs 0%float 0 I ltac:(lia) ltac:(lia))
    as (Hn & Hup & _ & Hlow).
  { unfold value. cbn. lra. }
  set (total := fold_left (fun sum sample => (sum + sample * sample)%float) samples 0%float)
    in *.
  rewrite Z.add_0_l in Hup.
  destruct (div_bounds total _ Hn Hlen Hup) as (Hqn & Hq1 & Hqlow).
  destruct (sqrt_bounds _ Hqn Hq1) as (Hrn & Hr1 & Hrlow).
  rewrite <- Hrms in Hrn, Hr1, Hrlow.
  split.
  - unfold SpeechSpec.within. rewrite !FloatAxioms.leb_spec, Prim2SF_one.
    change (Prim2SF 0) with (S754_zero false).
    apply andb_true_iff. split.
    + apply SFleb_nonneg; [exact I|apply nn_nonneg, Hrn|].
      cbn [valSF]. apply valSF_nonneg, nn_nonneg, Hrn.
    + apply SFleb_nonneg; [apply nn_nonneg, Hrn|reflexivity|].
      cbn [valSF]. rewrite val_one. exact Hr1.
  - split.
    + intros H0. destruct (SpeechSpec.silent samples) eqn:Hsil; [reflexivity|exfalso].
      destruct (silent_false samples Hsil) as (s & Hin & Hz).
      specialize (Hrlow (Hqlow (Hlow s Hin Hz))).
      rewrite H0 in Hrlow. unfold value in Hrlow.
      change (Prim2SF 0) with (S754_zero false) in Hrlow. cbn [valSF] in Hrlow.
      pose proof (p2_pos (-176)). lra.
    + intros Hsil. rewrite Hrms. subst total.
      rewrite (SilentAudio.sum_of_squares_silent _ Hsil), (FloatOrder.zero_div_of_Z _ Hlen).
      reflexivity.
Qed.

Lemma clipped_buffer_rms :
  let rms := AudioFeatures.rms
               (OfflineSpeech.extractAudioFeatures SpeechSpec.sample_cos
                                                   SpeechSpec.clipped_buffer) in
  SpeechSpec.within 0 1 rms = true
  /\ (rms = 0%float <-> SpeechSpec.silent (AudioBuffer.channelData0 SpeechSpec.clipped_buffer) = true).
Proof.
  apply (rms_in_unit_range SpeechSpec.sample_cos SpeechSpec.clipped_buffer).
  - vm_compute. split; reflexivity.
  - intros s [<-|[<-|[<-|[]]]]; split; vm_compute; reflexivity.
Defined.

End RmsRange.

(* ------------------------------------------------------------------ *)
(** ** More on the real-time loop                                       *)
(* ------------------------------------------------------------------ *)

Module LoopFacts.
Import JS RealTime RealTimeSpec LoopFactsSpec.
Local Unset Implicit Arguments.

Lemma step_idle_history (w : World) (op : Op) : idle_history w -> idle_history (step w op).
Proof.
  unfold idle_history. intros Hw.
  destruct op as [granted rate|onResult onError| |handle snapshot| |closed]; cbn [step].
  - unfold initialize. destruct granted; cbn; exact Hw.
  - unfold startAnalysis.
    destruct (isAnalyzing (service w)) eqn:Hon; [cbn; rewrite ?Hon; discriminate|].
    destruct (analyser (service w)); [cbn; discriminate|].
    destruct onError; cbn; rewrite ?Hon; exact Hw.
  - unfold stopAnalysis.
    destruct (isAnalyzing (service w)) eqn:Hon; cbn [negb]; [|rewrite ?Hon; exact Hw].
    destruct (analysisInterval (service w)) as [handle|];
      [destruct (handle =? 0)|]; cbn; reflexivity.
  - unfold fire. destruct (existsb (Z.eqb handle) (timers w)); [|exact Hw].
    unfold performRealTimeAnalysis.
    destruct (analyser (service w)); [|exact Hw].
    destruct (isAnalyzing (service w)) eqn:Hon; cbn [negb]; [|rewrite ?Hon; exact Hw].
    destruct snapshot as [[f t]|].
    + destruct (analyzeRealTimeSpeech _ (env w)) as [result e'].
      destruct (onResultCallback (service w)); cbn; rewrite ?Hon; discriminate.
    + destruct (onErrorCallback (service w)); cbn; rewrite ?Hon; discriminate.
  - unfold cleanup, stopAnalysis.
    destruct (isAnalyzing (service w)) eqn:Hon; cbn [negb].
    + destruct (analysisInterval (service w)) as [handle|];
        [destruct (handle =? 0)|]; cbn;
        destruct (audioContext (service w)); cbn; reflexivity.
    + cbn. destruct (audioContext (service w)); cbn; rewrite ?Hon; auto.
  - unfold cleanupResumes. destruct (closing w); [exact Hw|].
    destruct closed; cbn; [reflexivity|exact Hw].
Qed.

Lemma run_idle_history (ops : list Op) :
  forall w : World, idle_history w -> idle_history (run ops w).
Proof.
  induction ops as [|op ops IH]; intros w Hw; [exact Hw|].
  cbn [run fold_left]. apply IH, step_idle_history, Hw.
Qed.

Lemma reachable_invariants (cfg : Config.t) (e : Env) (ops : list Op) :
  one_timer (run ops (new_world cfg e)) /\ idle_history (run ops (new_world cfg e)).
Proof.
  split.
  - apply (@RealTimeLoop.run_one_timer ops), RealTimeLoop.new_world_one_timer.
  - apply run_idle_history. intros _. reflexivity.
Qed.

(** *** Stopping *)

(** Stopping takes effect at once: however the service was driven, after
    [stopAnalysis] no timer is armed, and whatever handles fire afterwards
    nothing changes: no result or error is delivered and no state is
    touched. *)
Theorem nothing_fires_after_stop :
  forall (cfg : Config.t) (e : Env) (ops : list Op) (fs : list (Z * Snapshot)),
    let w := stopAnalysis (run ops (new_world cfg e)) in
    timers w = [] /\ isAnalyzing (service w) = false /\ run (fires fs) w = w.
Proof.
  intros cfg e ops fs w.
  assert (Htimers : timers w = []).
  { pose proof (@RealTimeLoop.step_one_timer _ StopAnalysis
                  (proj1 (reachable_invariants cfg e ops))) as [_ H].
    cbn [step] in H.
    rewrite (RealTimeLoop.stopAnalysis_stops (run ops (new_world cfg e))) in H.
    apply H. }
  split; [exact Htimers|]. split; [apply RealTimeLoop.stopAnalysis_stops|].
  induction fs as [|[h s] fs IH]; [reflexivity|].
  cbn [fires map run fold_left step]. unfold fire. rewrite Htimers. cbn [existsb].
  exact IH.
Qed.

(** *** A failed read *)

(** A tick whose read of the analyser fails does not stop the loop: the
    service's fields (history included) and the armed timers are unchanged,
    the loop is still running, no result is delivered, and the error goes to
    the console and to the error callback when there is one. *)
Theorem failed_read_keeps_running :
  forall (w : World) (handle : Z) (cb : Callback),
    running w handle cb ->
    let w' := fire handle None w in
    service w' = service w
    /\ timers w' = timers w
    /\ running w' handle cb
    /\ delivered (events w') = delivered (events w)
    /\ exists message,
         events w'
         = events w ++ ConsoleError "Real-time analysis error:"
             :: match onErrorCallback (service w) with
                | Some onError => [ErrorDelivered onError message]
                | None => []
                end.
Proof.
  intros w handle cb Hrun w'. subst w'.
  pose proof Hrun as (Han & Hon & Hcb & Hin).
  unfold fire.
  assert (Hex : existsb (Z.eqb handle) (timers w) = true).
  { apply existsb_exists. exists handle. split; [exact Hin|apply Z.eqb_refl]. }
  rewrite Hex. unfold performRealTimeAnalysis.
  destruct (analyser (service w)) as [a|] eqn:Ha; [|congruence].
  rewrite Hon. cbn [negb].
  destruct (onErrorCallback (service w)) as [onError|]; cbn;
    (split; [reflexivity|]); (split; [reflexivity|]);
    (split; [unfold running; cbn; rewrite Ha; repeat split; assumption|]);
    rewrite ?RealTimeLoop.delivered_app; cbn; rewrite ?app_nil_r;
    (split; [reflexivity|]).
  - exists "read failed"%string. rewrite <- app_assoc. reflexivity.
  - exists EmptyString. reflexivity.
Qed.

Lemma failed_read_sample :
  service (fire 1 None (started_world 0.7)) = service (started_world 0.7)
  /\ running (fire 1 None (started_world 0.7)) 1 1%nat.
Proof.
  destruct (failed_read_keeps_running (started_world 0.7) 1 1%nat
              (RealTimeLoop.started_world_running 0.7%float))
    as (Hsvc & _ & Hrun & _).
  split; [exact Hsvc|exact Hrun].
Defined.

(** *** Starting afresh *)

Lemma start_from_idle (w : World) (onResult : Callback) (onError : option Callback) :
  isAnalyzing (service w) = false -> analyser (service w) <> None ->
  let w' := startAnalysis onResult onError w in
  running w' (next_handle w) onResult
  /\ lastResults (service w') = lastResults (service w)
  /\ timers w' = timers w ++ [next_handle w]
  /\ onErrorCallback (service w') = onError
  /\ events w' = events w ++ [ConsoleLog "Real-time voice analysis started"].
Proof.
  intros Hoff Han w'. subst w'. unfold startAnalysis. rewrite Hoff.
  destruct (analyser (service w)) as [a|] eqn:Ha; [|congruence].
  unfold running. cbn. rewrite ?Ha. repeat split; try discriminate.
  apply in_or_app. right. left. reflexivity.
Qed.

(** Smoothing never reaches across a restart: however the service was
    driven before, if it is idle and initialised then after [startAnalysis]
    the first result delivered to the new callback is the raw result of that
    tick, unsmoothed. *)
Theorem first_result_after_start_is_raw :
  forall (cfg : Config.t) (e : Env) (ops : list Op)
         (onResult : Callback) (onError : option Callback) (f t : list Z),
    let w := run ops (new_world cfg e) in
    isAnalyzing (service w) = false ->
    analyser (service w) <> None ->
    let w1 := startAnalysis onResult onError w in
    events (fire (next_handle w) (Some (f, t)) w1)
    = events w1 ++ [ResultDelivered onResult (raw_result w1 f t)].
Proof.
  intros cfg e ops onResult onError f t w Hoff Han w1.
  destruct (start_from_idle w onResult onError Hoff Han) as (Hrun & Hhist & _).
  fold w1 in Hrun, Hhist.
  destruct (reachable_invariants cfg e ops) as [_ Hidle]. fold w in Hidle.
  rewrite (Hidle Hoff) in Hhist.
  unfold fire.
  assert (Hex : existsb (Z.eqb (next_handle w)) (timers w1) = true).
  { apply existsb_exists. exists (next_handle w). split; [apply Hrun|apply Z.eqb_refl]. }
  rewrite Hex.
  destruct (@RealTimeLoop.performRealTimeAnalysis_running w1 f t _ _ Hrun) as (Hev & _).
  rewrite Hev. unfold smoothResults. rewrite Hhist. reflexivity.
Qed.

Lemma first_result_after_restart :
  events (fire 2 (Some clear_tick)
               (startAnalysis 5%nat None
                  (run [Fire 1 (Some muffled_tick); StopAnalysis] (started_world 0.7))))
  = events (startAnalysis 5%nat None
              (run [Fire 1 (Some muffled_tick); StopAnalysis] (started_world 0.7)))
    ++ [ResultDelivered 5%nat
          (raw_result
             (startAnalysis 5%nat None
                (run [Fire 1 (Some muffled_tick); StopAnalysis] (started_world 0.7)))
             (fst clear_tick) (snd clear_tick))].
Proof.
  apply (first_result_after_start_is_raw
           (Config.mk 200 1024 0.3%float 0.7%float) sample_env
           [Initialize true 44100%float; StartAnalysis 1%nat (Some 2%nat);
            Fire 1 (Some muffled_tick); StopAnalysis]
           5%nat None (fst clear_tick) (snd clear_tick)).
  - vm_compute. reflexivity.
  - vm_compute. discriminate.
Defined.

(** *** The speech service's entry point *)

(** [startRealTimeAnalysis] of the speech service.  When the microphone is
    refused, nothing is armed or changed and the error callback is told.
    When it is granted and the loop is idle, the loop ends up running with
    exactly one timer and an empty history, initialised or not beforehand.
    When it is granted while the loop is already running, the audio context
    is replaced but the loop keeps its timer and its first callbacks: the
    new result callback is not registered. *)
Theorem startRealTimeAnalysis_outcomes :
  (forall (w : World) (rate : number) (onResult onError : Callback),
      let w' := SpeechService.startRealTimeAnalysis false rate onResult (Some onError) w in
      service w' = service w
      /\ timers w' = timers w
      /\ events w'
         = events w
           ++ [ConsoleError "Failed to initialize real-time voice analysis:";
               ConsoleError "Failed to start real-time analysis:";
               ErrorDelivered onError "Microphone access denied or not available"])
  /\ (forall (cfg : Config.t) (e : Env) (ops : list Op) (rate : number)
             (onResult : Callback) (onError : option Callback),
        let w := run ops (new_world cfg e) in
        isAnalyzing (service w) = false ->
        let w' := SpeechService.startRealTimeAnalysis true rate onResult onError w in
        running w' (next_handle w) onResult
        /\ timers w' = [next_handle w]
        /\ lastResults (service w') = [])
  /\ (forall (w : World) (handle : Z) (cb : Callback) (rate : number)
             (onResult : Callback) (onError : option Callback),
        running w handle cb ->
        let w' := SpeechService.startRealTimeAnalysis true rate onResult onError w in
        running w' handle cb
        /\ timers w' = timers w
        /\ onErrorCallback (service w') = onErrorCallback (service w)
        /\ audioContext (service w') = Some (mkContext rate)).
Proof.
  split; [|split].
  - intros w rate onResult onError w'. subst w'.
    unfold SpeechService.startRealTimeAnalysis. cbn.
    rewrite <- !app_assoc. repeat split; reflexivity.
  - intros cfg e ops rate onResult onError w Hoff w'. subst w'.
    unfold SpeechService.startRealTimeAnalysis.
    destruct (reachable_invariants cfg e ops) as [[_ Hone] Hidle].
    fold w in Hone, Hidle. rewrite Hoff in Hone. destruct Hone as [_ Htimers].
    assert (Hoff' : isAnalyzing (service (initialize true rate w)) = false)
      by exact Hoff.
    assert (Han : analyser (service (initialize true rate w)) <> None)
      by (cbn; discriminate).
    destruct (start_from_idle (initialize true rate w) onResult onError Hoff' Han)
      as (Hrun & Hhist & Ht & _).
    split; [exact Hrun|]. split.
    + rewrite Ht. cbn. rewrite Htimers. reflexivity.
    + rewrite Hhist. cbn. apply Hidle, Hoff.
  - intros w handle cb rate onResult onError (Han & Hon & Hcb & Hin) w'. subst w'.
    unfold SpeechService.startRealTimeAnalysis, startAnalysis. cbn. rewrite Hon.
    unfold running. cbn. repeat split; try assumption. discriminate.
Qed.

Lemma startRealTimeAnalysis_sample :
  running (SpeechService.startRealTimeAnalysis true 44100%float 7%nat None
             (new_world Config.default sample_env)) 1 7%nat
  /\ onResultCallback
       (service (SpeechService.startRealTimeAnalysis true 48000%float 9%nat None
                   (started_world 0.7)))
     = Some 1%nat.
Proof.
  split.
  - apply (proj1 (proj2 startRealTimeAnalysis_outcomes) Config.default sample_env []
             44100%float 7%nat None eq_refl).
  - apply (proj2 (proj2 startRealTimeAnalysis_outcomes) (started_world 0.7) 1 1%nat
             48000%float 9%nat None (RealTimeLoop.started_world_running 0.7%float)).
Defined.

(** *** Silence *)

Lemma raw_silence (f : Features.t) (e : Env) :
  Features.isSpeaking f = false ->
  let r := fst (analyzeRealTimeSpeech f e) in
  Result.isSlurred r = false /\ Result.isSpeaking r = false
  /\ Result.confidence r = 0.1%float
  /\ Result.transcription r = "No speech detected"%string.
Proof.
  intros Hsilent r. subst r.
  unfold analyzeRealTimeSpeech, slurRules, rawConfidence. rewrite Hsilent.
  unfold bind, development, Date_now, ret. rewrite andb_false_r.
  cbn [fst Result.isSlurred Result.isSpeaking Result.confidence Result.transcription].
  repeat split; reflexivity.
Qed.

(** On a tick whose features say nobody is speaking, the result delivered
    to the callback is never slurred, even right after slurred ticks, and its
    label is "No speech detected".  Its four numbers are smoothed like those
    of any tick: with an empty history the confidence is 0.1 and the volume,
    pitch and clarity are the tick's own measurements; otherwise each is the
    previous result's blended with the tick's (the confidence towards 0.1),
    so a silent tick still reports part of the earlier volume, pitch and
    clarity. *)
Theorem silent_tick_is_never_slurred :
  forall (w : World) (f t : list Z) (handle : Z) (cb : Callback),
    running w handle cb ->
    let measured := extractRealTimeFeatures (service w) f t in
    Features.isSpeaking measured = false ->
    exists emitted,
      events (fire handle (Some (f, t)) w) = events w ++ [ResultDelivered cb emitted]
      /\ Result.isSlurred emitted = false
      /\ Result.isSpeaking emitted = false
      /\ Result.transcription emitted = "No speech detected"%string
      /\ match last_result (lastResults (service w)) with
         | None =>
             Result.confidence emitted = 0.1%float
             /\ Result.volume emitted = Features.volume measured
             /\ Result.pitch emitted = Features.pitch measured
             /\ Result.clarity emitted = Features.clarity measured
         | Some previous =>
             let sf := Config.smoothingFactor (config (service w)) in
             Result.confidence emitted = smoothed sf (Result.confidence previous) 0.1
             /\ Result.volume emitted
                = smoothed sf (Result.volume previous) (Features.volume measured)
             /\ Result.pitch emitted
                = smoothed sf (Result.pitch previous) (Features.pitch measured)
             /\ Result.clarity emitted
                = smoothed sf (Result.clarity previous) (Features.clarity measured)
         end.
Proof.
  intros w f t handle cb Hrun measured Hsilent. subst measured.
  exists (smoothResults (service w) (raw_result w f t)).
  unfold fire.
  assert (Hex : existsb (Z.eqb handle) (timers w) = true).
  { apply existsb_exists. exists handle. split; [apply Hrun|apply Z.eqb_refl]. }
  rewrite Hex.
  destruct (@RealTimeLoop.performRealTimeAnalysis_running w f t _ _ Hrun) as (Hev & _).
  destruct (RealTimeLoop.smoothResults_spec (service w) (raw_result w f t))
    as (Hslur & Hspeak & Hsmooth).
  destruct (raw_silence _ (env w) Hsilent) as (Hs & Hsp & Hc & Ht).
  destruct (SpeechAnalysis.analyzeRealTimeSpeech_fields
              (extractRealTimeFeatures (service w) f t) (env w))
    as (_ & _ & _ & Hv & Hp & Hcl).
  fold (raw_result w f t) in Hs, Hsp, Hc, Ht, Hv, Hp, Hcl.
  split; [exact Hev|]. split; [rewrite Hslur; exact Hs|].
  split; [rewrite Hspeak; exact Hsp|].
  split.
  - unfold smoothResults. destruct (rev (lastResults (service w))); exact Ht.
  - destruct (last_result (lastResults (service w))) as [previous|].
    + destruct Hsmooth as (H1 & H2 & H3 & H4). cbv zeta in H1, H2, H3, H4 |- *.
      rewrite H1, H2, H3, H4, Hc, Hv, Hp, Hcl. repeat split; reflexivity.
    + rewrite Hsmooth, Hc, Hv, Hp, Hcl. repeat split; reflexivity.
Qed.

Lemma silent_tick_after_slurred :
  exists emitted,
    events (fire 1 (Some silent_tick) (fire 1 (Some muffled_tick) (started_world 0.7)))
    = events (fire 1 (Some muffled_tick) (started_world 0.7))
      ++ [ResultDelivered 1%nat emitted]
    /\ Result.isSlurred emitted = false
    /\ Result.transcription emitted = "No speech detected"%string.
Proof.
  assert (Hrun : running (fire 1 (Some muffled_tick) (started_world 0.7)) 1 1%nat).
  { unfold running. vm_compute. repeat split; try reflexivity.
    - discriminate.
    - left. reflexivity. }
  destruct (silent_tick_is_never_slurred
              (fire 1 (Some muffled_tick) (started_world 0.7))
              (fst silent_tick) (snd silent_tick) 1 1%nat Hrun)
    as (emitted & Hev & Hs & _ & Ht & _).
  - vm_compute. reflexivity.
  - exists emitted. split; [exact Hev|]. split; [exact Hs|exact Ht].
Defined.

(** *** Cleaning up *)

Lemma stopAnalysis_keeps_nodes (w : World) :
  audioContext (service (stopAnalysis w)) = audioContext (service w)
  /\ analyser (service (stopAnalysis w)) = analyser (service w)
  /\ next_handle (stopAnalysis w) = next_handle w
  /\ closing (stopAnalysis w) = closing w.
Proof.
  unfold stopAnalysis. destruct (isAnalyzing (service w)); cbn [negb].
  - destruct (analysisInterval (service w)) as [handle|];
      [destruct (handle =? 0)|]; cbn; repeat split; reflexivity.
  - repeat split; reflexivity.
Qed.

Ltac fields :=
  cbn [service env timers next_handle events closing
       audioContext analyser microphone stream isAnalyzing analysisInterval config
       lastResults onResultCallback onErrorCallback with_service releaseNodes].

Lemma uninterruptedCleanup_released (w : World) :
  closing w = 0%nat -> uninterruptedCleanup w = released w.
Proof.
  intros Hclosing. unfold uninterruptedCleanup, released. cbn [run fold_left step].
  destruct (stopAnalysis_keeps_nodes w) as (_ & _ & _ & Hcl).
  unfold cleanup. destruct (audioContext (service (stopAnalysis w))) as [ctx|].
  - unfold cleanupResumes. fields. reflexivity.
  - unfold cleanupResumes. fields. rewrite Hcl, Hclosing. reflexivity.
Qed.

Lemma stopAnalysis_idle (w : World) : isAnalyzing (service w) = false -> stopAnalysis w = w.
Proof. intros Hoff. unfold stopAnalysis. rewrite Hoff. reflexivity. Qed.

Lemma released_twice (w : World) : released (released w) = released w.
Proof.
  pose proof (RealTimeLoop.stopAnalysis_stops w) as Hoff.
  unfold released at 1. rewrite (stopAnalysis_idle (released w)).
  - unfold released. fields. reflexivity.
  - unfold released. fields. exact Hoff.
Qed.

Lemma cleanup_suspends (w : World) :
  audioContext (service w) <> None ->
  isAnalyzing (service (cleanup w)) = false
  /\ analyser (service (cleanup w)) = analyser (service w)
  /\ timers (cleanup w) = timers (stopAnalysis w)
  /\ next_handle (cleanup w) = next_handle w
  /\ closing (cleanup w) = S (closing w).
Proof.
  intros Hctx.
  destruct (stopAnalysis_keeps_nodes w) as (Hc & Ha & Hn & Hcl).
  pose proof (RealTimeLoop.stopAnalysis_stops w) as Hoff.
  unfold cleanup. rewrite Hc.
  destruct (audioContext (service w)) as [ctx|]; [|congruence].
  fields. rewrite Hoff, Ha, Hn, Hcl. repeat split; reflexivity.
Qed.

Lemma startAnalysis_closing (w : World) (onResult : Callback) (onError : option Callback) :
  closing (startAnalysis onResult onError w) = closing w.
Proof.
  unfold startAnalysis.
  destruct (isAnalyzing (service w)); [reflexivity|].
  destruct (analyser (service w)); [reflexivity|].
  destruct onError; reflexivity.
Qed.

Lemma cleanupResumes_releases (w : World) (waiting : nat) :
  closing w = S waiting ->
  isAnalyzing (service (cleanupResumes true w)) = isAnalyzing (service w)
  /\ timers (cleanupResumes true w) = timers w
  /\ onResultCallback (service (cleanupResumes true w)) = onResultCallback (service w)
  /\ analyser (service (cleanupResumes true w)) = None.
Proof.
  intros Hw. unfold cleanupResumes. rewrite Hw. fields. repeat split; reflexivity.
Qed.

Lemma releaseNodes_fields (w : World) :
  audioContext (service (releaseNodes w)) = None
  /\ analyser (service (releaseNodes w)) = None
  /\ microphone (service (releaseNodes w)) = false
  /\ lastResults (service (releaseNodes w)) = []
  /\ isAnalyzing (service (releaseNodes w)) = isAnalyzing (service w)
  /\ onResultCallback (service (releaseNodes w)) = onResultCallback (service w)
  /\ timers (releaseNodes w) = timers w
  /\ stream (service (releaseNodes w)) = stream (service w).
Proof. unfold releaseNodes. cbn. repeat split; reflexivity. Qed.

(** [cleanup] is not one step: with an audio context it waits for
    [close()] and clears the analyser, the microphone and the history only
    afterwards.  When nothing is called in between, the service ends
    uninitialised and idle with an empty history, no timer is armed, a
    [startAnalysis] only reports "not initialized", and a second such
    cleanup changes nothing.  But a [startAnalysis] that is called during
    the wait succeeds, and once the cleanup resumes the loop is left
    analyzing with its timer armed and no analyser: no tick delivers anything
    and a further [startAnalysis] only warns that the analysis is running. *)
Theorem cleanup_waits_for_close :
  (forall w : World,
      let w' := uninterruptedCleanup w in
      analyser (service w') = None
      /\ audioContext (service w') = None
      /\ isAnalyzing (service w') = false
      /\ lastResults (service w') = []
      /\ (forall onResult onError,
            startAnalysis onResult (Some onError) w'
            = emit (ErrorDelivered onError "Real-time analysis not initialized") w')
      /\ (closing w = 0%nat -> uninterruptedCleanup w' = w'))
  /\ (forall (cfg : Config.t) (e : Env) (ops : list Op),
        timers (uninterruptedCleanup (run ops (new_world cfg e))) = [])
  /\ (forall (cfg : Config.t) (e : Env) (ops : list Op)
             (onResult : Callback) (onError : option Callback),
        let w := run ops (new_world cfg e) in
        audioContext (service w) <> None ->
        analyser (service w) <> None ->
        let w' := startDuringCleanup onResult onError w in
        isAnalyzing (service w') = true
        /\ timers w' = [next_handle w]
        /\ onResultCallback (service w') = Some onResult
        /\ analyser (service w') = None
        /\ (forall handle snapshot, fire handle snapshot w' = w')
        /\ (forall cb cbError,
              startAnalysis cb cbError w'
              = emit (ConsoleWarn "Real-time analysis already running") w')).
Proof.
  split; [|split].
  - intros w w'.
    assert (Hfields : analyser (service w') = None /\ audioContext (service w') = None
                      /\ isAnalyzing (service w') = false
                      /\ lastResults (service w') = []).
    { subst w'. unfold uninterruptedCleanup. cbn [run fold_left step].
      pose proof (RealTimeLoop.stopAnalysis_stops w) as Hoff.
      unfold cleanup.
      destruct (audioContext (service (stopAnalysis w))) as [ctx|].
      - unfold cleanupResumes, releaseNodes.
        cbn [closing service with_service analyser audioContext isAnalyzing lastResults].
        rewrite Hoff. repeat split; reflexivity.
      - unfold cleanupResumes.
        destruct (closing _); unfold releaseNodes;
          cbn [closing service with_service analyser audioContext isAnalyzing lastResults];
          rewrite Hoff; repeat split; reflexivity. }
    destruct Hfields as (Han & Hctx & Hoff & Hhist).
    split; [exact Han|]. split; [exact Hctx|]. split; [exact Hoff|].
    split; [exact Hhist|]. split.
    + intros onResult onError. unfold startAnalysis. rewrite Hoff, Han. reflexivity.
    + intros Hclosing. subst w'.
      rewrite (uninterruptedCleanup_released w Hclosing).
      rewrite (uninterruptedCleanup_released (released w)).
      * apply released_twice.
      * unfold released. fields.
        destruct (stopAnalysis_keeps_nodes w) as (_ & _ & _ & Hcl).
        rewrite Hcl. exact Hclosing.
  - intros cfg e ops. unfold uninterruptedCleanup.
    pose proof (@RealTimeLoop.run_one_timer [Cleanup; CleanupResumes true] _
                  (proj1 (reachable_invariants cfg e ops))) as [_ H].
    assert (Hoff : isAnalyzing
                     (service (run [Cleanup; CleanupResumes true]
                                   (run ops (new_world cfg e)))) = false).
    { cbn [run fold_left step].
      pose proof (RealTimeLoop.stopAnalysis_stops (run ops (new_world cfg e))) as Hoff.
      unfold cleanup.
      destruct (audioContext (service (stopAnalysis _))).
      - unfold cleanupResumes. cbn. exact Hoff.
      - unfold cleanupResumes. destruct (closing _); cbn; exact Hoff. }
    rewrite Hoff in H. apply H.
  - intros cfg e ops onResult onError w Hctx Han w'.
    destruct (reachable_invariants cfg e ops) as [Hone _]. fold w in Hone.
    pose proof (@RealTimeLoop.step_one_timer _ StopAnalysis Hone) as [_ Hstop].
    cbn [step] in Hstop.
    rewrite (RealTimeLoop.stopAnalysis_stops w) in Hstop.
    destruct Hstop as [_ Htimers].
    destruct (cleanup_suspends w Hctx) as (Hoff & Ha & Ht & Hn & Hcl).
    rewrite <- Ha in Han.
    destruct (start_from_idle (cleanup w) onResult onError Hoff Han)
      as ((_ & Hon & Hcb & _) & _ & Ht2 & _).
    pose proof (startAnalysis_closing (cleanup w) onResult onError) as Hcl2.
    rewrite Hcl in Hcl2.
    destruct (cleanupResumes_releases _ _ Hcl2) as (Hon3 & Ht3 & Hcb3 & Han3).
    subst w'. unfold startDuringCleanup. cbn [run fold_left step].
    assert (Hon' : isAnalyzing
                     (service (cleanupResumes true
                                 (startAnalysis onResult onError (cleanup w)))) = true)
      by (rewrite Hon3; exact Hon).
    assert (Htimers' : timers (cleanupResumes true
                                 (startAnalysis onResult onError (cleanup w)))
                       = [next_handle w])
      by (rewrite Ht3, Ht2, Ht, Htimers, Hn; reflexivity).
    rewrite <- Hcb3 in Hcb.
    set (w3 := cleanupResumes true (startAnalysis onResult onError (cleanup w))) in *.
    split; [exact Hon'|]. split; [exact Htimers'|]. split; [exact Hcb|].
    split; [exact Han3|]. split.
    + intros handle snapshot. unfold fire, performRealTimeAnalysis. rewrite Han3.
      destruct (existsb _ _); reflexivity.
    + intros cb cbError. unfold startAnalysis. rewrite Hon'. reflexivity.
Qed.

Lemma start_during_cleanup_sample :
  isAnalyzing
    (service (startDuringCleanup 3%nat None
                (run analyzing_ops (new_world Config.default sample_env)))) = true
  /\ analyser
       (service (startDuringCleanup 3%nat None
                   (run analyzing_ops (new_world Config.default sample_env)))) = None
  /\ timers (startDuringCleanup 3%nat None
               (run analyzing_ops (new_world Config.default sample_env))) = [2].
Proof.
  destruct (proj2 (proj2 cleanup_waits_for_close) Config.default sample_env
              analyzing_ops 3%nat None)
    as (Hon & Ht & _ & Han & _).
  - vm_compute. discriminate.
  - vm_compute. discriminate.
  - split; [exact Hon|]. split; [exact Han|exact Ht].
Defined.

End LoopFacts.

(* ------------------------------------------------------------------ *)
(** ** The advisor's [analyzeRisk]                                      *)
(* ------------------------------------------------------------------ *)

Module AdvisorFacts.
Import JS AIAdvisorService AdvisorSpec SpeechSpec.
Local Unset Implicit Arguments.

Section WithToFixed.
Variable toFixed1 : number -> string.

(** Without an API key, or when the request fails in any way before a
    parsed value is at hand, [analyzeRisk] returns exactly what
    [calculateLocally] returns, so its score is a whole number of 0..100. *)
Theorem analyzeRisk_falls_back_locally :
  forall (apiKey : string) (reply : Reply) (data : AiAdvisor.AnalysisData) (e : Env),
    apiKey = EmptyString \/ parsed reply = false ->
    analyzeRisk toFixed1 apiKey reply data e
    = (Local (fst (AiAdvisor.calculateLocally toFixed1 data e)), e)
    /\ 0 <= AIRiskScore.score (fst (AiAdvisor.calculateLocally toFixed1 data e)) <= 100.
Proof.
  intros apiKey reply data e H. split.
  - assert (Hloc : calculateLocally_outcome toFixed1 data e
                   = (Local (fst (AiAdvisor.calculateLocally toFixed1 data e)), e)).
    { unfold calculateLocally_outcome, AiAdvisor.calculateLocally.
      destruct (AiAdvisor.score_speech data
                  (AiAdvisor.score_face toFixed1 data (AiAdvisor.score_befast data)))
        as [sc fs].
      reflexivity. }
    unfold analyzeRisk. destruct H as [-> | H].
    + cbn [String.eqb]. exact Hloc.
    + destruct (String.eqb apiKey EmptyString); [exact Hloc|].
      destruct reply; try exact Hloc. discriminate H.
  - apply StoreFacts.local_score_range.
Qed.

(** With an API key and a parsed reply the result is the remote one.  Its
    level is the reply's own level, whatever the score, and "LOW" when the
    reply has none or an empty one, so it is never empty; its score lies in
    0..100 when the reply's score is missing or a number, and is NaN when it
    is some other truthy value that is not numeric. *)
Theorem analyzeRisk_remote_score_clamped :
  forall (apiKey : string) (aiResult : AiResult) (data : AiAdvisor.AnalysisData)
         (e : Env),
    apiKey <> EmptyString ->
    let o := fst (analyzeRisk toFixed1 apiKey (Parsed aiResult) data e) in
    exists s l,
      remote_score o = Some s /\ remote_level o = Some l
      /\ l <> EmptyString
      /\ (forall given, level aiResult = Some given -> given <> EmptyString -> l = given)
      /\ (level aiResult = None \/ level aiResult = Some EmptyString -> l = "LOW"%string)
      /\ (numeric (score aiResult) = true -> within 0 100 s = true)
      /\ (forall x, score aiResult = Other true x -> PrimFloat.is_nan x = true ->
                    PrimFloat.is_nan s = true).
Proof.
  intros apiKey aiResult data e Hkey o. subst o.
  unfold analyzeRisk.
  destruct (String.eqb apiKey EmptyString) eqn:Hk.
  { apply String.eqb_eq in Hk. contradiction. }
  unfold bind, Date_now, ret. cbn [fst remote_score remote_level].
  eexists. eexists. split; [reflexivity|]. split; [reflexivity|].
  split; [|split; [|split; [|split]]].
  - destruct (level aiResult) as [l|]; [|discriminate].
    destruct (String.eqb l EmptyString) eqn:Hl; [discriminate|].
    apply String.eqb_neq in Hl. exact Hl.
  - intros given Hgiven Hne. rewrite Hgiven.
    destruct (String.eqb_spec given EmptyString) as [Heq|_]; [contradiction|reflexivity].
  - intros [Hnone|Hempty]; [rewrite Hnone|rewrite Hempty]; reflexivity.
  - intros Hnum. unfold within.
    apply FloatOrder.clamp_within_rev; [reflexivity|].
    destruct (score aiResult); try discriminate Hnum.
    + reflexivity.
    + apply FloatOrder.or_zero_not_nan.
  - intros x Hx Hnan. rewrite Hx. cbn [score_or_zero].
    unfold Math_max, Math_min. rewrite Hnan. reflexivity.
Qed.

End WithToFixed.

Lemma analyzeRisk_without_key :
  analyzeRisk RiskSpec.sample_toFixed1 EmptyString eager_reply RiskSpec.scenario_data
              RiskSpec.sample_env
  = (Local (fst (AiAdvisor.calculateLocally RiskSpec.sample_toFixed1
                   RiskSpec.scenario_data RiskSpec.sample_env)),
     RiskSpec.sample_env).
Proof.
  apply (analyzeRisk_falls_back_locally RiskSpec.sample_toFixed1 EmptyString eager_reply
           RiskSpec.scenario_data RiskSpec.sample_env).
  left. reflexivity.
Defined.

Lemma analyzeRisk_alarmed_reply :
  exists s,
    remote_score (fst (analyzeRisk RiskSpec.sample_toFixed1 "sk-test" (Parsed alarmed_result)
                         RiskSpec.all_false_data RiskSpec.sample_env)) = Some s
    /\ remote_level (fst (analyzeRisk RiskSpec.sample_toFixed1 "sk-test"
                            (Parsed alarmed_result)
                            RiskSpec.all_false_data RiskSpec.sample_env))
       = Some "CRITICAL"%string
    /\ within 0 100 s = true.
Proof.
  destruct (analyzeRisk_remote_score_clamped RiskSpec.sample_toFixed1 "sk-test"
              alarmed_result RiskSpec.all_false_data RiskSpec.sample_env)
    as (s & l & Hs & Hl & _ & Hgiven & _ & Hin & _).
  - discriminate.
  - exists s. split; [exact Hs|]. split.
    + rewrite Hl. f_equal. apply (Hgiven "CRITICAL"%string); [reflexivity|discriminate].
    + apply Hin. reflexivity.
Defined.

End AdvisorFacts.

(* ------------------------------------------------------------------ *)
(** ** The neurologist search route                                     *)
(* ------------------------------------------------------------------ *)

Module RouteFacts.
Import PlacesRoute RouteSpec.
Local Unset Implicit Arguments.

Lemma lookup_spread (k : string) (a b : Place) :
  lookup k (spread a b)
  = match lookup k b with
    | Some v => Some v
    | None => lookup k a
    end.
Proof.
  unfold spread.
  assert (Hfilter : forall a0, has k a0 = false ->
            lookup k (filter (fun '(k', _) => negb (has k' a0)) b) = lookup k b).
  { intros a0 Ha0. induction b as [|[k' v] b IH]; [reflexivity|].
    cbn [filter lookup]. destruct (String.eqb_spec k k') as [<-|Hk].
    - rewrite Ha0. cbn [negb lookup]. rewrite String.eqb_refl. reflexivity.
    - destruct (negb (has k' a0)); [|exact IH].
      cbn [lookup]. destruct (String.eqb_spec k k'); [contradiction|exact IH]. }
  assert (Hmap : forall a1,
            lookup k (map (fun '(k', v) => (k', match lookup k' b with
                                               | Some v' => v'
                                               | None => v
                                               end)) a1
                      ++ filter (fun '(k', _) => negb (has k' a)) b)
            = match lookup k a1 with
              | Some v => Some match lookup k b with
                               | Some v' => v'
                               | None => v
                               end
              | None => lookup k (filter (fun '(k', _) => negb (has k' a)) b)
              end).
  { induction a1 as [|[k' v] a1 IH]; [reflexivity|].
    cbn [map app lookup]. destruct (String.eqb_spec k k') as [<-|Hk]; [reflexivity|exact IH]. }
  rewrite Hmap. destruct (lookup k a) as [v|] eqn:Ha.
  - destruct (lookup k b); reflexivity.
  - rewrite Hfilter; [destruct (lookup k b); reflexivity|].
    unfold has. rewrite Ha. reflexivity.
Qed.

Lemma withDetails_merged (details : option Value -> Details) (neurologist : Place)
    (k : string) :
  lookup k (withDetails details neurologist) = merged neurologist details k.
Proof.
  unfold withDetails, merged.
  destruct (details (lookup "place_id" neurologist)) as [| |st [result|]];
    try reflexivity; destruct (String.eqb st "OK"); try reflexivity.
  - apply lookup_spread.
  - rewrite lookup_spread. reflexivity.
Qed.

(** The route answers 500 without an API key, whatever else the request
    holds, and 400 with a key but no location, in both cases whatever the
    searches would have returned; every other failure is a 500 that carries
    [success: false]; and a 200 always carries a list of at most ten places
    whose length is the [count] it reports. *)
Theorem GET_statuses :
  forall (location apiKey : option string) (search : Search)
         (details : option Value -> Details),
    let r := GET location apiKey search details in
    (missing apiKey = true ->
       r = mkResponse 500 (Failed "Google Places API key not configured" None))
    /\ (missing apiKey = false -> missing location = true ->
          r = mkResponse 400 (Failed "Location parameter is required" None))
    /\ (missing apiKey = false -> missing location = false ->
          (exists message, r = mkResponse 500 (Failed message (Some false)))
          \/ (exists neurologists mock,
                r = mkResponse 200 (Found neurologists (List.length neurologists) mock)
                /\ (List.length neurologists <= 10)%nat)).
Proof.
  intros location apiKey search details r. subst r. unfold GET.
  split; [intros ->; reflexivity|].
  split; [intros -> ->; reflexivity|].
  intros -> ->.
  destruct search as [message|st|st results].
  - left. eexists. reflexivity.
  - left. eexists. reflexivity.
  - destruct (negb (String.eqb st "OK") && negb (String.eqb st "ZERO_RESULTS")).
    + destruct (String.eqb st "REQUEST_DENIED" || String.eqb st "INVALID_REQUEST").
      * right. exists mockNeurologists, true. split; [reflexivity|]. cbn. lia.
      * left. eexists. reflexivity.
    + right. cbv zeta.
      destruct results as [[|r rs]|].
      * exists [], false. split; [reflexivity|]. cbn. lia.
      * exists (map (withDetails details) (firstn 10 (r :: rs))), false.
        split; [reflexivity|].
        rewrite length_map, length_firstn. lia.
      * exists [], false. split; [reflexivity|]. cbn. lia.
Qed.

Lemma GET_without_location :
  GET None (Some "key"%string) (SearchData "OK" (Some [clinic])) clinic_details
  = mkResponse 400 (Failed "Location parameter is required" None).
Proof.
  apply (GET_statuses None (Some "key"%string) (SearchData "OK" (Some [clinic]))
           clinic_details); reflexivity.
Defined.

(** When the search succeeds, the route returns the first ten results in
    their order, each with the details merged in: a member reads as the
    details give it when the details request succeeded with status OK and
    has it, and as the search result has it otherwise. *)
Theorem GET_merges_details :
  forall (location apiKey : option string) (st : string) (results : list Place)
         (details : option Value -> Details),
    missing apiKey = false -> missing location = false ->
    st = "OK"%string \/ st = "ZERO_RESULTS"%string ->
    exists neurologists,
      GET location apiKey (SearchData st (Some results)) details
      = mkResponse 200 (Found neurologists (Nat.min 10 (List.length results)) false)
      /\ Forall2 (fun found result => forall k, lookup k found = merged result details k)
                 neurologists (firstn 10 results).
Proof.
  intros location apiKey st results details Hkey Hloc Hst.
  unfold GET. rewrite Hkey, Hloc.
  assert (Hok : negb (String.eqb st "OK") && negb (String.eqb st "ZERO_RESULTS") = false)
    by (destruct Hst as [-> | ->]; reflexivity).
  rewrite Hok. cbv zeta.
  destruct results as [|r rs].
  - exists []. split; [reflexivity|constructor].
  - cbn [List.length Nat.ltb Nat.leb].
    exists (map (withDetails details) (firstn 10 (r :: rs))). split.
    + rewrite length_map, length_firstn. reflexivity.
    + induction (firstn 10 (r :: rs)) as [|x xs IH]; constructor; [|exact IH].
      intros k. apply withDetails_merged.
Qed.

Lemma GET_clinic :
  exists neurologists,
    GET (Some "12.9,77.6"%string) (Some "key"%string) (SearchData "OK" (Some [clinic]))
        clinic_details
    = mkResponse 200 (Found neurologists 1 false)
    /\ Forall2 (fun found result => forall k, lookup k found = merged result clinic_details k)
               neurologists [clinic].
Proof.
  apply (GET_merges_details (Some "12.9,77.6"%string) (Some "key"%string) "OK"%string
           [clinic] clinic_details); [reflexivity|reflexivity|left; reflexivity].
Defined.

End RouteFacts.
